(** * dspy-refrag: selection engine, pipeline orchestrator and fragment codecs

    A shallow embedding of the Python sources under [src/dspy_refrag]:
    - [sensor_advanced.py]  (AdvancedSensor and its five strategies),
    - [sensor.py]           (the basic Sensor),
    - [refrag.py]           (REFRAGModule.forward),
    - [fragment.py], [serializer_json.py], [serializer_msgpack.py],
      [serializer_pickle.py], [serializer_unified.py],
    - [serializer_vector.py], [serializer_payload.py],
      [serializer_protobuf.py],
    - [retriever.py]        (SimpleRetriever.retrieve),
    - [data_ingest.py]      (chunk_text).

    Numbers.  Python floats are modelled as exact rationals [Q]: every finite
    binary64 value is a rational, and the properties studied here depend on
    the order of scores only.  Rounding, overflow and NaN are not modelled.
    The two transcendental operations the sources use, [np.exp] and the
    square root inside [np.linalg.norm], are parameters of the sections
    that need them.  A budget is a Python [int], hence a [Z].

    Randomness.  The state of numpy's global generator is the stream of
    uniform variates it will hand out; a computation that draws from it
    takes the state and returns the new one.

    Exceptions.  A Python call that raises returns [Raise e], where [e]
    names the exception class and, for the errors the repository raises
    itself, its message. *)

From Stdlib Require Import ZArith QArith Qround List Lia Lqa Permutation Sorted.
From stdpp Require Import base option gmap strings list fin_maps pretty.
Import ListNotations.

Local Open Scope Q_scope.

Set Warnings "-register-all".

(** ** Exceptions *)

Inductive exn : Type :=
| ValueError (msg : string)
| KeyError (key : string)
| TypeError (msg : string)
| OverflowError (msg : string)
| RuntimeError (msg : string)
| AssertionError
| RecursionError.

Inductive result (A : Type) : Type :=
| Ok (a : A)
| Raise (e : exn).

(** [str(e)]. *)
Definition exn_message (e : exn) : string :=
  match e with
  | ValueError msg | TypeError msg | OverflowError msg | RuntimeError msg => msg
  | KeyError key => ("'" ++ key ++ "'")%string
  | AssertionError => ""
  | RecursionError => "maximum recursion depth exceeded"
  end.

Arguments Ok {A} a.
Arguments Raise {A} e.

Definition rbind {A B : Type} (r : result A) (k : A -> result B) : result B :=
  match r with
  | Ok a => k a
  | Raise e => Raise e
  end.

Notation "'let?' x ':=' r 'in' k" := (rbind r (fun x => k))
  (at level 10, x name, r at level 100, k at level 200).

(** ** Rational comparisons as booleans *)

Definition Qltb (x y : Q) : bool := negb (Qle_bool y x).

Definition Qmaxb (x y : Q) : Q := if Qltb x y then y else x.

(** ** The fragments of numpy the sources rely on *)

Module Np.

(** [np.dot] on two one-dimensional arrays; a shape mismatch raises. *)
Fixpoint dot (a b : list Q) : result Q :=
  match a, b with
  | [], [] => Ok 0
  | x :: a', y :: b' => let? r := dot a' b' in Ok (x * y + r)
  | _, _ => Raise (ValueError "shapes not aligned")
  end.

(** [[f(x) for x in xs]] where [f] may raise. *)
Fixpoint traverse {A B : Type} (f : A -> result B) (xs : list A)
  : result (list B) :=
  match xs with
  | [] => Ok []
  | x :: xs' =>
      let? y := f x in
      let? ys := traverse f xs' in
      Ok (y :: ys)
  end.

(** [np.dot(m, m.T)] for the matrix [m = np.array(rows)]. *)
Definition gram (m : list (list Q)) : result (list (list Q)) :=
  traverse (fun r => traverse (dot r) m) m.

(** Array indexing at an index that is in range wherever it is used:
    every index below comes from [range(len(s))]. *)
Definition at_ (s : list Q) (i : nat) : Q := nth i s 0.

Definition at2 (m : list (list Q)) (i j : nat) : Q := at_ (nth i m []) j.

(** Fancy indexing [s[idxs]]. *)
Definition take_at (s : list Q) (idxs : list nat) : list Q :=
  map (at_ s) idxs.

(** [np.argsort] is modelled by the insertion sort that numpy's default
    (scalar) quicksort runs on arrays of at most sixteen elements.  One
    step: the new index [i] is moved left past every index whose score is
    strictly larger, so indices of equal score keep their order.  numpy
    does not promise this order of equal scores for its default sort
    kind; the statements below that depend on it say so. *)
Fixpoint insert_idx (s : list Q) (i : nat) (l : list nat) : list nat :=
  match l with
  | [] => [i]
  | j :: l' =>
      if Qltb (at_ s i) (at_ s j) then i :: j :: l'
      else j :: insert_idx s i l'
  end.

(** [np.argsort(s)]: the indices of [s] in ascending order of score. *)
Definition argsort (s : list Q) : list nat :=
  fold_left (fun acc i => insert_idx s i acc) (seq 0 (length s)) [].

(** [np.argmax]: the first index holding the maximum; raises on an
    empty array. *)
Fixpoint argmax_from (best : nat) (bv : Q) (i : nat) (l : list Q) : nat :=
  match l with
  | [] => best
  | x :: l' =>
      if Qltb bv x then argmax_from i x (S i) l'
      else argmax_from best bv (S i) l'
  end.

Definition argmax (l : list Q) : result nat :=
  match l with
  | [] => Raise (ValueError "attempt to get argmax of an empty sequence")
  | x :: l' => Ok (argmax_from 0 x 1 l')
  end.

(** [np.where(s >= t)[0]]. *)
Definition where_ge (s : list Q) (t : Q) : list nat :=
  List.filter (fun i => Qle_bool t (at_ s i)) (seq 0 (length s)).

(** [np.sort] on values. *)
Fixpoint insert_val (x : Q) (l : list Q) : list Q :=
  match l with
  | [] => [x]
  | y :: l' => if Qltb x y then x :: y :: l' else y :: insert_val x l'
  end.

Definition sort (s : list Q) : list Q :=
  fold_left (fun acc x => insert_val x acc) s [].

(** [np.percentile(s, q)] with the default linear interpolation; [q] is
    in percent.  Raises outside [0, 100] and on an empty array. *)
Definition percentile (s : list Q) (q : Q) : result Q :=
  if Qltb q 0 || Qltb 100 q
  then Raise (ValueError "Percentiles must be in the range [0, 100]")
  else
    match s with
    | [] => Raise (ValueError "percentile of an empty array")
    | _ =>
        let a := sort s in
        let n := length s in
        let vi := (q / 100) * inject_Z (Z.of_nat (n - 1)) in
        let lo := Z.to_nat (Qfloor vi) in
        let hi := Nat.min (S lo) (n - 1) in
        let g := vi - inject_Z (Z.of_nat lo) in
        Ok (at_ a lo + (at_ a hi - at_ a lo) * g)
    end.

(** Python slicing [l[:b]] for a possibly negative bound. *)
Definition slice_to {A : Type} (b : Z) (l : list A) : list A :=
  if (b <? 0)%Z then firstn (length l - Z.to_nat (- b)) l
  else firstn (Z.to_nat b) l.

(** [np.sum], [np.max] (on a non-empty array) and [np.cumsum]. *)
Definition sum (s : list Q) : Q := fold_right Qplus 0 s.

Definition amax (s : list Q) : Q :=
  match s with
  | [] => 0
  | x :: s' => fold_left Qmaxb s' x
  end.

Fixpoint cumsum_from (acc : Q) (p : list Q) : list Q :=
  match p with
  | [] => []
  | x :: p' => (acc + x) :: cumsum_from (acc + x) p'
  end.

Definition cumsum (p : list Q) : list Q := cumsum_from 0 p.

(** [cdf.searchsorted(x, side='right')] on a non-decreasing array: the
    number of leading entries that are at most [x]. *)
Fixpoint searchsorted_right (cdf : list Q) (x : Q) : nat :=
  match cdf with
  | [] => O
  | c :: cdf' =>
      if Qle_bool c x then S (searchsorted_right cdf' x) else O
  end.

(** [new.take(sorted(np.unique(new, return_index=True)[1]))]: the
    values of [new] at their first occurrences, in positional order. *)
Fixpoint uniq_first (seen : list nat) (new : list nat) : list nat :=
  match new with
  | [] => []
  | i :: new' =>
      if existsb (Nat.eqb i) seen then uniq_first seen new'
      else i :: uniq_first (i :: seen) new'
  end.

(** [p[found] = 0]. *)
Definition zero_at (found : list nat) (p : list Q) : list Q :=
  map (fun ix => if existsb (Nat.eqb (fst ix)) found then 0 else snd ix)
      (combine (seq 0 (length p)) p).

(** *** The process-global generator [np.random]

    The state of the generator is the sequence of uniform variates of
    [[0, 1)] it is still going to hand out. *)
Record RandomState : Type := mkRandomState {
  draws : nat -> Q;
  cursor : nat
}.

(** [self.rand(k)]: the next [k] variates. *)
Definition rand (k : nat) (st : RandomState) : list Q * RandomState :=
  (map (fun i => draws st (cursor st + i)%nat) (seq 0 k),
   mkRandomState (draws st) (cursor st + k)).

(** The [while n_uniq < size] loop of [RandomState.choice] for
    [replace=False] with probabilities [p].  Every round finds at least
    one new index when the variates lie in [[0, 1)], so [size] rounds
    are enough; the loop is cut after [fuel] rounds. *)
Fixpoint choice_loop (fuel : nat) (size : nat) (p : list Q)
    (found : list nat) (st : RandomState)
  : result (list nat) * RandomState :=
  if (length found <? size)%nat then
    match fuel with
    | O => (Raise (RuntimeError "choice did not finish"), st)
    | S fuel' =>
        let (x, st') := rand (size - length found) st in
        let p' := zero_at found p in
        let cdf := cumsum p' in
        let cdf := map (fun c => c / List.last cdf 0) cdf in
        let new := uniq_first [] (map (searchsorted_right cdf) x) in
        choice_loop fuel' size p' (found ++ new) st'
    end
  else (Ok found, st).

(** [np.random.choice(n, size=size, replace=False, p=p)].  Its checks
    that [p] is a distribution (no negative entry, sum one) are left out:
    the probabilities passed here are a softmax. *)
Definition choice (n : nat) (size : Z) (p : list Q) (st : RandomState)
  : result (list nat) * RandomState :=
  if negb (length p =? n)%nat
  then (Raise (ValueError "'a' and 'p' must have same size"), st)
  else if (Z.of_nat n <? size)%Z
  then (Raise (ValueError "Cannot take a larger sample than population when 'replace=False'"), st)
  else if (size <? 0)%Z
  then (Raise (ValueError "negative dimensions are not allowed"), st)
  else if (Z.of_nat (length (List.filter (Qltb 0) p)) <? size)%Z
  then (Raise (ValueError "Fewer non-zero entries in p than size"), st)
  else choice_loop (Z.to_nat size) (Z.to_nat size) p [] st.

End Np.

(** ** sensor_advanced.py *)

Module AdvancedSensor.

Inductive SelectionStrategy : Type :=
| SIMILARITY | MMR | UNCERTAINTY | ENSEMBLE | ADAPTIVE.

Record SelectionConfig : Type := mkSelectionConfig {
  strategy : SelectionStrategy;
  diversity_lambda : Q;
  temperature : Q;
  ensemble_weights : option (list Q);
  adaptive_percentile : Q;
  min_score : option Q
}.

(** [SelectionConfig(strategy=s)]: the dataclass defaults. *)
Definition default_config (s : SelectionStrategy) : SelectionConfig :=
  mkSelectionConfig s (1 # 2) 1 None (3 # 4) None.

Definition _validate_config (c : SelectionConfig) : result unit :=
  if Qltb (diversity_lambda c) 0 || Qltb 1 (diversity_lambda c)
  then Raise (ValueError "diversity_lambda must be in [0, 1]")
  else if Qle_bool (temperature c) 0
  then Raise (ValueError "temperature must be positive")
  else if Qltb (adaptive_percentile c) 0 || Qltb 1 (adaptive_percentile c)
  then Raise (ValueError "adaptive_percentile must be in [0, 1]")
  else Ok tt.

(** [AdvancedSensor(config)].  The sensor holds nothing but its
    configuration, so a constructed sensor is its configuration. *)
Definition new (config : option SelectionConfig) : result SelectionConfig :=
  let c := match config with
           | Some c => c
           | None => default_config SIMILARITY
           end in
  let? _ := _validate_config c in
  Ok c.

Definition _compute_similarities (query_vec : list Q)
    (chunk_vecs : list (list Q)) : result (list Q) :=
  Np.traverse (Np.dot query_vec) chunk_vecs.

(** [valid_indices[ranked].tolist()]. *)
Definition reindex (valid_indices ranked : list nat) : list nat :=
  map (fun r => nth r valid_indices O) ranked.

Definition _select_similarity (c : SelectionConfig) (query_vec : list Q)
    (chunk_vecs : list (list Q)) (budget : Z) : result (list nat) :=
  let? scores := _compute_similarities query_vec chunk_vecs in
  match min_score c with
  | Some ms =>
      let valid_indices := Np.where_ge scores ms in
      match valid_indices with
      | [] => Ok []
      | _ :: _ =>
          let scores := Np.take_at scores valid_indices in
          let ranked := Np.slice_to budget (rev (Np.argsort scores)) in
          Ok (reindex valid_indices ranked)
      end
  | None => Ok (Np.slice_to budget (rev (Np.argsort scores)))
  end.

(** [list.remove(x)]: drops the first occurrence. *)
Fixpoint remove_first (x : nat) (l : list nat) : list nat :=
  match l with
  | [] => []
  | y :: l' => if Nat.eqb x y then l' else y :: remove_first x l'
  end.

(** The score list of one MMR round over [remaining_indices]. *)
Definition mmr_scores (similarities : list Q) (pairwise : list (list Q))
    (lambda_param : Q) (selected_indices remaining_indices : list nat)
  : list Q :=
  match selected_indices with
  | [] => Np.take_at similarities remaining_indices
  | s0 :: sel =>
      map (fun idx =>
             let relevance := Np.at_ similarities idx in
             let redundancy :=
               fold_left Qmaxb (map (Np.at2 pairwise idx) sel)
                         (Np.at2 pairwise idx s0) in
             lambda_param * relevance - (1 - lambda_param) * redundancy)
          remaining_indices
  end.

(** The [for _ in range(budget)] loop of [_select_mmr]. *)
Fixpoint mmr_loop (rounds : nat) (similarities : list Q)
    (pairwise : list (list Q)) (lambda_param : Q)
    (selected_indices remaining_indices : list nat) : result (list nat) :=
  match rounds with
  | O => Ok selected_indices
  | S rounds' =>
      match remaining_indices with
      | [] => Ok selected_indices
      | _ :: _ =>
          let? k := Np.argmax (mmr_scores similarities pairwise lambda_param
                                          selected_indices remaining_indices) in
          let best_idx := nth k remaining_indices O in
          mmr_loop rounds' similarities pairwise lambda_param
                   (selected_indices ++ [best_idx])
                   (remove_first best_idx remaining_indices)
      end
  end.

Definition _select_mmr (c : SelectionConfig) (query_vec : list Q)
    (chunk_vecs : list (list Q)) (budget : Z) : result (list nat) :=
  let? similarities := _compute_similarities query_vec chunk_vecs in
  let? pairwise := Np.gram chunk_vecs in
  mmr_loop (Z.to_nat budget) similarities pairwise (diversity_lambda c)
           [] (seq 0 (length chunk_vecs)).

Definition _select_adaptive (c : SelectionConfig) (query_vec : list Q)
    (chunk_vecs : list (list Q)) (budget : Z) : result (list nat) :=
  let? similarities := _compute_similarities query_vec chunk_vecs in
  let? threshold :=
    Np.percentile similarities (adaptive_percentile c * 100) in
  let valid_indices := Np.where_ge similarities threshold in
  match valid_indices with
  | [] => let? top := Np.argmax similarities in Ok [top]
  | _ :: _ =>
      let valid_scores := Np.take_at similarities valid_indices in
      let ranked := Np.slice_to budget (rev (Np.argsort valid_scores)) in
      Ok (reindex valid_indices ranked)
  end.

(** [AdvancedSensor.get_scores]. *)
Definition get_scores (query_vec : list Q) (chunk_vecs : list (list Q))
  : result (list Q) :=
  _compute_similarities query_vec chunk_vecs.

(** Computations that may read and advance the global generator. *)
Definition M (A : Type) : Type :=
  Np.RandomState -> result A * Np.RandomState.

Definition pure {A : Type} (r : result A) : M A := fun st => (r, st).

Section WithExp.

(** [np.exp]. *)
Variable exp : Q -> Q.

(** The temperature-scaled softmax of [_select_uncertainty]. *)
Definition softmax (c : SelectionConfig) (similarities : list Q) : list Q :=
  let scaled_scores := map (fun s => s / temperature c) similarities in
  let top := Np.amax scaled_scores in
  let exp_scores := map (fun s => exp (s - top)) scaled_scores in
  map (fun e => e / Np.sum exp_scores) exp_scores.

Definition _select_uncertainty (c : SelectionConfig) (query_vec : list Q)
    (chunk_vecs : list (list Q)) (budget : Z) : M (list nat) :=
  fun st =>
    match _compute_similarities query_vec chunk_vecs with
    | Raise e => (Raise e, st)
    | Ok similarities =>
        Np.choice (length chunk_vecs) budget (softmax c similarities) st
    end.

(** [AdvancedSensor.select], with the ensemble strategy left open. *)
Definition select_with
    (ensemble : SelectionConfig -> list Q -> list (list Q) -> Z -> M (list nat))
    (c : SelectionConfig) (query_vec : list Q)
    (chunk_vecs : list (list Q)) (budget : Z) : M (list nat) :=
  match chunk_vecs with
  | [] => pure (Ok [])
  | _ :: _ =>
      let budget := Z.min budget (Z.of_nat (length chunk_vecs)) in
      match strategy c with
      | SIMILARITY => pure (_select_similarity c query_vec chunk_vecs budget)
      | MMR => pure (_select_mmr c query_vec chunk_vecs budget)
      | UNCERTAINTY => _select_uncertainty c query_vec chunk_vecs budget
      | ENSEMBLE => ensemble c query_vec chunk_vecs budget
      | ADAPTIVE => pure (_select_adaptive c query_vec chunk_vecs budget)
      end
  end.

(** [select] on the temporary sensors [_select_ensemble] builds: their
    strategy is never [ENSEMBLE], so that branch is not reached. *)
Definition select_member : SelectionConfig -> list Q -> list (list Q) -> Z
                           -> M (list nat) :=
  select_with (fun _ _ _ _ => pure (Ok [])).

(** [selections = temp_sensor.select(...)] for each strategy in turn. *)
Fixpoint all_selections (strategies : list SelectionStrategy)
    (query_vec : list Q) (chunk_vecs : list (list Q)) (budget : Z)
  : M (list (list nat)) :=
  fun st =>
    match strategies with
    | [] => (Ok [], st)
    | s :: strategies' =>
        match new (Some (default_config s)) with
        | Raise e => (Raise e, st)
        | Ok temp_sensor =>
            match select_member temp_sensor query_vec chunk_vecs
                                (budget * 2) st with
            | (Raise e, st1) => (Raise e, st1)
            | (Ok selections, st1) =>
                match all_selections strategies' query_vec chunk_vecs
                                     budget st1 with
                | (Raise e, st2) => (Raise e, st2)
                | (Ok rest, st2) => (Ok (selections :: rest), st2)
                end
            end
        end
    end.

(** [for rank, idx in enumerate(selections): vote_scores[idx] += ...]. *)
Fixpoint vote_one (weight : Q) (len rank : nat) (selections : list nat)
    (vote_scores : list Q) : list Q :=
  match selections with
  | [] => vote_scores
  | idx :: selections' =>
      vote_one weight len (S rank) selections'
        (alter (fun v => v + weight * inject_Z (Z.of_nat (len - rank)))
               idx vote_scores)
  end.

(** [for selections, weight in zip(all_selections, weights)]. *)
Fixpoint vote_all (sels : list (list nat)) (weights : list Q)
    (vote_scores : list Q) : list Q :=
  match sels, weights with
  | selections :: sels', weight :: weights' =>
      vote_all sels' weights'
               (vote_one weight (length selections) O selections vote_scores)
  | _, _ => vote_scores
  end.

Definition _select_ensemble (c : SelectionConfig) (query_vec : list Q)
    (chunk_vecs : list (list Q)) (budget : Z) : M (list nat) :=
  fun st =>
    let (strategies, weights) :=
      match ensemble_weights c with
      | None => ([SIMILARITY; MMR], [1 # 2; 1 # 2])
      | Some w => ([SIMILARITY; MMR; UNCERTAINTY], w)
      end in
    match all_selections strategies query_vec chunk_vecs budget st with
    | (Raise e, st1) => (Raise e, st1)
    | (Ok sels, st1) =>
        let vote_scores :=
          vote_all sels weights (repeat 0 (length chunk_vecs)) in
        (Ok (Np.slice_to budget (rev (Np.argsort vote_scores))), st1)
    end.

Definition select : SelectionConfig -> list Q -> list (list Q) -> Z
                    -> M (list nat) :=
  select_with _select_ensemble.

End WithExp.

End AdvancedSensor.

(** ** sensor.py *)

Module Sensor.

Record t : Type := mk {
  mode : string;
  threshold : option Q;
  learned_weights : option (list Q)
}.

(** [Sensor(mode, threshold, learned_weights)]. *)
Definition new (mode : string) (threshold : option Q)
    (learned_weights : option (list Q)) : result t :=
  if String.eqb mode "heuristic" || String.eqb mode "learned"
  then Ok (mk mode threshold learned_weights)
  else Raise AssertionError.

(** [Sensor()]: the constructor defaults. *)
Definition default : t := mk "heuristic" None None.

(** One step of [sorted(..., key=key, reverse=True)]: Python's sort is
    stable also when reversed, so a later element goes behind every
    earlier element whose key is not smaller. *)
Fixpoint insert_desc {A : Type} (key : A -> Q) (x : A) (l : list A)
  : list A :=
  match l with
  | [] => [x]
  | y :: l' =>
      if Qltb (key y) (key x) then x :: y :: l'
      else y :: insert_desc key x l'
  end.

Definition sorted_reverse {A : Type} (key : A -> Q) (l : list A) : list A :=
  fold_left (fun acc x => insert_desc key x acc) l [].

(** [Sensor.select].  [depth] is the number of stack frames Python still
    allows; the interpreter raises [RecursionError] when none is left. *)
Fixpoint select (depth : nat) (self : t) (query_vec : list Q)
    (chunk_vecs : list (list Q)) (budget : Z) : result (list nat) :=
  match depth with
  | O => Raise RecursionError
  | S depth' =>
      if String.eqb (mode self) "heuristic" then
        let? scores := Np.traverse (Np.dot query_vec) chunk_vecs in
        match threshold self with
        | Some th =>
            let filtered :=
              List.filter (fun x : nat * Q => Qle_bool th (snd x))
                          (combine (seq 0 (length scores)) scores) in
            let ranked := sorted_reverse snd filtered in
            Ok (map fst (Np.slice_to budget ranked))
        | None =>
            let ranked :=
              sorted_reverse (Np.at_ scores) (seq 0 (length scores)) in
            Ok (Np.slice_to budget ranked)
        end
      else if String.eqb (mode self) "learned" then
        match learned_weights self with
        | None => select depth' self query_vec chunk_vecs budget
        | Some w =>
            let? scores :=
              Np.traverse (fun cv => Np.dot w (query_vec ++ cv)) chunk_vecs in
            let ranked :=
              sorted_reverse (Np.at_ scores) (seq 0 (length scores)) in
            Ok (Np.slice_to budget ranked)
        end
      else Raise (ValueError ("Unknown mode: " ++ mode self))
  end.

End Sensor.

(** ** Python values held in metadata maps *)

Inductive pyval : Type :=
| PNone
| PBool (b : bool)
| PInt (z : Z)
| PFloat (x : Q)
| PStr (s : string)
| PList (l : list pyval)
| PTuple (l : list pyval)
| PDict (items : list (string * pyval)).

(** ** refrag.py *)

Module Refrag.

(** Dictionaries are objects: a passage holds a reference to its
    metadata dictionary, and the heap maps references to contents. *)
Definition loc : Type := nat.
Abbreviation heap := (gmap loc (gmap string pyval)).

(** [common.Passage]. *)
Record Passage : Type := mkPassage {
  text : string;
  vector : list Q;
  metadata : loc
}.

(** What [self.lm(prompt)] may hand back: a string, or an object with or
    without a [text] attribute. *)
Inductive response : Type :=
| RStr (s : string)
| RObj (text_attr : option string) (str_ : string).

Record REFRAGContext : Type := mkContext {
  query : string;
  chunk_vectors : list (list Q);
  chunk_metadata : list loc;
  answer : option string
}.

(** The collaborators and settings a [REFRAGModule] is built from. *)
Record REFRAGModule : Type := mkModule {
  retrieve : string -> Z -> result (list Passage);
  embed_query : string -> result (list Q);
  sensor_select : list Q -> list (list Q) -> Z -> result (list nat);
  lm : option (string -> result response);
  k : Z;
  budget : Z
}.

(** [meta = dict(m); meta.setdefault("selected", flag)], the copy being
    a new object. *)
Definition annotate (h : heap) (m : loc) (flag : bool) : result (loc * heap) :=
  match h !! m with
  | None => Raise (TypeError "metadata is not a mapping")
  | Some d =>
      let meta := match d !! "selected" with
                  | Some _ => d
                  | None => <["selected" := PBool flag]> d
                  end in
      let l := fresh (dom h) in
      Ok (l, <[l := meta]> h)
  end.

(** The loop [for i, m in enumerate(metadata)]. *)
Fixpoint attach (selected_idxs : list nat) (i : nat) (metadata : list loc)
    (h : heap) : result (list loc * heap) :=
  match metadata with
  | [] => Ok ([], h)
  | m :: metadata' =>
      let? r := annotate h m (existsb (Nat.eqb i) selected_idxs) in
      let? rs := attach selected_idxs (S i) metadata' (snd r) in
      Ok (fst r :: fst rs, snd rs)
  end.

Section Formatting.

(** [str(v)] for the values whose text is not fixed below (floats and
    containers). *)
Variable str_other : pyval -> string.

Definition py_str (v : pyval) : string :=
  match v with
  | PNone => "None"
  | PBool true => "True"
  | PBool false => "False"
  | PInt z => pretty z
  | PStr s => s
  | _ => str_other v
  end.

Definition newline : string := String (Ascii.ascii_of_nat 10) EmptyString.

(** One line of the context block. *)
Definition passage_line (i : nat) (p : gmap string pyval) : result string :=
  match p !! "text" with
  | None => Raise (KeyError "text")
  | Some t =>
      let sel := match p !! "selected" with
                 | Some v => v
                 | None => PBool false
                 end in
      Ok ("Passage " ++ pretty i ++ ": " ++ py_str t
            ++ " (selected: " ++ py_str sel ++ ")")%string
  end.

Fixpoint passage_lines (i : nat) (ps : list (gmap string pyval))
  : result (list string) :=
  match ps with
  | [] => Ok []
  | p :: ps' =>
      let? line := passage_line i p in
      let? lines := passage_lines (S i) ps' in
      Ok (line :: lines)
  end.

Definition context_str (ps : list (gmap string pyval)) : result string :=
  let? lines := passage_lines O ps in
  Ok (String.concat newline lines).

Definition prompt (context : string) (query : string) : string :=
  ("Use the following context to answer the query." ++ newline ++ newline
    ++ "Context:" ++ newline ++ context ++ newline ++ newline
    ++ "Query: " ++ query ++ newline ++ newline ++ "Answer:")%string.

(** [resp if isinstance(resp, str) else getattr(resp, "text", str(resp))]. *)
Definition answer_of (r : response) : string :=
  match r with
  | RStr s => s
  | RObj (Some t) _ => t
  | RObj None s => s
  end.

(** Reading the annotated dictionaries back from the heap. *)
Definition deref (h : heap) (ls : list loc) : list (gmap string pyval) :=
  map (fun l => default ∅ (h !! l)) ls.

(** [REFRAGModule.forward]. *)
Definition forward (self : REFRAGModule) (query : string) (h : heap)
  : result (REFRAGContext * heap) :=
  let? passages := retrieve self query (k self) in
  let vectors := map vector passages in
  let metadata := map metadata passages in
  let? qv := embed_query self query in
  let? selected_idxs := sensor_select self qv vectors (budget self) in
  let? r := attach selected_idxs O metadata h in
  let metadata_with_selection := fst r in
  let h' := snd r in
  match lm self with
  | None => Ok (mkContext query vectors metadata_with_selection None, h')
  | Some call =>
      let? context := context_str (deref h' metadata_with_selection) in
      let answer :=
        match call (prompt context query) with
        | Ok resp => answer_of resp
        | Raise e => ("Error calling LM: " ++ exn_message e)%string
        end in
      Ok (mkContext query vectors metadata_with_selection (Some answer), h')
  end.

End Formatting.

End Refrag.

(** ** fragment.py and the serializer_*.py codecs *)

Module Serializer.

Record Fragment : Type := mkFragment {
  text : string;
  embedding : list Q;
  metadata : list (string * pyval);
  fragment_id : string;
  parent_doc_id : option string
}.

(** [c.isspace()] on the ASCII range. *)
Definition isspace (c : Ascii.ascii) : bool :=
  let n := Ascii.nat_of_ascii c in
  (n =? 32)%nat || ((9 <=? n)%nat && (n <=? 13)%nat)
  || ((28 <=? n)%nat && (n <=? 31)%nat).

(** [not s.strip()]. *)
Fixpoint blank (s : string) : bool :=
  match s with
  | EmptyString => true
  | String c s' => isspace c && blank s'
  end.

Definition __post_init__ (f : Fragment) : result Fragment :=
  if blank (text f)
  then Raise (ValueError "Fragment text cannot be empty.")
  else match embedding f with
       | [] => Raise (ValueError "Fragment embedding cannot be empty.")
       | _ :: _ =>
           if String.eqb (fragment_id f) ""
           then Raise (ValueError "Fragment ID cannot be empty.")
           else Ok f
       end.

(** [Fragment(text, embedding, metadata, fragment_id, parent_doc_id)]. *)
Definition make (text : string) (embedding : list Q)
    (metadata : list (string * pyval)) (fragment_id : string)
    (parent_doc_id : option string) : result Fragment :=
  __post_init__ (mkFragment text embedding metadata fragment_id parent_doc_id).

Definition opt_str (o : option string) : pyval :=
  match o with
  | Some s => PStr s
  | None => PNone
  end.

(** [asdict(fragment)], the embedding given apart so that a codec can
    replace it. *)
Definition dict_of (f : Fragment) (embedding : list Q) : pyval :=
  PDict [("text", PStr (text f));
         ("embedding", PList (map PFloat embedding));
         ("metadata", PDict (metadata f));
         ("fragment_id", PStr (fragment_id f));
         ("parent_doc_id", opt_str (parent_doc_id f))].

Definition to_dict (f : Fragment) : pyval := dict_of f (embedding f).

Fixpoint get (key : string) (items : list (string * pyval)) : option pyval :=
  match items with
  | [] => None
  | (k, v) :: items' => if String.eqb key k then Some v else get key items'
  end.

Definition fields : list string :=
  ["text"; "embedding"; "metadata"; "fragment_id"; "parent_doc_id"].

Definition as_float (v : pyval) : result Q :=
  match v with
  | PFloat x => Ok x
  | PInt z => Ok (inject_Z z)
  | _ => Raise (TypeError "embedding entry is not a number")
  end.

Definition required (key : string) (items : list (string * pyval))
  : result pyval :=
  match get key items with
  | Some v => Ok v
  | None => Raise (TypeError ("missing required argument: " ++ key))
  end.

(** [Fragment.from_dict(data)]: the entries of [data] become the
    keyword arguments of the constructor.  The record is
    typed, so a field of another type than the declared one is refused
    here; Python would store it. *)
Definition from_dict (data : pyval) : result Fragment :=
  match data with
  | PDict items =>
      if negb (forallb (fun kv : string * pyval =>
                          existsb (String.eqb (fst kv)) fields) items)
      then Raise (TypeError "unexpected keyword argument")
      else
        let? t := required "text" items in
        let? e := required "embedding" items in
        let? m := required "metadata" items in
        let? i := required "fragment_id" items in
        match t, e, m, i with
        | PStr t, PList e, PDict m, PStr i =>
            let? e := Np.traverse as_float e in
            match get "parent_doc_id" items with
            | None | Some PNone => make t e m i None
            | Some (PStr d) => make t e m i (Some d)
            | Some _ => Raise (TypeError "parent_doc_id is not a string")
            end
        | _, _, _, _ => Raise (TypeError "field of unexpected type")
        end
  | _ => Raise (TypeError "argument after ** must be a mapping")
  end.

(** [Fragment.validate_embedding_dim(expected_dim)]: [None] and [0] are
    both falsy, so neither is compared with the length. *)
Definition validate_embedding_dim (f : Fragment) (expected_dim : option Z)
  : result bool :=
  match expected_dim with
  | Some d =>
      if negb (d =? 0)%Z && negb (Z.of_nat (length (embedding f)) =? d)%Z
      then Raise (ValueError ("Embedding dim " ++ pretty (length (embedding f))
                                ++ " != expected " ++ pretty d))
      else Ok true
  | None => Ok true
  end.

(** *** Encoded documents

    A payload is identified with the document tree it denotes; its
    layout in characters or bytes is not modelled.  JSON and MessagePack
    have the same tree: neither has tuples. *)
Inductive doc : Type :=
| DNull
| DBool (b : bool)
| DInt (z : Z)
| DFloat (x : Q)
| DStr (s : string)
| DArray (l : list doc)
| DMap (items : list (string * doc)).

(** What [json.dumps] and [msgpack.packb] write for a Python value:
    lists and tuples both become arrays. *)
Fixpoint to_doc (v : pyval) : doc :=
  match v with
  | PNone => DNull
  | PBool b => DBool b
  | PInt z => DInt z
  | PFloat x => DFloat x
  | PStr s => DStr s
  | PList l => DArray (map to_doc l)
  | PTuple l => DArray (map to_doc l)
  | PDict items =>
      DMap (map (fun kv => match kv with (k, v) => (k, to_doc v) end) items)
  end.

(** What [json.loads] and [msgpack.unpackb] read back: arrays become
    lists. *)
Fixpoint of_doc (d : doc) : pyval :=
  match d with
  | DNull => PNone
  | DBool b => PBool b
  | DInt z => PInt z
  | DFloat x => PFloat x
  | DStr s => PStr s
  | DArray l => PList (map of_doc l)
  | DMap items =>
      PDict (map (fun kv => match kv with (k, d) => (k, of_doc d) end) items)
  end.

(** MessagePack integers have 64 bits. *)
Fixpoint ints_fit (v : pyval) : bool :=
  match v with
  | PInt z => ((- 2 ^ 63 <=? z) && (z <? 2 ^ 64))%Z
  | PList l | PTuple l => forallb ints_fit l
  | PDict items =>
      forallb (fun kv => match kv with (_, v) => ints_fit v end) items
  | _ => true
  end.

Module Json.
Definition dumps (v : pyval) : doc := to_doc v.
Definition loads (d : doc) : pyval := of_doc d.
End Json.

Module Msgpack.
Definition packb (v : pyval) : result doc :=
  if ints_fit v then Ok (to_doc v)
  else Raise (OverflowError "Integer value out of range").
Definition unpackb (d : doc) : pyval := of_doc d.
End Msgpack.

(** *** serializer_json.py *)
Module JSONFragmentSerializer.
Section WithSqrt.

(** The square root inside [np.linalg.norm]. *)
Variable sqrt : Q -> Q.

Record t : Type := mk { normalize_vectors : bool }.

(** [JSONFragmentSerializer()]. *)
Definition default : t := mk true.

Definition _normalize (vector : list Q) : list Q :=
  let norm := sqrt (Np.sum (map (fun x => x * x) vector)) in
  if Qltb 0 norm then map (fun x => x / norm) vector else vector.

(** [data = fragment.to_dict()] with the embedding normalised when
    the codec asks for it and the embedding is not empty. *)
Definition data_of (self : t) (fragment : Fragment) : pyval :=
  match normalize_vectors self, embedding fragment with
  | true, _ :: _ => dict_of fragment (_normalize (embedding fragment))
  | _, _ => to_dict fragment
  end.

Definition serialize_fragment (self : t) (fragment : Fragment) : doc :=
  Json.dumps (data_of self fragment).

Definition serialize_fragments (self : t) (fragments : list Fragment) : doc :=
  Json.dumps (PList (map (data_of self) fragments)).

Definition deserialize_fragment (json_str : doc) : result Fragment :=
  from_dict (Json.loads json_str).

Definition deserialize_fragments (json_str : doc) : result (list Fragment) :=
  match Json.loads json_str with
  | PList data => Np.traverse from_dict data
  | _ => Raise (TypeError "payload is not a list of fragments")
  end.

End WithSqrt.
End JSONFragmentSerializer.

(** *** serializer_msgpack.py *)
Module MsgPackSerializer.

(** [MsgPackSerializer()], given whether the optional [msgpack]
    package could be imported. *)
Definition new (MSGPACK_AVAILABLE : bool) : result unit :=
  if MSGPACK_AVAILABLE then Ok tt
  else Raise (RuntimeError "msgpack not available. Install with: uv add msgpack").

Definition serialize_fragment (fragment : Fragment) : result doc :=
  Msgpack.packb (to_dict fragment).

Definition serialize_fragments (fragments : list Fragment) : result doc :=
  Msgpack.packb (PList (map to_dict fragments)).

Definition deserialize_fragment (data : doc) : result Fragment :=
  from_dict (Msgpack.unpackb data).

Definition deserialize_fragments (data : doc) : result (list Fragment) :=
  match Msgpack.unpackb data with
  | PList items => Np.traverse from_dict items
  | _ => Raise (TypeError "payload is not a list of fragments")
  end.

End MsgPackSerializer.

(** *** serializer_pickle.py

    Pickle stores the object itself: loading gives back an object of the
    same class without running its constructor. *)
Module PickleSerializer.

Inductive obj : Type :=
| OFragment (f : Fragment)
| OFragments (fs : list Fragment).

Inductive pickled : Type := Pickled (o : obj).

Definition dumps (o : obj) : pickled := Pickled o.
Definition loads (p : pickled) : obj := match p with Pickled o => o end.

Definition serialize_fragment (fragment : Fragment) : pickled :=
  dumps (OFragment fragment).

Definition serialize_fragments (fragments : list Fragment) : pickled :=
  dumps (OFragments fragments).

Definition deserialize_fragment (data : pickled) : obj := loads data.

Definition deserialize_fragments (data : pickled) : obj := loads data.

End PickleSerializer.

(** *** serializer_unified.py *)
Module UnifiedSerializer.
Section WithSqrt.

Variable sqrt : Q -> Q.

Definition SUPPORTED_FORMATS : list string := ["json"; "msgpack"; "pickle"].

Record t : Type := mk {
  default_format : string;
  json_ser : JSONFragmentSerializer.t;
  msgpack_ser : option unit
}.

Inductive payload : Type :=
| Text (d : doc)
| Packed (d : doc)
| Pickle (p : PickleSerializer.pickled).

(** [UnifiedSerializer(default_format)]; [_HAS_MSGPACK] tells whether
    the optional codec could be imported. *)
Definition new (_HAS_MSGPACK : bool) (default_format : string) : result t :=
  if negb (existsb (String.eqb default_format) SUPPORTED_FORMATS)
  then Raise (ValueError ("Unsupported format: " ++ default_format))
  else
    if _HAS_MSGPACK
    then let? m := MsgPackSerializer.new true in
         Ok (mk default_format JSONFragmentSerializer.default (Some m))
    else Ok (mk default_format JSONFragmentSerializer.default None).

(** [format or self.default_format]: [None] and the empty string are
    both falsy. *)
Definition pick (self : t) (format : option string) : string :=
  match format with
  | None => default_format self
  | Some f => if String.eqb f "" then default_format self else f
  end.

Definition serialize (self : t) (fragments : list Fragment)
    (format : option string) : result payload :=
  let fmt := pick self format in
  if String.eqb fmt "json" then
    Ok (Text (JSONFragmentSerializer.serialize_fragments sqrt
                (json_ser self) fragments))
  else if String.eqb fmt "msgpack" then
    match msgpack_ser self with
    | None => Raise (RuntimeError "msgpack not available")
    | Some _ =>
        let? d := MsgPackSerializer.serialize_fragments fragments in
        Ok (Packed d)
    end
  else if String.eqb fmt "pickle" then
    Ok (Pickle (PickleSerializer.serialize_fragments fragments))
  else Raise (ValueError ("Unsupported format: " ++ fmt)).

Definition deserialize (self : t) (data : payload)
    (format : option string) : result PickleSerializer.obj :=
  let fmt := pick self format in
  if String.eqb fmt "json" then
    match data with
    | Text d =>
        let? fs := JSONFragmentSerializer.deserialize_fragments d in
        Ok (PickleSerializer.OFragments fs)
    | _ => Raise (ValueError "payload is not JSON text")
    end
  else if String.eqb fmt "msgpack" then
    match msgpack_ser self with
    | None => Raise (RuntimeError "msgpack not available")
    | Some _ =>
        match data with
        | Packed d =>
            let? fs := MsgPackSerializer.deserialize_fragments d in
            Ok (PickleSerializer.OFragments fs)
        | _ => Raise (ValueError "payload is not MessagePack")
        end
    end
  else if String.eqb fmt "pickle" then
    match data with
    | Pickle p => Ok (PickleSerializer.deserialize_fragments p)
    | _ => Raise (ValueError "payload is not a pickle")
    end
  else Raise (ValueError ("Unsupported format: " ++ fmt)).

End WithSqrt.

(** Import time.  serializer_msgpack.py catches the failure of its own
    [import msgpack] and records it in [MSGPACK_AVAILABLE], so importing
    that module raises nothing and serializer_unified.py always sets its
    flag [_HAS_MSGPACK]. *)
Definition _HAS_MSGPACK : bool := true.

(** [UnifiedSerializer(default_format)] in an interpreter where the
    [msgpack] package is importable or not. *)
Definition __init__ (MSGPACK_AVAILABLE : bool) (default_format : string)
  : result t :=
  if negb (existsb (String.eqb default_format) SUPPORTED_FORMATS)
  then Raise (ValueError ("Unsupported format: " ++ default_format
                            ++ ". Supported: ['json', 'msgpack', 'pickle']"))
  else
    let json_ser := JSONFragmentSerializer.default in
    if _HAS_MSGPACK
    then let? m := MsgPackSerializer.new MSGPACK_AVAILABLE in
         Ok (mk default_format json_ser (Some m))
    else Ok (mk default_format json_ser None).

End UnifiedSerializer.

End Serializer.

(** ** fragment.py: the scaffolding subclass *)

Module CustomFragment.
Import Serializer.

(** A [CustomFragment]: the fields of [Fragment] and [custom_field]. *)
Record t : Type := mk {
  base : Fragment;
  custom_field : option string
}.

Definition __post_init__ (f : t) : result t :=
  let? _ := Serializer.__post_init__ (base f) in
  match custom_field f with
  | Some s =>
      if negb (String.eqb s "") && (100 <? String.length s)%nat
      then Raise (ValueError "Custom field too long.")
      else Ok f
  | None => Ok f
  end.

(** [asdict(fragment)] on the subclass, the embedding given apart. *)
Definition dict_of (f : t) (embedding : list Q) : pyval :=
  PDict [("text", PStr (text (base f)));
         ("embedding", PList (map PFloat embedding));
         ("metadata", PDict (metadata (base f)));
         ("fragment_id", PStr (fragment_id (base f)));
         ("parent_doc_id", opt_str (parent_doc_id (base f)));
         ("custom_field", opt_str (custom_field f))].

Definition to_dict (f : t) : pyval := dict_of f (embedding (base f)).

Definition fields : list string := Serializer.fields ++ ["custom_field"].

(** [CustomFragment.from_dict(data)]: the inherited class method, with
    the subclass as [cls]. *)
Definition from_dict (data : pyval) : result t :=
  match data with
  | PDict items =>
      if negb (forallb (fun kv : string * pyval =>
                          existsb (String.eqb (fst kv)) fields) items)
      then Raise (TypeError "unexpected keyword argument")
      else
        let? t := required "text" items in
        let? e := required "embedding" items in
        let? m := required "metadata" items in
        let? i := required "fragment_id" items in
        match t, e, m, i with
        | PStr t, PList e, PDict m, PStr i =>
            let? e := Np.traverse as_float e in
            let? d := match get "parent_doc_id" items with
                      | None | Some PNone => Ok None
                      | Some (PStr d) => Ok (Some d)
                      | Some _ => Raise (TypeError "parent_doc_id is not a string")
                      end in
            let? c := match get "custom_field" items with
                      | None | Some PNone => Ok None
                      | Some (PStr c) => Ok (Some c)
                      | Some _ => Raise (TypeError "custom_field is not a string")
                      end in
            __post_init__ (mk (mkFragment t e m i d) c)
        | _, _, _, _ => Raise (TypeError "field of unexpected type")
        end
  | _ => Raise (TypeError "argument after ** must be a mapping")
  end.

Section WithSqrt.

Variable sqrt : Q -> Q.

(** [JSONFragmentSerializer.serialize_fragment] handed a
    [CustomFragment]: [fragment.to_dict()] is the subclass's. *)
Definition json_serialize_fragment (self : JSONFragmentSerializer.t) (f : t)
  : doc :=
  Json.dumps
    match JSONFragmentSerializer.normalize_vectors self, embedding (base f) with
    | true, _ :: _ =>
        dict_of f (JSONFragmentSerializer._normalize sqrt (embedding (base f)))
    | _, _ => to_dict f
    end.

End WithSqrt.

(** [MsgPackSerializer.serialize_fragment] handed a [CustomFragment]. *)
Definition msgpack_serialize_fragment (f : t) : result doc :=
  Msgpack.packb (to_dict f).

End CustomFragment.

(** ** serializer_vector.py *)

Module VectorAwareSerializer.
Import Serializer.

Record t : Type := mk {
  _unified : UnifiedSerializer.t;
  _json : JSONFragmentSerializer.t
}.

(** [VectorAwareSerializer(default_format)]. *)
Definition __init__ (MSGPACK_AVAILABLE : bool) (default_format : string)
  : result t :=
  let? u := UnifiedSerializer.__init__ MSGPACK_AVAILABLE default_format in
  Ok (mk u (JSONFragmentSerializer.mk true)).

Section WithSqrt.

Variable sqrt : Q -> Q.

(** [format] is compared with ["json"] first; anything else, [None]
    included, is handed on to the unified serializer. *)
Definition serialize_fragments (self : t) (frags : list Fragment)
    (format : option string) : result UnifiedSerializer.payload :=
  if bool_decide (format = Some "json") then
    Ok (UnifiedSerializer.Text
          (JSONFragmentSerializer.serialize_fragments sqrt (_json self) frags))
  else UnifiedSerializer.serialize sqrt (_unified self) frags format.

Definition deserialize_fragments (self : t) (data : UnifiedSerializer.payload)
    (format : option string) : result PickleSerializer.obj :=
  if bool_decide (format = Some "json") then
    match data with
    | UnifiedSerializer.Text d =>
        let? fs := JSONFragmentSerializer.deserialize_fragments d in
        Ok (PickleSerializer.OFragments fs)
    | _ => Raise (ValueError "payload is not JSON text")
    end
  else UnifiedSerializer.deserialize (_unified self) data format.

End WithSqrt.

End VectorAwareSerializer.

(** ** serializer_payload.py *)

Module DSPyPayloadSerializer.
Import Serializer.

(** The dictionary [create_payload] writes for one fragment. *)
Definition entry (f : Fragment) : pyval :=
  PDict [("text", PStr (text f));
         ("metadata", PDict (metadata f));
         ("fragment_id", PStr (fragment_id f));
         ("parent_doc_id", opt_str (parent_doc_id f))].

(** [create_payload(query, fragments, max_fragments)]; [if max_fragments]
    is false for [None] and for [0]. *)
Definition create_payload (query : string) (fragments : list Fragment)
    (max_fragments : option Z) : pyval :=
  let fragments :=
    match max_fragments with
    | Some m => if (m =? 0)%Z then fragments else Np.slice_to m fragments
    | None => fragments
    end in
  PDict [("query", PStr query);
         ("fragments", PList (map entry fragments));
         ("embeddings",
          PList (map (fun f => PList (map PFloat (embedding f))) fragments));
         ("num_fragments", PInt (Z.of_nat (length fragments)))].

(** [[f"[Fragment {i + 1}]: {f.text}" for i, f in enumerate(...)]]. *)
Fixpoint blocks (i : nat) (fragments : list Fragment) : list string :=
  match fragments with
  | [] => []
  | f :: fragments' =>
      ("[Fragment " ++ pretty (i + 1)%nat ++ "]: " ++ text f)%string
        :: blocks (S i) fragments'
  end.

Definition create_training_example (question answer : string)
    (supporting_fragments : list Fragment) : pyval :=
  let context :=
    String.concat (Refrag.newline ++ Refrag.newline)
                  (blocks O supporting_fragments) in
  PDict [("question", PStr question);
         ("context", PStr context);
         ("answer", PStr answer);
         ("fragments", PList (map to_dict supporting_fragments))].

End DSPyPayloadSerializer.

(** ** serializer_protobuf.py *)

Module ProtobufStyleSerializer.
Import Serializer.

Definition serialize_message (msg_type : string) (data : pyval) : pyval :=
  PDict [("__type__", PStr msg_type);
         ("__version__", PStr "1.0");
         ("data", data)].

Definition serialize_fragment_batch (fragments : list Fragment)
    (batch_id : string) : pyval :=
  serialize_message "FragmentBatch"
    (PDict [("batch_id", PStr batch_id);
            ("count", PInt (Z.of_nat (length fragments)));
            ("fragments", PList (map to_dict fragments))]).

(** [if scores]: [None] and the empty list are both falsy. *)
Definition truthy (scores : option (list Q)) : bool :=
  match scores with
  | Some (_ :: _) => true
  | _ => false
  end.

(** The loop of [serialize_retrieval_result] from position [i] on.  The
    only exception it can raise is the [IndexError] of [scores[i]],
    which is the result [None]. *)
Fixpoint results (i : nat) (fragments : list Fragment)
    (scores : option (list Q)) : option (list pyval) :=
  match fragments with
  | [] => Some []
  | fragment :: fragments' =>
      let result := [("fragment", to_dict fragment);
                     ("rank", PInt (Z.of_nat i + 1))] in
      if truthy scores then
        match default [] scores !! i with
        | Some s =>
            match results (S i) fragments' scores with
            | Some rs => Some (PDict (result ++ [("score", PFloat s)]) :: rs)
            | None => None
            end
        | None => None
        end
      else
        match results (S i) fragments' scores with
        | Some rs => Some (PDict result :: rs)
        | None => None
        end
  end.

Definition serialize_retrieval_result (query : string)
    (fragments : list Fragment) (scores : option (list Q)) : option pyval :=
  match results O fragments scores with
  | Some rs =>
      Some (serialize_message "RetrievalResult"
              (PDict [("query", PStr query);
                      ("results", PList rs);
                      ("total_count", PInt (Z.of_nat (length fragments)))]))
  | None => None
  end.

End ProtobufStyleSerializer.

(** ** retriever.py *)

Module SimpleRetriever.
Import Refrag.

(** A [SimpleRetriever] built with a corpus and an embedder.  The
    embedding dimension it also stores is read by [_rand_vec] only. *)
Record t : Type := mk {
  _corpus : list Passage;
  embedder : string -> result (list Q)
}.

Definition embed_query (self : t) (query : string) : result (list Q) :=
  embedder self query.

(** [SimpleRetriever.retrieve].  The last line indexes the corpus with
    indices of [range(len(scores))], each of them in range, so the
    [IndexError] of an index out of range has no counterpart here. *)
Definition retrieve (self : t) (query : string) (k : Z)
  : result (list Passage) :=
  let? qv := embed_query self query in
  let? scores :=
    Np.traverse (fun p => Np.dot (vector p) qv) (_corpus self) in
  let idxs :=
    Np.slice_to k (Sensor.sorted_reverse (Np.at_ scores)
                     (seq 0 (length scores))) in
  Ok (omap (fun i => _corpus self !! i) idxs).

End SimpleRetriever.

(** ** refrag.py: setting a module up *)

Module RefragSetup.

(** [os.environ]. *)
Definition environ : Type := gmap string string.

(** [os.environ.setdefault(key, value)]. *)
Definition setdefault (key value : string) (env : environ) : environ :=
  match env !! key with
  | Some _ => env
  | None => <[key := value]> env
  end.

(** An optional string that is truthy: neither [None] nor empty. *)
Definition truthy (o : option string) : option string :=
  match o with
  | Some s => if String.eqb s "" then None else Some s
  | None => None
  end.

(** [maybe_configure_openrouter_env()], with the environment it leaves. *)
Definition maybe_configure_openrouter_env (env : environ)
  : option string * environ :=
  match truthy (env !! "OPENROUTER_API_KEY") with
  | None => (None, env)
  | Some openrouter_key =>
      let env := setdefault "OPENAI_API_KEY" openrouter_key env in
      let env := setdefault "OPENAI_API_BASE" "https://openrouter.ai/api/v1" env in
      (Some (default "openrouter/auto" (env !! "OPENROUTER_MODEL")), env)
  end.

(** What [self.lm] holds after construction: the [lm] argument, a
    [dspy.LM] built from a model name and a key, or [None]. *)
Inductive lm_setting : Type :=
| Custom
| LM (model api_key : string)
| NoLM.

(** [REFRAGModule.__init__] from the construction of the serializer on.
    The statements before it (the base class, the default retriever and
    sensor, [k] and [budget]) touch neither the environment nor
    [self.lm].  [lm] tells whether the [lm] argument was given. *)
Definition __init__ (MSGPACK_AVAILABLE : bool) (lm : bool) (lm_model : string)
    (api_key : option string) (env : environ) : result lm_setting * environ :=
  match VectorAwareSerializer.__init__ MSGPACK_AVAILABLE "json" with
  | Raise e => (Raise e, env)
  | Ok _ =>
      let (openrouter_model, env) := maybe_configure_openrouter_env env in
      let lm_model := default lm_model (truthy openrouter_model) in
      if lm then (Ok Custom, env)
      else
        let key := match truthy api_key with
                   | Some k => Some k
                   | None => env !! "OPENAI_API_KEY"
                   end in
        match truthy key with
        | Some key => (Ok (LM lm_model key), env)
        | None => (Ok NoLM, env)
        end
  end.

End RefragSetup.

(** ** data_ingest.py *)

Module DataIngest.

Section WithIsspace.

(** [str.isspace] on one character. *)
Variable isspace : Ascii.ascii -> bool.

(** [s.lstrip()] and [s.strip()] on a text given as its characters. *)
Fixpoint lstrip (s : list Ascii.ascii) : list Ascii.ascii :=
  match s with
  | [] => []
  | c :: s' => if isspace c then lstrip s' else s
  end.

Definition strip (s : list Ascii.ascii) : list Ascii.ascii :=
  rev (lstrip (rev (lstrip s))).

(** [text[i:j]] for [0 <= i <= j <= len(text)], which the loop keeps. *)
Definition slice (text : list Ascii.ascii) (i j : Z) : list Ascii.ascii :=
  firstn (Z.to_nat (j - i)) (skipn (Z.to_nat i) text).

(** The [while i < n] loop of [chunk_text], cut after [fuel] rounds:
    [None] says that the loop was still running then. *)
Fixpoint chunk_loop (fuel : nat) (text : list Ascii.ascii)
    (max_chars overlap : Z) (i : Z) (chunks : list (list Ascii.ascii))
  : option (list (list Ascii.ascii)) :=
  let n := Z.of_nat (length text) in
  if (i <? n)%Z then
    match fuel with
    | O => None
    | S fuel' =>
        let j := Z.min n (i + max_chars) in
        let chunk := slice text i j in
        let chunks :=
          match strip chunk with
          | [] => chunks
          | _ :: _ => chunks ++ [strip chunk]
          end in
        let i := if (j <? n)%Z then (j - overlap)%Z else j in
        let i := if (i <? 0)%Z then 0%Z else i in
        chunk_loop fuel' text max_chars overlap i chunks
    end
  else Some chunks.

(** [chunk_text(text, max_chars, overlap)]. *)
Definition chunk_text (fuel : nat) (text : list Ascii.ascii)
    (max_chars overlap : Z) : option (list (list Ascii.ascii)) :=
  if (max_chars <=? 0)%Z then Some [text]
  else chunk_loop fuel text max_chars overlap 0 [].

End WithIsspace.

End DataIngest.

(** * Vocabulary of the properties *)

(** ** Rankings *)

Module RankingSpec.
Import Np AdvancedSensor.

(** The order [argsort] realises on the indices of [s]: by score, then by
    index. *)
Definition lex (s : list Q) (i j : nat) : Prop :=
  at_ s i < at_ s j \/ (at_ s i == at_ s j /\ (i < j)%nat).

(** [np.argsort(s)[::-1][:b]]: the ranking every strategy ends with. *)
Definition ranking (s : list Q) (b : Z) : list nat :=
  slice_to b (rev (argsort s)).

(** [valid_indices[np.argsort(scores[valid_indices])[::-1][:b]]]. *)
Definition filtered_ranking (s : list Q) (valid : list nat) (b : Z) : list nat :=
  reindex valid (ranking (take_at s valid) b).



(** [SelectionConfig(strategy=MMR, diversity_lambda=1.0)]. *)
Definition mmr_one : SelectionConfig :=
  mkSelectionConfig MMR 1 1 None (3 # 4) None.

(** C4 as the specification words it: for all inputs MMR with lambda one
    returns the list Similarity returns. *)
Definition mmr_one_is_similarity : Prop :=
  forall (exp : Q -> Q) (q : list Q) (cvs : list (list Q)) (budget : Z)
         (st : RandomState),
    fst (select exp mmr_one q cvs budget st)
    = fst (select exp (default_config SIMILARITY) q cvs budget st).

End RankingSpec.

(** ** Sampling and the strategies as a whole *)

Module SamplingSpec.
Import Np AdvancedSensor.




(** A rational stand-in for [np.exp] that is positive everywhere. *)
Definition exp_approx (x : Q) : Q := 1 / (1 - x + x * x / 2).


(** Two states of the global generator. *)
Definition low_draws : RandomState := mkRandomState (fun _ => 0) O.


(** What every strategy guarantees of the list it returns. *)
Definition well_formed (n : nat) (budget : Z) (r : list nat) : Prop :=
  List.NoDup r
  /\ (forall i, In i r -> (i < n)%nat)
  /\ (length r <= Nat.min (Z.to_nat budget) n)%nat.




(** [SelectionConfig(strategy=ENSEMBLE, ensemble_weights=[0.6, 0.4])]. *)
Definition weighted_ensemble : SelectionConfig :=
  mkSelectionConfig ENSEMBLE (1 # 2) 1 (Some [6 # 10; 4 # 10]) (3 # 4) None.

End SamplingSpec.

(** ** The pipeline *)

Module PipelineSpec.
Import Refrag.

(** What [dict(m)] followed by [setdefault("selected", flag)] holds. *)
Definition annotated (d : gmap string pyval) (flag : bool) : gmap string pyval :=
  match d !! "selected" with
  | Some _ => d
  | None => <["selected" := PBool flag]> d
  end.

(** [i in selected_idxs]. *)
Definition chosen (selected_idxs : list nat) (i : nat) : bool :=
  existsb (Nat.eqb i) selected_idxs.

(** The [selected] entry of a returned metadata map. *)
Definition selected_entry (h : heap) (l : loc) : option pyval :=
  match h !! l with
  | Some d => d !! "selected"
  | None => None
  end.

Definition selected_true (h : heap) (l : loc) : bool :=
  match selected_entry h l with
  | Some (PBool true) => true
  | _ => false
  end.

(** C6 as the specification words it: one entry per candidate, each with
    a boolean [selected]. *)
Definition every_entry_boolean : Prop :=
  forall (str_other : pyval -> string) (self : REFRAGModule) (query : string)
         (h : heap) (passages : list Passage) (qv : list Q) (sel : list nat)
         (ctx : REFRAGContext) (h' : heap),
    retrieve self query (k self) = Ok passages ->
    embed_query self query = Ok qv ->
    sensor_select self qv (map vector passages) (budget self) = Ok sel ->
    Forall (fun p => is_Some (h !! metadata p)) passages ->
    forward str_other self query h = Ok (ctx, h') ->
    length (chunk_metadata ctx) = length passages
    /\ forall l, In l (chunk_metadata ctx) ->
                 exists b : bool, selected_entry h' l = Some (PBool b).



(** A language model that answers with the prompt it was given. *)
Definition echo : string -> result response := fun p => Ok (RStr p).

(** *** Concrete runs

    Two candidates; in [example_heap] the first one already carries a
    [selected] entry, in [two_heap] none does. *)
Definition example_heap : heap :=
  <[0%nat := {["text" := PStr "alpha"; "selected" := PStr "yes"]}]>
    (<[1%nat := {["text" := PStr "beta"]}]> ∅).

Definition two_heap : heap :=
  <[0%nat := {["text" := PStr "alpha"]}]>
    (<[1%nat := {["text" := PStr "beta"]}]> ∅).

Definition example_passages : list Passage :=
  [mkPassage "alpha" [1] 0%nat; mkPassage "beta" [2] 1%nat].

Definition example_module (lm : option (string -> result response))
  : REFRAGModule :=
  mkModule (fun _ _ => Ok example_passages) (fun _ => Ok [1])
           (Sensor.select 1 Sensor.default) lm 2 1.


(** The three passages of the default corpus of [SimpleRetriever], with
    vectors of dimension two. *)
Definition three_passages : list Passage :=
  [mkPassage "Doc A about cats." [1; 0] 0%nat;
   mkPassage "Doc B about dogs." [0; 1] 1%nat;
   mkPassage "Doc C about birds." [1; 1] 2%nat].

Definition three_heap : heap :=
  <[0%nat := {["id" := PStr "a"]}]>
    (<[1%nat := {["id" := PStr "b"]}]>
       (<[2%nat := {["id" := PStr "c"]}]> ∅)).

End PipelineSpec.

(** ** The codecs *)

Module CodecSpec.
Import Serializer.


(** A fragment the constructor accepts. *)
Definition valid (f : Fragment) : Prop := __post_init__ f = Ok f.



(** A valid fragment whose metadata holds a tuple. *)
Definition tuple_fragment : Fragment :=
  mkFragment "Sample text" [1] [("span", PTuple [PInt 0; PInt 11])]
             "frag_001" None.

Definition sample_fragment : Fragment :=
  mkFragment "Sample text" [3; 4] [("source", PStr "test"); ("id", PInt 7)]
             "frag_001" (Some "doc_1").

End CodecSpec.

(** ** Stable descending order *)

Module StableSpec.
Import Np.

(** The order [sorted(..., reverse=True)] realises on the indices of
    [s]: a higher score first, and of two equal scores the lower index
    first. *)
Definition before (s : list Q) (i j : nat) : Prop :=
  at_ s j < at_ s i \/ (at_ s i == at_ s j /\ (i < j)%nat).

(** The same order on elements sorted by [key] that stood at the
    positions [pos] before the sort. *)
Definition ahead {A : Type} (key : A -> Q) (pos : A -> nat) (x y : A) : Prop :=
  key y < key x \/ (key x == key y /\ (pos x < pos y)%nat).

(** The length of [l[:b]] for a list of [n] elements. *)
Definition slice_length (b : Z) (n : nat) : nat :=
  if (b <? 0)%Z then (n - Z.to_nat (- b))%nat else Nat.min (Z.to_nat b) n.

(** A ranking [r] of the candidates [cands] by [s], cut at [b]: no
    index twice, only candidates, in order, and ahead of every
    candidate left out. *)
Definition top_ranked (s : list Q) (cands : list nat) (b : Z) (r : list nat)
  : Prop :=
  List.NoDup r
  /\ (forall i, In i r -> In i cands)
  /\ length r = slice_length b (length cands)
  /\ StronglySorted (before s) r
  /\ (forall i j, In i r -> ~ In j r -> In j cands -> before s i j).

End StableSpec.

(** ** Batches of fragments *)

Module BatchSpec.
Import Serializer CodecSpec.



(** A fragment whose metadata holds an integer of more than 64 bits. *)
Definition wide_fragment : Fragment :=
  mkFragment "Sample text" [3; 4] [("offset", PInt (2 ^ 64))] "frag_002" None.

End BatchSpec.

(** ** Dictionaries of fragments *)

Module FragmentSpec.
Import Serializer.

(** The entries of [fragment.to_dict()]. *)
Definition entries (f : Fragment) : list (string * pyval) :=
  match to_dict f with
  | PDict items => items
  | _ => []
  end.

(** A dictionary without the entry for [key]. *)
Definition without (key : string) (items : list (string * pyval))
  : list (string * pyval) :=
  List.filter (fun kv => negb (String.eqb (fst kv) key)) items.

(** The fields [Fragment] has no default for. *)
Definition required_fields : list string :=
  ["text"; "embedding"; "metadata"; "fragment_id"].

End FragmentSpec.

(** ** Payloads and envelopes *)

Module EnvelopeSpec.
Import Serializer.

(** The entry of a retrieval result for the fragment at position [i],
    without and with a score. *)
Definition plain_entry (i : nat) (f : Fragment) : pyval :=
  PDict [("fragment", to_dict f); ("rank", PInt (Z.of_nat i + 1))].

Definition scored_entry (scores : list Q) (i : nat) (f : Fragment) : pyval :=
  PDict [("fragment", to_dict f); ("rank", PInt (Z.of_nat i + 1));
         ("score", PFloat (Np.at_ scores i))].

(** [[entry(i, f) for i, f in enumerate(fragments, start)]]. *)
Definition enumerate_from {A : Type} (entry : nat -> Fragment -> A)
    (start : nat) (fragments : list Fragment) : list A :=
  map (fun p => entry (fst p) (snd p))
      (combine (seq start (length fragments)) fragments).

(** [d[key]] on a dictionary. *)
Definition field (key : string) (d : pyval) : option pyval :=
  match d with
  | PDict items => get key items
  | _ => None
  end.

(** The envelope of a retrieval result. *)
Definition retrieval_envelope (query : string) (rs : list pyval) (n : nat)
  : pyval :=
  PDict [("__type__", PStr "RetrievalResult");
         ("__version__", PStr "1.0");
         ("data", PDict [("query", PStr query);
                         ("results", PList rs);
                         ("total_count", PInt (Z.of_nat n))])].

End EnvelopeSpec.

(** ** Chunks *)

Module ChunkSpec.
Import DataIngest.

(** A chunk as [chunk_text] hands it out: not empty, with no white
    space left to strip, of at most [max_chars] characters. *)
Definition well_cut (isspace : Ascii.ascii -> bool) (max_chars : Z)
    (chunk : list Ascii.ascii) : Prop :=
  chunk <> [] /\ strip isspace chunk = chunk
  /\ (Z.of_nat (length chunk) <= max_chars)%Z.

(** A text of twelve letters. *)
Definition twelve : list Ascii.ascii :=
  String.list_ascii_of_string "abcdefghijkl".

End ChunkSpec.

(** * Properties *)

(** ** Comparisons *)

Lemma Qltb_lt (x y : Q) : Qltb x y = true <-> x < y.
Proof.
  unfold Qltb. rewrite negb_true_iff.
  destruct (Qle_bool y x) eqn:E.
  - apply Qle_bool_iff in E. split; [discriminate | intros H; lra].
  - split; [intros _ | reflexivity].
    destruct (Qlt_le_dec x y) as [H | H]; [exact H |].
    apply Qle_bool_iff in H. congruence.
Qed.

Lemma Qltb_ge (x y : Q) : Qltb x y = false <-> y <= x.
Proof.
  unfold Qltb. rewrite negb_false_iff. apply Qle_bool_iff.
Qed.

Lemma Qle_bool_false (x y : Q) : Qle_bool x y = false <-> y < x.
Proof.
  rewrite <- Qltb_lt. unfold Qltb. rewrite negb_true_iff. reflexivity.
Qed.

(** ** numpy: sorting and ranking *)

Module NpTheory.
Import Np RankingSpec.

Lemma StronglySorted_app_intro {A : Type} (R : A -> A -> Prop) (l1 l2 : list A) :
  StronglySorted R l1 -> StronglySorted R l2 ->
  (forall x y, In x l1 -> In y l2 -> R x y) ->
  StronglySorted R (l1 ++ l2).
Proof.
  induction l1 as [| a l1 IH]; intros H1 H2 H; simpl; [exact H2 |].
  inversion H1 as [| ? ? Hs Hf]; subst. constructor.
  - apply IH; [exact Hs | exact H2 |].
    intros x y Hx Hy. apply H; [right; exact Hx | exact Hy].
  - apply Forall_app. split; [exact Hf |].
    apply List.Forall_forall. intros y Hy. apply H; [left; reflexivity | exact Hy].
Qed.

Lemma StronglySorted_app_elim {A : Type} (R : A -> A -> Prop) (l1 l2 : list A) :
  StronglySorted R (l1 ++ l2) ->
  StronglySorted R l1 /\ StronglySorted R l2
  /\ (forall x y, In x l1 -> In y l2 -> R x y).
Proof.
  induction l1 as [| a l1 IH]; simpl; intros H.
  - split; [constructor | split; [exact H | intros x y []]].
  - inversion H as [| ? ? Hs Hf]; subst.
    destruct (IH Hs) as (H1 & H2 & H3).
    apply Forall_app in Hf. destruct Hf as [Hf1 Hf2].
    split; [constructor; assumption | split; [exact H2 |]].
    intros x y [<- | Hx] Hy.
    + rewrite List.Forall_forall in Hf2. apply Hf2, Hy.
    + apply H3; assumption.
Qed.

Lemma StronglySorted_rev {A : Type} (R : A -> A -> Prop) (l : list A) :
  StronglySorted R l -> StronglySorted (fun x y => R y x) (rev l).
Proof.
  induction 1 as [| a l Hs IH Hf]; simpl; [constructor |].
  apply StronglySorted_app_intro.
  - exact IH.
  - repeat constructor.
  - intros x y Hx [<- | []]. apply in_rev in Hx.
    rewrite List.Forall_forall in Hf. apply Hf, Hx.
Qed.

Lemma StronglySorted_nth {A : Type} (R : A -> A -> Prop) (l : list A) (d : A) :
  StronglySorted R l ->
  forall a b, (a < b < length l)%nat -> R (nth a l d) (nth b l d).
Proof.
  induction 1 as [| x l Hs IH Hf]; intros a b [Hab Hb]; simpl in *; [lia |].
  destruct b as [| b]; [lia |]. destruct a as [| a].
  - rewrite List.Forall_forall in Hf. apply Hf, nth_In. lia.
  - apply IH. lia.
Qed.

(** *** Slices *)

Lemma slice_to_prefix {A : Type} (b : Z) (l : list A) :
  exists rest, l = slice_to b l ++ rest.
Proof.
  unfold slice_to. destruct (b <? 0)%Z.
  - eexists. symmetry. apply firstn_skipn.
  - eexists. symmetry. apply firstn_skipn.
Qed.

Lemma slice_to_length {A : Type} (b : Z) (l : list A) :
  (0 <= b)%Z -> length (slice_to b l) = Nat.min (Z.to_nat b) (length l).
Proof.
  intros Hb. unfold slice_to.
  destruct (b <? 0)%Z eqn:E; [apply Z.ltb_lt in E; lia |].
  apply length_firstn.
Qed.

Lemma slice_to_incl {A : Type} (b : Z) (l : list A) (x : A) :
  In x (slice_to b l) -> In x l.
Proof.
  destruct (slice_to_prefix b l) as [rest E]. intros H.
  rewrite E. apply in_or_app. left. exact H.
Qed.

Lemma slice_to_NoDup {A : Type} (b : Z) (l : list A) :
  List.NoDup l -> List.NoDup (slice_to b l).
Proof.
  destruct (slice_to_prefix b l) as [rest E]. intros H.
  rewrite E in H. apply NoDup_app_remove_r in H. exact H.
Qed.

Section Argsort.

Variable s : list Q.

Lemma lex_trans (i j k : nat) : lex s i j -> lex s j k -> lex s i k.
Proof.
  unfold lex. intros [H1 | [H1 H1']] [H2 | [H2 H2']].
  - left. lra.
  - left. lra.
  - left. lra.
  - right. split; [lra | lia].
Qed.

Lemma lex_score (i j : nat) : lex s i j -> at_ s i <= at_ s j.
Proof. unfold lex. intros [H | [H _]]; lra. Qed.

Lemma lex_irrefl (i : nat) : ~ lex s i i.
Proof. unfold lex. intros [H | [_ H]]; [lra | lia]. Qed.

Lemma insert_idx_perm (i : nat) (l : list nat) :
  Permutation (insert_idx s i l) (i :: l).
Proof.
  induction l as [| j l IH]; simpl; [reflexivity |].
  destruct (Qltb (at_ s i) (at_ s j)); [reflexivity |].
  rewrite IH. apply perm_swap.
Qed.

Lemma insert_idx_sorted (i : nat) (l : list nat) :
  StronglySorted (lex s) l -> Forall (fun j => (j < i)%nat) l ->
  StronglySorted (lex s) (insert_idx s i l).
Proof.
  induction 1 as [| j l Hs IH Hf]; intros Hlt; simpl.
  - repeat constructor.
  - inversion Hlt as [| ? ? Hj Hl]; subst.
    destruct (Qltb (at_ s i) (at_ s j)) eqn:E.
    + apply Qltb_lt in E.
      assert (Hij : lex s i j) by (left; exact E).
      constructor; [constructor; assumption |].
      constructor; [exact Hij |].
      rewrite List.Forall_forall in Hf |- *.
      intros x Hx. eapply lex_trans; [exact Hij | apply Hf, Hx].
    + apply Qltb_ge in E.
      constructor; [apply IH; exact Hl |].
      rewrite List.Forall_forall in Hf |- *.
      intros x Hx.
      apply (Permutation_in _ (insert_idx_perm i l)) in Hx.
      destruct Hx as [<- | Hx]; [| apply Hf, Hx].
      unfold lex. destruct (Qlt_le_dec (at_ s j) (at_ s i)) as [H | H].
      * left. exact H.
      * right. split; [lra | exact Hj].
Qed.

Lemma argsort_fold (n a : nat) (acc : list nat) :
  Permutation acc (seq 0 a) -> StronglySorted (lex s) acc ->
  let r := fold_left (fun acc i => insert_idx s i acc) (seq a n) acc in
  Permutation r (seq 0 (a + n)) /\ StronglySorted (lex s) r.
Proof.
  revert a acc. induction n as [| n IH]; intros a acc Hp Hs; simpl.
  - rewrite Nat.add_0_r. split; assumption.
  - replace (a + S n)%nat with (S a + n)%nat by lia.
    apply IH.
    + rewrite insert_idx_perm, Hp.
      replace (S a) with (a + 1)%nat by lia.
      rewrite seq_app. simpl.
      apply Permutation_cons_append.
    + apply insert_idx_sorted; [exact Hs |].
      apply List.Forall_forall. intros x Hx.
      apply (Permutation_in _ Hp) in Hx. apply in_seq in Hx. lia.
Qed.

Lemma argsort_perm : Permutation (argsort s) (seq 0 (length s)).
Proof.
  unfold argsort.
  apply (argsort_fold (length s) 0 []); [reflexivity | constructor].
Qed.

Lemma argsort_sorted : StronglySorted (lex s) (argsort s).
Proof.
  unfold argsort.
  apply (argsort_fold (length s) 0 []); [reflexivity | constructor].
Qed.

Lemma argsort_length : length (argsort s) = length s.
Proof.
  rewrite (Permutation_length argsort_perm). apply length_seq.
Qed.

Lemma argsort_In (i : nat) : In i (argsort s) <-> (i < length s)%nat.
Proof.
  split; intros H.
  - apply (Permutation_in _ argsort_perm) in H. apply in_seq in H. lia.
  - apply (Permutation_in _ (Permutation_sym argsort_perm)).
    apply in_seq. lia.
Qed.

Lemma argsort_NoDup : List.NoDup (argsort s).
Proof.
  apply (Permutation_NoDup (Permutation_sym argsort_perm)), seq_NoDup.
Qed.

Lemma ranking_NoDup (b : Z) : List.NoDup (ranking s b).
Proof.
  apply slice_to_NoDup, NoDup_rev, argsort_NoDup.
Qed.

Lemma ranking_In (b : Z) (i : nat) : In i (ranking s b) -> (i < length s)%nat.
Proof.
  intros H. apply slice_to_incl in H. apply in_rev in H.
  apply argsort_In, H.
Qed.

Lemma ranking_length (b : Z) :
  (0 <= b)%Z -> length (ranking s b) = Nat.min (Z.to_nat b) (length s).
Proof.
  intros Hb. unfold ranking.
  rewrite slice_to_length, length_rev, argsort_length by exact Hb.
  reflexivity.
Qed.



End Argsort.

End NpTheory.

(** ** Scores *)

Module ScoreTheory.
Import Np.

Lemma traverse_length {A B : Type} (f : A -> result B) (xs : list A) (ys : list B) :
  traverse f xs = Ok ys -> length ys = length xs.
Proof.
  revert ys. induction xs as [| x xs IH]; intros ys; simpl.
  - intros [= <-]. reflexivity.
  - destruct (f x) as [y |]; simpl; [| discriminate].
    destruct (traverse f xs) as [ys' |]; simpl; [| discriminate].
    intros [= <-]. simpl. f_equal. apply IH. reflexivity.
Qed.

Lemma traverse_ok {A B : Type} (f : A -> result B) (xs : list A) :
  Forall (fun x => exists y, f x = Ok y) xs ->
  exists ys, traverse f xs = Ok ys.
Proof.
  induction 1 as [| x xs [y Hy] _ [ys Hys]]; simpl.
  - eexists. reflexivity.
  - rewrite Hy, Hys. simpl. eexists. reflexivity.
Qed.

Lemma dot_ok (a b : list Q) : length a = length b -> exists r, dot a b = Ok r.
Proof.
  revert b. induction a as [| x a IH]; intros [| y b] H; simpl in *;
    try discriminate.
  - eexists. reflexivity.
  - destruct (IH b) as [r Hr]; [lia |]. rewrite Hr. simpl. eexists. reflexivity.
Qed.

(** Candidates of the query's dimension can all be scored. *)
Lemma similarities_ok (q : list Q) (cvs : list (list Q)) :
  Forall (fun cv => length cv = length q) cvs ->
  exists scores, AdvancedSensor._compute_similarities q cvs = Ok scores
                 /\ length scores = length cvs.
Proof.
  intros H.
  destruct (traverse_ok (dot q) cvs) as [scores Hs].
  - eapply List.Forall_impl; [| exact H]. intros cv Hcv. apply dot_ok. congruence.
  - exists scores. split; [exact Hs |]. eapply traverse_length, Hs.
Qed.

Lemma gram_ok (q : list Q) (cvs : list (list Q)) :
  Forall (fun cv => length cv = length q) cvs ->
  exists pw, gram cvs = Ok pw.
Proof.
  intros H. unfold gram. apply traverse_ok.
  rewrite List.Forall_forall in H |- *. intros r Hr.
  apply traverse_ok. apply List.Forall_forall. intros r' Hr'.
  apply dot_ok. rewrite (H r Hr), (H r' Hr'). reflexivity.
Qed.

End ScoreTheory.

(** ** The basic sensor *)

Module SensorTheory.
Import Sensor.

(** C10.  In 'learned' mode without weights [select] calls itself with
    unchanged arguments: whatever the stack depth, the call ends in a
    [RecursionError] and no list of indices is returned, although the
    source comments the branch as a fallback to heuristic scoring. *)
Theorem select_learned_without_weights_overflows :
  forall (depth : nat) (th : option Q) (query_vec : list Q)
         (chunk_vecs : list (list Q)) (budget : Z),
    select depth (mk "learned" th None) query_vec chunk_vecs budget
    = Raise RecursionError.
Proof.
  induction depth as [| d IH]; intros th q cvs b.
  - reflexivity.
  - cbn. apply IH.
Qed.

(** In heuristic mode, and in learned mode with weights of the right
    length, [select] returns a list on candidates of the query's
    dimension: the fallback branch is the only one that does not. *)
Lemma select_heuristic_returns (depth : nat) (self : t) (query_vec : list Q)
    (chunk_vecs : list (list Q)) (budget : Z) :
  mode self = "heuristic" ->
  List.Forall (fun cv => length cv = length query_vec) chunk_vecs ->
  exists r : list nat, select (S depth) self query_vec chunk_vecs budget = Ok r.
Proof.
  intros Hm Hdim. cbn [select]. rewrite Hm. simpl.
  destruct (ScoreTheory.similarities_ok query_vec chunk_vecs Hdim)
    as (scores & Hs & _).
  unfold AdvancedSensor._compute_similarities in Hs. rewrite Hs. simpl.
  destruct (threshold self); eexists; reflexivity.
Qed.

Lemma select_learned_returns (depth : nat) (self : t) (w query_vec : list Q)
    (chunk_vecs : list (list Q)) (budget : Z) :
  mode self = "learned" -> learned_weights self = Some w ->
  List.Forall (fun cv => length w = length (query_vec ++ cv)) chunk_vecs ->
  exists r : list nat, select (S depth) self query_vec chunk_vecs budget = Ok r.
Proof.
  intros Hm Hw Hdim. cbn [select]. rewrite Hm, Hw. simpl.
  destruct (ScoreTheory.traverse_ok
              (fun cv => Np.dot w (query_vec ++ cv)) chunk_vecs) as [scores Hs].
  { eapply List.Forall_impl; [| exact Hdim].
    intros cv Hcv. apply ScoreTheory.dot_ok, Hcv. }
  rewrite Hs. simpl. eexists. reflexivity.
Qed.

End SensorTheory.

(** ** Rankings of a filtered score array *)

Module FilterTheory.
Import Np NpTheory RankingSpec.

Lemma StronglySorted_filter {A : Type} (R : A -> A -> Prop) (f : A -> bool)
    (l : list A) :
  StronglySorted R l -> StronglySorted R (List.filter f l).
Proof.
  induction 1 as [| x l Hs IH Hf]; simpl; [constructor |].
  destruct (f x); [| exact IH].
  constructor; [exact IH |].
  rewrite List.Forall_forall in Hf |- *.
  intros y Hy. apply List.filter_In in Hy. apply Hf, Hy.
Qed.

Lemma seq_sorted (a n : nat) : StronglySorted lt (seq a n).
Proof.
  revert a. induction n as [| n IH]; intros a; simpl; constructor.
  - apply IH.
  - apply List.Forall_forall. intros x Hx. apply in_seq in Hx. lia.
Qed.

Lemma where_ge_sorted (s : list Q) (t : Q) : StronglySorted lt (where_ge s t).
Proof. apply StronglySorted_filter, seq_sorted. Qed.

Lemma where_ge_In (s : list Q) (t : Q) (i : nat) :
  In i (where_ge s t) <-> (i < length s)%nat /\ t <= at_ s i.
Proof.
  unfold where_ge. rewrite List.filter_In, in_seq, Qle_bool_iff.
  split; intros [H1 H2]; split; try assumption; lia.
Qed.

Section Filtered.

Variable s : list Q.
Variable valid : list nat.
Hypothesis valid_sorted : StronglySorted lt valid.

Local Abbreviation sub := (take_at s valid).

Lemma sub_length : length sub = length valid.
Proof. apply length_map. Qed.


Lemma valid_mono (a b : nat) :
  (a < b < length valid)%nat -> (nth a valid O < nth b valid O)%nat.
Proof. apply StronglySorted_nth, valid_sorted. Qed.

Lemma valid_inj (a b : nat) :
  (a < length valid)%nat -> (b < length valid)%nat ->
  nth a valid O = nth b valid O -> a = b.
Proof.
  intros Ha Hb E.
  destruct (Nat.lt_trichotomy a b) as [H | [H | H]]; [| exact H |].
  - pose proof (valid_mono a b). lia.
  - pose proof (valid_mono b a). lia.
Qed.

Lemma filtered_ranking_length (b : Z) :
  (0 <= b)%Z ->
  length (filtered_ranking s valid b) = Nat.min (Z.to_nat b) (length valid).
Proof.
  intros Hb. unfold filtered_ranking, AdvancedSensor.reindex.
  rewrite length_map, ranking_length, sub_length by exact Hb. reflexivity.
Qed.

Lemma filtered_ranking_In (b : Z) (i : nat) :
  In i (filtered_ranking s valid b) -> In i valid.
Proof.
  unfold filtered_ranking, AdvancedSensor.reindex.
  intros H. apply in_map_iff in H. destruct H as (k & <- & Hk).
  apply nth_In. apply ranking_In in Hk. rewrite sub_length in Hk. exact Hk.
Qed.

Lemma filtered_ranking_NoDup (b : Z) : List.NoDup (filtered_ranking s valid b).
Proof.
  unfold filtered_ranking, AdvancedSensor.reindex.
  pose proof (ranking_NoDup sub b) as Hn.
  assert (Hr : forall k, In k (ranking sub b) -> (k < length valid)%nat).
  { intros k Hk. apply ranking_In in Hk. rewrite sub_length in Hk. exact Hk. }
  induction Hn as [| k l Hk Hn IH]; simpl; constructor.
  - intros H. apply in_map_iff in H. destruct H as (k' & E & Hk').
    apply valid_inj in E.
    + subst k'. contradiction.
    + apply Hr. right. exact Hk'.
    + apply Hr. left. reflexivity.
  - apply IH. intros k' Hk'. apply Hr. right. exact Hk'.
Qed.




End Filtered.

End FilterTheory.

(** ** The Similarity strategy *)

Module SimilarityTheory.
Import Np NpTheory FilterTheory AdvancedSensor RankingSpec.



Lemma take_at_seq (s : list Q) : take_at s (seq 0 (length s)) = s.
Proof.
  unfold take_at. apply nth_ext with (d := 0) (d' := 0).
  - rewrite length_map, length_seq. reflexivity.
  - intros n Hn. rewrite length_map, length_seq in Hn.
    rewrite (nth_indep _ 0 (at_ s O)) by (rewrite length_map, length_seq; exact Hn).
    rewrite map_nth, seq_nth by exact Hn. reflexivity.
Qed.






End SimilarityTheory.

(** ** Configuration errors *)

Module ConfigTheory.
Import AdvancedSensor Serializer.

(** A sensor is built exactly when the three parameters are in range, and
    then it holds the configuration it was given. *)
Lemma new_ok_iff (c : SelectionConfig) :
  new (Some c) = Ok c
  <-> (0 <= diversity_lambda c <= 1 /\ 0 < temperature c
       /\ 0 <= adaptive_percentile c <= 1).
Proof.
  unfold new, _validate_config.
  destruct (Qltb (diversity_lambda c) 0) eqn:E1;
    destruct (Qltb 1 (diversity_lambda c)) eqn:E2;
    destruct (Qle_bool (temperature c) 0) eqn:E3;
    destruct (Qltb (adaptive_percentile c) 0) eqn:E4;
    destruct (Qltb 1 (adaptive_percentile c)) eqn:E5; simpl;
    rewrite ?Qltb_lt, ?Qltb_ge, ?Qle_bool_false in *;
    try apply Qle_bool_iff in E3;
    (split; [try discriminate; intros _; repeat split; lra
            | intros (H1 & H2 & H3); try reflexivity; lra]).
Qed.

Lemma new_rejects (c : SelectionConfig) :
  ~ (0 <= diversity_lambda c <= 1 /\ 0 < temperature c
     /\ 0 <= adaptive_percentile c <= 1) ->
  exists msg, new (Some c) = Raise (ValueError msg).
Proof.
  intros H. unfold new, _validate_config.
  destruct (Qltb (diversity_lambda c) 0 || Qltb 1 (diversity_lambda c)) eqn:E1;
    [eexists; reflexivity |].
  destruct (Qle_bool (temperature c) 0) eqn:E3; [eexists; reflexivity |].
  destruct (Qltb (adaptive_percentile c) 0 || Qltb 1 (adaptive_percentile c)) eqn:E4;
    [eexists; reflexivity |].
  exfalso. apply H.
  apply orb_false_iff in E1, E4. destruct E1 as [E1 E2], E4 as [E4 E5].
  rewrite Qltb_ge in E1, E2, E4, E5. rewrite Qle_bool_false in E3.
  repeat split; lra.
Qed.

(** The facade refuses an unknown default format. *)
Lemma unified_new_rejects (has_msgpack : bool) (fmt : string) :
  ~ In fmt UnifiedSerializer.SUPPORTED_FORMATS ->
  UnifiedSerializer.new has_msgpack fmt
  = Raise (ValueError ("Unsupported format: " ++ fmt)).
Proof.
  intros H. unfold UnifiedSerializer.new.
  destruct (existsb (String.eqb fmt) UnifiedSerializer.SUPPORTED_FORMATS) eqn:E;
    [| reflexivity].
  exfalso. apply H. apply existsb_exists in E. destruct E as (x & Hx & E).
  apply String.eqb_eq in E. subst x. exact Hx.
Qed.

(** A non-empty unknown tag is refused when a call names it. *)
Lemma unified_serialize_rejects (sqrt : Q -> Q) (self : UnifiedSerializer.t)
    (fragments : list Fragment) (fmt : string) :
  fmt <> "" -> ~ In fmt UnifiedSerializer.SUPPORTED_FORMATS ->
  UnifiedSerializer.serialize sqrt self fragments (Some fmt)
  = Raise (ValueError ("Unsupported format: " ++ fmt)).
Proof.
  intros Hne H. unfold UnifiedSerializer.serialize, UnifiedSerializer.pick.
  destruct (String.eqb fmt "") eqn:E0; [apply String.eqb_eq in E0; contradiction |].
  destruct (String.eqb fmt "json") eqn:E1;
    [apply String.eqb_eq in E1; exfalso; apply H; subst; simpl; tauto |].
  destruct (String.eqb fmt "msgpack") eqn:E2;
    [apply String.eqb_eq in E2; exfalso; apply H; subst; simpl; tauto |].
  destruct (String.eqb fmt "pickle") eqn:E3;
    [apply String.eqb_eq in E3; exfalso; apply H; subst; simpl; tauto |].
  reflexivity.
Qed.


End ConfigTheory.

(** ** The pipeline *)

Module RefragTheory.
Import Refrag PipelineSpec.

Lemma annotated_selected (d : gmap string pyval) (flag : bool) :
  annotated d flag !! "selected"
  = Some (match d !! "selected" with Some v => v | None => PBool flag end).
Proof.
  unfold annotated. destruct (d !! "selected") eqn:E; [exact E |].
  apply lookup_insert_eq.
Qed.

Lemma annotated_other (d : gmap string pyval) (flag : bool) (key : string) :
  key <> "selected" -> annotated d flag !! key = d !! key.
Proof.
  intros H. unfold annotated. destruct (d !! "selected"); [reflexivity |].
  apply lookup_insert_ne. congruence.
Qed.

Lemma attach_spec (sel : list nat) (metas : list loc) :
  forall (i : nat) (h : heap),
    Forall (fun m => is_Some (h !! m)) metas ->
    exists (ls : list loc) (h' : heap),
      attach sel i metas h = Ok (ls, h')
      /\ length ls = length metas
      /\ (forall l d, h !! l = Some d -> h' !! l = Some d)
      /\ Forall (fun l => h !! l = None) ls
      /\ List.NoDup ls
      /\ (forall j m, metas !! j = Some m ->
            exists d l, h !! m = Some d /\ ls !! j = Some l
                        /\ h' !! l = Some (annotated d (chosen sel (i + j)))).
Proof.
  induction metas as [| m metas IH]; intros i h Hall.
  - exists [], h. simpl. repeat split; try constructor; try tauto.
    intros j m Hj. rewrite lookup_nil in Hj. discriminate.
  - apply Forall_cons in Hall. destruct Hall as [[d Hd] Hall].
    set (l := fresh (dom h)).
    assert (Hl : h !! l = None) by (apply not_elem_of_dom, is_fresh).
    set (h1 := <[l := annotated d (chosen sel i)]> h).
    assert (Hext : forall l0 d0, h !! l0 = Some d0 -> h1 !! l0 = Some d0).
    { intros l0 d0 H0. unfold h1. rewrite lookup_insert_ne; [exact H0 |].
      intros ->. congruence. }
    destruct (IH (S i) h1) as (ls & h' & Ha & Hlen & Hkeep & Hfresh & Hnd & Hpos).
    { eapply List.Forall_impl; [| exact Hall].
      intros m' [d' Hd']. exists d'. apply Hext, Hd'. }
    exists (l :: ls), h'.
    assert (Hl1 : h1 !! l = Some (annotated d (chosen sel i)))
      by apply lookup_insert_eq.
    split.
    { simpl. unfold annotate at 1. rewrite Hd. simpl.
      fold (annotated d (existsb (Nat.eqb i) sel)).
      fold l. fold (chosen sel i). fold h1. rewrite Ha. reflexivity. }
    split; [simpl; rewrite Hlen; reflexivity |].
    split; [intros l0 d0 H0; apply Hkeep, Hext, H0 |].
    split.
    { constructor; [exact Hl |].
      eapply List.Forall_impl; [| exact Hfresh].
      intros l0 H0. unfold h1 in H0. apply lookup_insert_None in H0. apply H0. }
    split.
    { constructor; [| exact Hnd].
      intros Hin. rewrite List.Forall_forall in Hfresh.
      apply Hfresh in Hin. congruence. }
    intros [| j] m' Hj; simpl in Hj.
    + injection Hj as <-. exists d, l.
      rewrite Nat.add_0_r. repeat split; [exact Hd | apply Hkeep, Hl1].
    + destruct (Hpos j m' Hj) as (d' & l' & H1 & H2 & H3).
      assert (Hm' : m' <> l).
      { intros ->. apply list_elem_of_lookup_2 in Hj.
        rewrite Forall_forall in Hall. apply Hall in Hj.
        destruct Hj as [x Hx]. congruence. }
      exists d', l'. unfold h1 in H1. rewrite lookup_insert_ne in H1 by congruence.
      replace (i + S j)%nat with (S i + j)%nat by lia.
      repeat split; assumption.
Qed.

(** The shape of a run once retrieval, embedding and selection have
    succeeded: the annotated copies are made, and the run returns them
    unless a language model is configured and a line of the context
    block cannot be formatted. *)
Lemma forward_shape (str_other : pyval -> string) (self : REFRAGModule)
    (query : string) (h : heap) (passages : list Passage) (qv : list Q)
    (sel : list nat) :
  retrieve self query (k self) = Ok passages ->
  embed_query self query = Ok qv ->
  sensor_select self qv (map vector passages) (budget self) = Ok sel ->
  Forall (fun p => is_Some (h !! metadata p)) passages ->
  exists (ls : list loc) (h' : heap),
    attach sel O (map metadata passages) h = Ok (ls, h')
    /\ match lm self with
       | None =>
           forward str_other self query h
           = Ok (mkContext query (map vector passages) ls None, h')
       | Some call =>
           match context_str str_other (deref h' ls) with
           | Ok context =>
               forward str_other self query h
               = Ok (mkContext query (map vector passages) ls
                       (Some match call (prompt context query) with
                             | Ok resp => answer_of resp
                             | Raise e => ("Error calling LM: " ++ exn_message e)%string
                             end), h')
           | Raise e => forward str_other self query h = Raise e
           end
       end.
Proof.
  intros Hret Hemb Hsel Hall.
  destruct (attach_spec sel (map metadata passages) O h) as (ls & h' & Ha & _).
  { apply List.Forall_map. exact Hall. }
  exists ls, h'. split; [exact Ha |].
  unfold forward. rewrite Hret. simpl. rewrite Hemb. simpl. rewrite Hsel. simpl.
  rewrite Ha. simpl.
  destruct (lm self) as [call |]; [| reflexivity].
  destruct (context_str str_other (deref h' ls)); reflexivity.
Qed.

Lemma forward_inv (str_other : pyval -> string) (self : REFRAGModule)
    (query : string) (h : heap) (passages : list Passage) (qv : list Q)
    (sel : list nat) (ctx : REFRAGContext) (h' : heap) :
  retrieve self query (k self) = Ok passages ->
  embed_query self query = Ok qv ->
  sensor_select self qv (map vector passages) (budget self) = Ok sel ->
  Forall (fun p => is_Some (h !! metadata p)) passages ->
  forward str_other self query h = Ok (ctx, h') ->
  attach sel O (map metadata passages) h = Ok (chunk_metadata ctx, h')
  /\ chunk_vectors ctx = map vector passages
  /\ Refrag.query ctx = query
  /\ (lm self = None -> answer ctx = None).
Proof.
  intros Hret Hemb Hsel Hall Hf.
  destruct (forward_shape str_other self query h passages qv sel
              Hret Hemb Hsel Hall) as (ls & h1 & Ha & Hcase).
  destruct (lm self) as [call |].
  - destruct (context_str str_other (deref h1 ls)).
    + rewrite Hcase in Hf. injection Hf as <- <-. simpl.
      repeat split; [exact Ha | discriminate].
    + rewrite Hcase in Hf. discriminate.
  - rewrite Hcase in Hf. injection Hf as <- <-. simpl.
    repeat split; [exact Ha].
Qed.

(** C9.  A candidate whose metadata already has a [selected] entry keeps
    that entry, and its whole map, unchanged in the returned metadata; the
    selection outcome is written only when the entry is absent.  Every
    returned map is a new object, and every map that existed before the
    run still has its old contents after it. *)
Theorem forward_keeps_selected_and_copies :
  forall (str_other : pyval -> string) (self : REFRAGModule) (query : string)
         (h : heap) (passages : list Passage) (qv : list Q) (sel : list nat)
         (ctx : REFRAGContext) (h' : heap),
    retrieve self query (k self) = Ok passages ->
    embed_query self query = Ok qv ->
    sensor_select self qv (map vector passages) (budget self) = Ok sel ->
    Forall (fun p => is_Some (h !! metadata p)) passages ->
    forward str_other self query h = Ok (ctx, h') ->
    (forall (i : nat) (p : Passage),
        passages !! i = Some p ->
        exists (d : gmap string pyval) (l : loc) (d' : gmap string pyval),
          h !! metadata p = Some d
          /\ chunk_metadata ctx !! i = Some l
          /\ h' !! l = Some d'
          /\ h !! l = None
          /\ (forall v, d !! "selected" = Some v ->
                d' = d /\ d' !! "selected" = Some v)
          /\ (d !! "selected" = None ->
                d' = <["selected" := PBool (chosen sel i)]> d))
    /\ (forall (l : loc) (d : gmap string pyval),
          h !! l = Some d -> h' !! l = Some d).
Proof.
  intros str_other self query h passages qv sel ctx h' Hret Hemb Hsel Hall Hf.
  destruct (forward_inv _ _ _ _ _ _ _ _ _ Hret Hemb Hsel Hall Hf) as (Ha & _).
  destruct (attach_spec sel (map metadata passages) O h) as
    (ls & h1 & Ha' & _ & Hkeep & Hfresh & _ & Hpos).
  { apply List.Forall_map. exact Hall. }
  rewrite Ha in Ha'. injection Ha' as <- <-.
  split; [| exact Hkeep].
  intros i p Hp.
  destruct (Hpos i (metadata p)) as (d & l & Hd & Hl & Hd').
  { rewrite list_lookup_fmap, Hp. reflexivity. }
  exists d, l, (annotated d (chosen sel i)).
  repeat split; try assumption.
  - rewrite List.Forall_forall in Hfresh. apply Hfresh.
    apply list_elem_of_In. eapply list_elem_of_lookup_2, Hl.
  - unfold annotated. rewrite H. reflexivity.
  - unfold annotated. rewrite H. exact H.
  - intros H. unfold annotated. rewrite H. reflexivity.
Qed.

Lemma example_allocated :
  Forall (fun p => is_Some (example_heap !! metadata p)) example_passages.
Proof.
  unfold example_passages, example_heap. repeat constructor; simpl.
  - rewrite lookup_insert_eq. eexists. reflexivity.
  - rewrite lookup_insert_ne by discriminate.
    rewrite lookup_insert_eq. eexists. reflexivity.
Qed.

Lemma forward_keeps_selected_and_copies_witness :
  exists (ctx : REFRAGContext) (h' : heap),
    forward (fun _ => "") (example_module None) "q" example_heap = Ok (ctx, h')
    /\ (forall (i : nat) (p : Passage),
          example_passages !! i = Some p ->
          exists (d : gmap string pyval) (l : loc) (d' : gmap string pyval),
            example_heap !! metadata p = Some d
            /\ chunk_metadata ctx !! i = Some l
            /\ h' !! l = Some d'
            /\ example_heap !! l = None
            /\ (forall v, d !! "selected" = Some v ->
                  d' = d /\ d' !! "selected" = Some v)
            /\ (d !! "selected" = None ->
                  d' = <["selected" := PBool (chosen [1%nat] i)]> d))
    /\ (forall (l : loc) (d : gmap string pyval),
          example_heap !! l = Some d -> h' !! l = Some d).
Proof.
  destruct (forward_shape (fun _ => "") (example_module None) "q" example_heap
              example_passages [1] [1%nat] eq_refl eq_refl eq_refl
              example_allocated) as (ls & h' & _ & Hf).
  simpl in Hf. eexists. exists h'. split; [exact Hf |].
  apply (forward_keeps_selected_and_copies (fun _ => "") (example_module None)
           "q" example_heap example_passages [1] [1%nat] _ h'
           eq_refl eq_refl eq_refl example_allocated Hf).
Defined.

(** *** The metadata entries of the result *)

(** C6 (as stated) fails: a candidate that arrives with a [selected] entry
    that is not a boolean leaves the pipeline with that same entry. *)
Lemma selected_entry_annotated (h : heap) (l : loc) (d : gmap string pyval)
    (flag : bool) :
  h !! l = Some (annotated d flag) ->
  selected_entry h l
  = Some (match d !! "selected" with Some v => v | None => PBool flag end).
Proof.
  intros H. unfold selected_entry. rewrite H. apply annotated_selected.
Qed.

Lemma entry_not_boolean :
  exists (ctx : REFRAGContext) (h' : heap),
    forward (fun _ => "") (example_module None) "q" example_heap = Ok (ctx, h')
    /\ (exists l : loc, chunk_metadata ctx !! 0%nat = Some l
                        /\ selected_entry h' l = Some (PStr "yes"))
    /\ ~ every_entry_boolean.
Proof.
  destruct (forward_shape (fun _ => "") (example_module None) "q" example_heap
              example_passages [1] [1%nat] eq_refl eq_refl eq_refl
              example_allocated) as (ls & h' & Ha & Hf).
  simpl in Hf.
  destruct (attach_spec [1%nat] (map metadata example_passages) O example_heap)
    as (ls2 & h2 & Ha2 & _ & _ & _ & _ & Hpos).
  { apply List.Forall_map. exact example_allocated. }
  rewrite Ha in Ha2. injection Ha2 as <- <-.
  destruct (Hpos 0%nat 0%nat eq_refl) as (d & l & Hd & Hl & Hh).
  assert (Hsel : selected_entry h' l = Some (PStr "yes")).
  { rewrite (selected_entry_annotated _ _ _ _ Hh).
    unfold example_heap in Hd. simpl in Hd.
    rewrite lookup_insert_eq in Hd. injection Hd as <-.
    rewrite lookup_insert_ne by discriminate.
    rewrite lookup_singleton_eq. reflexivity. }
  eexists. exists h'. split; [exact Hf |].
  split; [exists l; split; [exact Hl | exact Hsel] |].
  intros H.
  destruct (H (fun _ => "") (example_module None) "q" example_heap
              example_passages [1] [1%nat] _ h'
              eq_refl eq_refl eq_refl example_allocated Hf) as [_ Hb].
  destruct (Hb l) as [b Hb2].
  { simpl. apply list_elem_of_In. eapply list_elem_of_lookup_2, Hl. }
  rewrite Hsel in Hb2. discriminate.
Qed.

Lemma insert_desc_perm {A : Type} (key : A -> Q) (x : A) (l : list A) :
  Permutation (Sensor.insert_desc key x l) (x :: l).
Proof.
  induction l as [| y l IH]; simpl; [reflexivity |].
  destruct (Qltb (key y) (key x)); [reflexivity |].
  rewrite IH. apply perm_swap.
Qed.

Lemma sorted_reverse_perm {A : Type} (key : A -> Q) (l : list A) :
  Permutation (Sensor.sorted_reverse key l) l.
Proof.
  unfold Sensor.sorted_reverse.
  assert (H : forall acc,
             Permutation (fold_left (fun acc x => Sensor.insert_desc key x acc) l acc)
                         (acc ++ l)).
  { induction l as [| x l IH]; intros acc; simpl.
    - rewrite app_nil_r. reflexivity.
    - rewrite IH, insert_desc_perm.
      change (x :: acc ++ l) with ((x :: acc) ++ l).
      rewrite (Permutation_cons_append acc x), <- app_assoc. reflexivity. }
  apply (H []).
Qed.

(** The default sensor with a budget of one picks one candidate. *)
Lemma default_select_one (depth : nat) (q : list Q) (cvs : list (list Q)) :
  cvs <> [] -> Forall (fun cv => length cv = length q) cvs ->
  exists top : nat,
    Sensor.select (S depth) Sensor.default q cvs 1 = Ok [top]
    /\ (top < length cvs)%nat.
Proof.
  intros Hne Hdim.
  destruct (ScoreTheory.similarities_ok q cvs Hdim) as (scores & Hs & Hlen).
  unfold AdvancedSensor._compute_similarities in Hs.
  simpl. rewrite Hs. simpl.
  pose proof (sorted_reverse_perm (Np.at_ scores) (seq 0 (length scores))) as Hp.
  destruct (Sensor.sorted_reverse (Np.at_ scores) (seq 0 (length scores)))
    as [| top rest] eqn:E.
  - apply Permutation_length in Hp. rewrite length_seq in Hp. simpl in Hp.
    destruct cvs; [contradiction | simpl in Hlen; lia].
  - exists top. split; [reflexivity |].
    assert (Hin : In top (seq 0 (length scores))).
    { apply (Permutation_in _ Hp). left. reflexivity. }
    apply in_seq in Hin. lia.
Qed.

Lemma filter_length_by_index {A : Type} (f : A -> bool) (g : nat -> bool)
    (l : list A) :
  forall a : nat,
    (forall j x, l !! j = Some x -> f x = g (a + j)%nat) ->
    length (List.filter f l) = length (List.filter g (seq a (length l))).
Proof.
  induction l as [| x l IH]; intros a H; simpl; [reflexivity |].
  rewrite (H O x eq_refl), Nat.add_0_r.
  assert (Hl : length (List.filter f l)
               = length (List.filter g (seq (S a) (length l)))).
  { apply IH. intros j y Hj. rewrite (H (S j) y Hj). f_equal. lia. }
  destruct (g a); simpl; rewrite Hl; reflexivity.
Qed.

Lemma count_chosen_single (top : nat) :
  forall n a : nat,
    length (List.filter (chosen [top]) (seq a n))
    = if ((a <=? top) && (top <? a + n))%nat then 1%nat else 0%nat.
Proof.
  induction n as [| n IH]; intros a; simpl.
  - destruct (a <=? top)%nat eqn:E1; destruct (top <? a + 0)%nat eqn:E2;
      try reflexivity.
    apply Nat.leb_le in E1. apply Nat.ltb_lt in E2. lia.
  - unfold chosen at 1. simpl. rewrite orb_false_r.
    destruct (a =? top)%nat eqn:E; simpl; rewrite IH.
    + apply Nat.eqb_eq in E. subst a.
      replace (S top <=? top)%nat with false by (symmetry; apply Nat.leb_gt; lia).
      replace (top <=? top)%nat with true by (symmetry; apply Nat.leb_le; lia).
      replace (top <? top + S n)%nat with true by (symmetry; apply Nat.ltb_lt; lia).
      reflexivity.
    + apply Nat.eqb_neq in E.
      destruct (S a <=? top)%nat eqn:E1; destruct (a <=? top)%nat eqn:E2;
        destruct (top <? S a + n)%nat eqn:E3;
        destruct (top <? a + S n)%nat eqn:E4; try reflexivity;
        rewrite ?Nat.leb_le, ?Nat.leb_gt, ?Nat.ltb_lt, ?Nat.ltb_ge in *; lia.
Qed.

(** C6 (amended).  Whenever a run returns, the result has exactly one
    vector and one metadata entry per retrieved candidate, and every entry
    has a [selected] key: the boolean selection flag when the candidate's
    metadata had no such key, and the value it already had otherwise.
    End to end: with at least one candidate (three, say), none of them
    carrying a [selected] key, the default sensor, a budget of one and no
    language model, the run returns, exactly one entry has [selected]
    true, and the answer is unset. *)
Theorem forward_metadata_entries :
  (forall (str_other : pyval -> string) (self : REFRAGModule) (query : string)
          (h : heap) (passages : list Passage) (qv : list Q) (sel : list nat)
          (ctx : REFRAGContext) (h' : heap),
      retrieve self query (k self) = Ok passages ->
      embed_query self query = Ok qv ->
      sensor_select self qv (map vector passages) (budget self) = Ok sel ->
      Forall (fun p => is_Some (h !! metadata p)) passages ->
      forward str_other self query h = Ok (ctx, h') ->
      length (chunk_metadata ctx) = length passages
      /\ length (chunk_vectors ctx) = length passages
      /\ (forall (i : nat) (p : Passage),
            passages !! i = Some p ->
            exists (d : gmap string pyval) (l : loc),
              h !! metadata p = Some d
              /\ chunk_metadata ctx !! i = Some l
              /\ selected_entry h' l
                 = Some (match d !! "selected" with
                         | Some v => v
                         | None => PBool (chosen sel i)
                         end)))
  /\ (forall (str_other : pyval -> string)
             (retrieve : string -> Z -> result (list Passage))
             (embed_query : string -> result (list Q))
             (depth : nat) (k : Z) (query : string) (h : heap)
             (passages : list Passage) (qv : list Q),
        retrieve query k = Ok passages ->
        embed_query query = Ok qv ->
        passages <> [] ->
        Forall (fun p => length (vector p) = length qv) passages ->
        Forall (fun p => exists d, h !! metadata p = Some d
                                   /\ d !! "selected" = None) passages ->
        exists (ctx : REFRAGContext) (h' : heap),
          forward str_other
            (mkModule retrieve embed_query
                      (Sensor.select (S depth) Sensor.default) None k 1)
            query h = Ok (ctx, h')
          /\ length (chunk_metadata ctx) = length passages
          /\ length (List.filter (selected_true h') (chunk_metadata ctx)) = 1%nat
          /\ answer ctx = None).
Proof.
  split.
  - intros str_other self query h passages qv sel ctx h' Hret Hemb Hsel Hall Hf.
    destruct (forward_inv _ _ _ _ _ _ _ _ _ Hret Hemb Hsel Hall Hf)
      as (Ha & Hv & _).
    destruct (attach_spec sel (map metadata passages) O h) as
      (ls & h1 & Ha' & Hlen & _ & _ & _ & Hpos).
    { apply List.Forall_map. exact Hall. }
    rewrite Ha in Ha'. injection Ha' as <- <-.
    split; [rewrite Hlen; apply length_map |].
    split; [rewrite Hv; apply length_map |].
    intros i p Hp.
    destruct (Hpos i (metadata p)) as (d & l & Hd & Hl & Hd').
    { rewrite list_lookup_fmap, Hp. reflexivity. }
    exists d, l. repeat split; try assumption.
    apply selected_entry_annotated, Hd'.
  - intros str_other retr emb depth k0 query h passages qv Hret Hemb Hne Hdim Hnew.
    set (self := mkModule retr emb (Sensor.select (S depth) Sensor.default)
                          None k0 1).
    destruct (default_select_one depth qv (map vector passages))
      as (top & Htop & Hlt).
    { destruct passages; [contradiction | discriminate]. }
    { apply List.Forall_map. exact Hdim. }
    rewrite length_map in Hlt.
    assert (Hall : Forall (fun p => is_Some (h !! metadata p)) passages).
    { eapply List.Forall_impl; [| exact Hnew].
      intros p (d & Hd & _). exists d. exact Hd. }
    destruct (forward_shape str_other self query h passages qv [top]
                Hret Hemb Htop Hall) as (ls & h' & Ha & Hf).
    simpl in Hf.
    destruct (attach_spec [top] (map metadata passages) O h) as
      (ls2 & h2 & Ha2 & Hlen & _ & _ & _ & Hpos).
    { apply List.Forall_map. exact Hall. }
    rewrite Ha in Ha2. injection Ha2 as <- <-.
    rewrite length_map in Hlen.
    eexists. exists h'. split; [exact Hf |]. simpl.
    split; [exact Hlen |]. split; [| reflexivity].
    rewrite (filter_length_by_index (selected_true h') (chosen [top]) ls O).
    + rewrite count_chosen_single, Hlen. simpl.
      replace (top <? length passages)%nat with true
        by (symmetry; apply Nat.ltb_lt; exact Hlt).
      reflexivity.
    + intros j l Hl. simpl.
      assert (Hj : (j < length passages)%nat).
      { rewrite <- Hlen. eapply lookup_lt_Some, Hl. }
      destruct (lookup_lt_is_Some_2 passages j Hj) as [p Hp].
      destruct (Hpos j (metadata p)) as (d & l' & Hd & Hl' & Hd').
      { rewrite list_lookup_fmap, Hp. reflexivity. }
      rewrite Hl in Hl'. injection Hl' as <-.
      rewrite Forall_forall in Hnew.
      destruct (Hnew p) as (d0 & Hd0 & Hnone).
      { eapply list_elem_of_lookup_2, Hp. }
      rewrite Hd in Hd0. injection Hd0 as <-.
      unfold selected_true.
      rewrite (selected_entry_annotated _ _ _ _ Hd'), Hnone.
      change (0 + j)%nat with j. unfold chosen. simpl.
      destruct (j =? top)%nat; reflexivity.
Qed.

Lemma forward_metadata_entries_witness :
  exists (ctx : REFRAGContext) (h' : heap),
    forward (fun _ => "")
      (mkModule (fun _ _ => Ok three_passages) (fun _ => Ok [1; 1])
                (Sensor.select 1 Sensor.default) None 3 1)
      "Tell me about dogs" three_heap = Ok (ctx, h')
    /\ length (chunk_metadata ctx) = length three_passages
    /\ length (List.filter (selected_true h') (chunk_metadata ctx)) = 1%nat
    /\ answer ctx = None.
Proof.
  apply (proj2 forward_metadata_entries (fun _ => "")
           (fun _ _ => Ok three_passages) (fun _ => Ok [1; 1]) O 3%Z
           "Tell me about dogs" three_heap three_passages [1; 1]).
  - reflexivity.
  - reflexivity.
  - discriminate.
  - repeat constructor.
  - unfold three_passages, three_heap. repeat constructor; simpl.
    + eexists. split; [apply lookup_insert_eq | reflexivity].
    + eexists. split.
      * rewrite lookup_insert_ne by discriminate. apply lookup_insert_eq.
      * reflexivity.
    + eexists. split.
      * rewrite !lookup_insert_ne by discriminate. apply lookup_insert_eq.
      * reflexivity.
Defined.

(** *** The context block *)






End RefragTheory.

(** ** The fragment codecs *)

Module SerializerTheory.
Import Serializer CodecSpec.

Section PyvalInduction.

Variable P : pyval -> Prop.
Hypothesis HNone : P PNone.
Hypothesis HBool : forall b, P (PBool b).
Hypothesis HInt : forall z, P (PInt z).
Hypothesis HFloat : forall x, P (PFloat x).
Hypothesis HStr : forall s, P (PStr s).
Hypothesis HList : forall l, List.Forall P l -> P (PList l).
Hypothesis HTuple : forall l, List.Forall P l -> P (PTuple l).
Hypothesis HDict :
  forall items, List.Forall (fun kv => P (snd kv)) items -> P (PDict items).


End PyvalInduction.


Lemma traverse_as_float (e : list Q) :
  Np.traverse as_float (map PFloat e) = Ok e.
Proof.
  induction e as [| x e IH]; simpl; [reflexivity |].
  rewrite IH. reflexivity.
Qed.

(** Reading back the dictionary of a fragment runs the constructor on
    its five fields. *)
Lemma from_dict_dict_of (f : Fragment) (e : list Q) :
  from_dict (dict_of f e)
  = make (text f) e (metadata f) (fragment_id f) (parent_doc_id f).
Proof.
  unfold from_dict, dict_of. simpl.
  rewrite traverse_as_float. simpl.
  destruct (parent_doc_id f); reflexivity.
Qed.


Lemma make_valid (f : Fragment) :
  valid f ->
  make (text f) (embedding f) (metadata f) (fragment_id f) (parent_doc_id f)
  = Ok f.
Proof.
  unfold valid, make. destruct f. simpl. intros H. exact H.
Qed.






End SerializerTheory.

(** ** The MMR strategy *)

Module MmrTheory.
Import Np NpTheory AdvancedSensor RankingSpec.

Lemma skipn_cons_at (L : list Q) (i : nat) (x : Q) (l : list Q) :
  skipn i L = x :: l ->
  at_ L i = x /\ skipn (S i) L = l /\ (i < length L)%nat.
Proof.
  revert i. induction L as [| y L IH]; intros i H.
  - destruct i; discriminate.
  - destruct i as [| i]; simpl in H.
    + injection H as -> ->. repeat split. simpl. lia.
    + destruct (IH i H) as (H1 & H2 & H3). repeat split; try assumption.
      simpl. lia.
Qed.

Lemma argmax_from_spec (L : list Q) :
  forall (l : list Q) (best i : nat),
    skipn i L = l -> (best < i)%nat -> (i <= length L)%nat ->
    (forall j, (j < i)%nat -> at_ L j <= at_ L best) ->
    (forall j, (j < best)%nat -> at_ L j < at_ L best) ->
    let k := argmax_from best (at_ L best) i l in
    (k < length L)%nat
    /\ (forall j, (j < length L)%nat -> at_ L j <= at_ L k)
    /\ (forall j, (j < k)%nat -> at_ L j < at_ L k).
Proof.
  induction l as [| x l IH]; intros best i Hl Hb Hi Hle Hlt; simpl.
  - assert (i = length L).
    { destruct (Nat.eq_dec i (length L)) as [E | E]; [exact E |].
      assert (H : length (skipn i L) = (length L - i)%nat) by apply length_skipn.
      rewrite Hl in H. simpl in H. lia. }
    subst i. repeat split; [lia | exact Hle | exact Hlt].
  - destruct (skipn_cons_at L i x l Hl) as (Hx & Hl' & Hi'). subst x.
    destruct (Qltb (at_ L best) (at_ L i)) eqn:E.
    + apply Qltb_lt in E.
      apply IH; try assumption; try lia.
      * intros j Hj. destruct (Nat.eq_dec j i) as [-> | Hne]; [lra |].
        specialize (Hle j ltac:(lia)). lra.
      * intros j Hj. specialize (Hle j Hj). lra.
    + apply Qltb_ge in E.
      apply IH; try assumption; try lia.
      intros j Hj. destruct (Nat.eq_dec j i) as [-> | Hne]; [lra |].
      apply Hle. lia.
Qed.

(** [np.argmax] returns the first position of the maximum. *)
Lemma argmax_spec (L : list Q) :
  L <> [] ->
  exists k : nat,
    argmax L = Ok k
    /\ (k < length L)%nat
    /\ (forall j, (j < length L)%nat -> at_ L j <= at_ L k)
    /\ (forall j, (j < k)%nat -> at_ L j < at_ L k).
Proof.
  destruct L as [| x l]; [contradiction |]. intros _.
  eexists. split; [reflexivity |].
  change x with (at_ (x :: l) O) at 1 2 3.
  apply (argmax_from_spec (x :: l) l 0 1); simpl; try reflexivity; try lia.
  - intros j Hj. replace j with O by lia. lra.
Qed.

Lemma remove_first_perm (x : nat) (l : list nat) :
  In x l -> Permutation (x :: remove_first x l) l.
Proof.
  induction l as [| y l IH]; simpl; [contradiction |].
  destruct (Nat.eqb x y) eqn:E.
  - apply Nat.eqb_eq in E. subst y. reflexivity.
  - apply Nat.eqb_neq in E. intros [H | H]; [congruence |].
    rewrite perm_swap. constructor. apply IH, H.
Qed.

Lemma mmr_scores_length (sims : list Q) (pw : list (list Q)) (lam : Q)
    (sel rem : list nat) :
  length (mmr_scores sims pw lam sel rem) = length rem.
Proof.
  unfold mmr_scores, take_at. destruct sel; apply length_map.
Qed.

(** One round of the loop moves one index from the remaining ones to the
    selected ones. *)
Lemma mmr_round (sims : list Q) (pw : list (list Q)) (lam : Q)
    (sel rem : list nat) :
  rem <> [] ->
  exists k : nat,
    argmax (mmr_scores sims pw lam sel rem) = Ok k
    /\ (k < length rem)%nat
    /\ In (nth k rem O) rem
    /\ (forall j, (j < length rem)%nat ->
          at_ (mmr_scores sims pw lam sel rem) j
          <= at_ (mmr_scores sims pw lam sel rem) k).
Proof.
  intros Hne.
  destruct (argmax_spec (mmr_scores sims pw lam sel rem))
    as (k & Hk & Hlt & Hmax & _).
  { intros E. apply (f_equal (@length Q)) in E.
    rewrite mmr_scores_length in E. destruct rem; [contradiction | discriminate]. }
  rewrite mmr_scores_length in Hlt, Hmax.
  exists k. repeat split; try assumption. apply nth_In, Hlt.
Qed.

Lemma mmr_loop_spec (sims : list Q) (pw : list (list Q)) (lam : Q) :
  forall (rounds : nat) (sel rem : list nat),
    List.NoDup (sel ++ rem) ->
    exists r : list nat,
      mmr_loop rounds sims pw lam sel rem = Ok r
      /\ List.NoDup r
      /\ (forall i, In i r -> In i (sel ++ rem))
      /\ length r = (length sel + Nat.min rounds (length rem))%nat.
Proof.
  induction rounds as [| rounds IH]; intros sel rem Hnd.
  - exists sel. simpl. repeat split.
    + apply NoDup_app_remove_r in Hnd. exact Hnd.
    + intros i Hi. apply in_or_app. left. exact Hi.
    + lia.
  - destruct rem as [| r0 rem'].
    { exists sel. simpl. repeat split.
      - rewrite app_nil_r in Hnd. exact Hnd.
      - intros i Hi. rewrite app_nil_r. exact Hi.
      - lia. }
    remember (r0 :: rem') as rem eqn:Er.
    destruct (mmr_round sims pw lam sel rem) as (k & Hk & Hlt & Hin & _).
    { rewrite Er. discriminate. }
    assert (Hp : Permutation ((sel ++ [nth k rem O]) ++ remove_first (nth k rem O) rem)
                             (sel ++ rem)).
    { rewrite <- app_assoc. apply Permutation_app_head. simpl.
      apply remove_first_perm, Hin. }
    destruct (IH (sel ++ [nth k rem O]) (remove_first (nth k rem O) rem))
      as (r & Hr & Hndr & Hsub & Hlen).
    { apply (Permutation_NoDup (Permutation_sym Hp)), Hnd. }
    exists r. split.
    { rewrite Er in Hk, Hr |- *. cbn [mmr_loop]. rewrite Hk. cbn [rbind].
      exact Hr. }
    split; [exact Hndr |]. split.
    { intros i Hi. apply (Permutation_in _ Hp), Hsub, Hi. }
    rewrite Hlen, length_app. cbn [length].
    assert (Hl : length rem = S (length (remove_first (nth k rem O) rem))).
    { rewrite <- (Permutation_length (remove_first_perm _ _ Hin)). reflexivity. }
    lia.
Qed.

Lemma at_map (f : nat -> Q) (l : list nat) (j : nat) :
  (j < length l)%nat -> at_ (map f l) j = f (nth j l O).
Proof.
  intros Hj. unfold at_.
  rewrite (nth_indep _ 0 (f O)) by (rewrite length_map; exact Hj).
  apply map_nth.
Qed.

Lemma dot_length (a b : list Q) (r : Q) : dot a b = Ok r -> length a = length b.
Proof.
  revert b r. induction a as [| x a IH]; intros [| y b] r; simpl;
    try discriminate; [reflexivity |].
  destruct (dot a b) as [r' |] eqn:E; simpl; [| discriminate].
  intros _. f_equal. eapply IH, E.
Qed.

Lemma traverse_Forall {A B : Type} (f : A -> result B) (xs : list A) (ys : list B) :
  traverse f xs = Ok ys -> List.Forall (fun x => exists y, f x = Ok y) xs.
Proof.
  revert ys. induction xs as [| x xs IH]; intros ys; simpl; [constructor |].
  destruct (f x) as [y |] eqn:E; simpl; [| discriminate].
  destruct (traverse f xs) as [ys' |] eqn:E'; simpl; [| discriminate].
  intros _. constructor; [exists y; exact E | eapply IH; reflexivity].
Qed.

(** Candidates that could be scored all have the query's dimension. *)
Lemma similarities_dims (q : list Q) (cvs : list (list Q)) (scores : list Q) :
  _compute_similarities q cvs = Ok scores ->
  List.Forall (fun cv => length cv = length q) cvs /\ length scores = length cvs.
Proof.
  intros H. split; [| eapply ScoreTheory.traverse_length, H].
  apply traverse_Forall in H.
  eapply List.Forall_impl; [| exact H].
  intros cv [r Hr]. symmetry. eapply dot_length, Hr.
Qed.

Lemma skipn_step {A : Type} (l : list A) (m : nat) (h : A) (T : list A) :
  skipn m l = h :: T ->
  firstn (S m) l = firstn m l ++ [h] /\ skipn (S m) l = T /\ In h l.
Proof.
  revert l. induction m as [| m IH]; intros l H.
  - change (l = h :: T) in H. subst l. repeat split. left. reflexivity.
  - destruct l as [| x l]; [discriminate |]. change (skipn m l = h :: T) in H.
    destruct (IH l H) as (H1 & H2 & H3).
    split; [| split; [exact H2 | right; exact H3]].
    change (firstn (S (S m)) (x :: l)) with (x :: firstn (S m) l).
    rewrite H1. reflexivity.
Qed.

Section LambdaOne.

Variable sims : list Q.
Variable pw : list (list Q).
Variable lam : Q.
Hypothesis lam_one : lam == 1.
Hypothesis distinct :
  forall i j : nat,
    (i < length sims)%nat -> (j < length sims)%nat ->
    at_ sims i == at_ sims j -> i = j.

(** All candidates in descending order of score. *)
Local Abbreviation D := (rev (argsort sims)).

Lemma D_perm : Permutation D (seq 0 (length sims)).
Proof.
  rewrite <- Permutation_rev. apply argsort_perm.
Qed.

Lemma D_sorted : StronglySorted (fun i j => lex sims j i) D.
Proof. apply StronglySorted_rev, argsort_sorted. Qed.

Lemma D_In (i : nat) : In i D -> (i < length sims)%nat.
Proof.
  intros H. apply (Permutation_in _ D_perm) in H. apply in_seq in H. lia.
Qed.

Lemma mmr_scores_one (sel rem : list nat) (j : nat) :
  (j < length rem)%nat ->
  at_ (mmr_scores sims pw lam sel rem) j == at_ sims (nth j rem O).
Proof.
  intros Hj. unfold mmr_scores. destruct sel as [| s0 sel].
  - unfold take_at. rewrite at_map by exact Hj. reflexivity.
  - rewrite at_map by exact Hj. cbv zeta. rewrite lam_one. ring.
Qed.

Lemma mmr_loop_one :
  forall (rounds m : nat) (rem : list nat),
    Permutation rem (skipn m D) ->
    mmr_loop rounds sims pw lam (firstn m D) rem = Ok (firstn (m + rounds) D).
Proof.
  induction rounds as [| rounds IH]; intros m rem Hp.
  - rewrite Nat.add_0_r. reflexivity.
  - destruct rem as [| r0 rem'].
    + apply Permutation_nil in Hp.
      assert (Hm : (length D <= m)%nat).
      { assert (H : length (skipn m D) = (length D - m)%nat) by apply length_skipn.
        rewrite Hp in H. simpl in H. lia. }
      simpl. rewrite !firstn_all2 by lia. reflexivity.
    + remember (r0 :: rem') as rem eqn:Er.
      destruct (mmr_round sims pw lam (firstn m D) rem)
        as (k & Hk & Hlt & Hin & Hmax).
      { rewrite Er. discriminate. }
      destruct (skipn m D) as [| h T] eqn:Es.
      { apply Permutation_sym, Permutation_nil in Hp. subst rem. discriminate. }
      assert (Hh : In h rem).
      { apply (Permutation_in _ (Permutation_sym Hp)). left. reflexivity. }
      destruct (skipn_step D m h T Es) as (Hfirst & Hskip & HhD).
      assert (Hbest : nth k rem O = h).
      { apply (In_nth _ _ O) in Hh. destruct Hh as (jh & Hjh & Ejh).
        pose proof (Hmax jh Hjh) as Hle.
        rewrite !mmr_scores_one in Hle by assumption. rewrite Ejh in Hle.
        assert (Hin' : In (nth k rem O) (h :: T))
          by (apply (Permutation_in _ Hp), Hin).
        destruct Hin' as [E | Hin']; [symmetry; exact E |].
        pose proof D_sorted as Hs.
        rewrite <- (firstn_skipn m D), Es in Hs.
        apply StronglySorted_app_elim in Hs. destruct Hs as (_ & Hs & _).
        apply StronglySorted_inv in Hs. destruct Hs as [_ Hf].
        rewrite List.Forall_forall in Hf.
        pose proof (Hf _ Hin') as Hl. apply lex_score in Hl.
        apply distinct.
        - apply D_In. rewrite <- (firstn_skipn m D), Es.
          apply in_or_app. right. right. exact Hin'.
        - apply D_In, HhD.
        - lra. }
      assert (Hh' : In h rem).
      { apply (Permutation_in _ (Permutation_sym Hp)). left. reflexivity. }
      rewrite Er in Hk |- *. cbn [mmr_loop]. rewrite Hk. cbn [rbind].
      rewrite <- Er. rewrite Hbest, <- Hfirst.
      replace (m + S rounds)%nat with (S m + rounds)%nat by lia.
      apply IH. rewrite Hskip.
      apply (Permutation_cons_inv (a := h)).
      rewrite remove_first_perm by exact Hh'. exact Hp.
Qed.

End LambdaOne.

(** C4 (as stated) fails.  On two candidates with the same score MMR
    takes the lower index first ([np.argmax] returns the first maximum)
    and Similarity the higher one (the reversed argsort).  A negative
    budget separates the two strategies whatever the scores: the slice
    [[:budget]] drops from the end, while [range(budget)] is empty. *)
Lemma mmr_one_differs_from_similarity :
  (forall (exp : Q -> Q) (st : RandomState),
      fst (select exp mmr_one [1] [[1]; [1]] 2 st) = Ok [0; 1]%nat
      /\ fst (select exp (default_config SIMILARITY) [1] [[1]; [1]] 2 st)
         = Ok [1; 0]%nat)
  /\ (forall (exp : Q -> Q) (st : RandomState),
        fst (select exp mmr_one [1] [[3]; [1]; [2]] (-1) st) = Ok []
        /\ fst (select exp (default_config SIMILARITY) [1] [[3]; [1]; [2]]
                  (-1) st)
           = Ok [0; 2]%nat)
  /\ ~ mmr_one_is_similarity.
Proof.
  split; [intros exp st; split; reflexivity |].
  split; [intros exp st; split; reflexivity |].
  intros H.
  specialize (H (fun x => x) [1] [[3]; [1]; [2]] (-1)%Z
                (mkRandomState (fun _ => 0) O)).
  vm_compute in H. discriminate.
Qed.

(** C4 (amended).  When the candidates' scores are pairwise distinct and
    the budget is not negative, MMR selection with diversityLambda = 1
    returns the same ordered list of indices as Similarity selection with
    minScore unset. *)
Theorem mmr_lambda_one_matches_similarity :
  forall (exp : Q -> Q) (cm cs : SelectionConfig) (q : list Q)
         (cvs : list (list Q)) (budget : Z) (st : RandomState)
         (scores : list Q),
    strategy cm = MMR -> diversity_lambda cm == 1 ->
    strategy cs = SIMILARITY -> min_score cs = None ->
    _compute_similarities q cvs = Ok scores ->
    (forall i j : nat,
        (i < length scores)%nat -> (j < length scores)%nat ->
        at_ scores i == at_ scores j -> i = j) ->
    (0 <= budget)%Z ->
    exists r : list nat,
      select exp cm q cvs budget st = (Ok r, st)
      /\ select exp cs q cvs budget st = (Ok r, st).
Proof.
  intros exp cm cs q cvs budget st scores Hm Hlam Hs Hmin Hsc Hdist Hb.
  unfold select, select_with. rewrite Hm, Hs.
  destruct cvs as [| cv cvs']; [exists []; split; reflexivity |].
  remember (cv :: cvs') as cvs eqn:Ec.
  set (b := Z.min budget (Z.of_nat (length cvs))).
  assert (Hb' : (0 <= b)%Z) by (unfold b; lia).
  destruct (similarities_dims q cvs scores Hsc) as [Hdim Hlen].
  destruct (ScoreTheory.gram_ok q cvs Hdim) as [pw Hpw].
  exists (firstn (Z.to_nat b) (rev (argsort scores))).
  unfold pure. split; f_equal.
  - unfold _select_mmr. rewrite Hsc. cbn [rbind]. rewrite Hpw. cbn [rbind].
    rewrite <- Hlen.
    apply (mmr_loop_one scores pw (diversity_lambda cm) Hlam Hdist
             (Z.to_nat b) O (seq 0 (length scores))).
    change (skipn 0 (rev (argsort scores))) with (rev (argsort scores)).
    rewrite <- Permutation_rev. symmetry. apply argsort_perm.
  - unfold _select_similarity. rewrite Hsc. cbn [rbind]. rewrite Hmin.
    unfold slice_to.
    destruct (b <? 0)%Z eqn:E; [apply Z.ltb_lt in E; lia | reflexivity].
Qed.

Lemma mmr_lambda_one_matches_similarity_witness :
  exists r : list nat,
    select (fun x => x) mmr_one [1] [[3]; [1]; [2]] 2
           (mkRandomState (fun _ => 0) O)
    = (Ok r, mkRandomState (fun _ => 0) O)
    /\ select (fun x => x) (default_config SIMILARITY) [1] [[3]; [1]; [2]] 2
              (mkRandomState (fun _ => 0) O)
       = (Ok r, mkRandomState (fun _ => 0) O).
Proof.
  apply (mmr_lambda_one_matches_similarity (fun x => x) mmr_one
           (default_config SIMILARITY) [1] [[3]; [1]; [2]] 2
           (mkRandomState (fun _ => 0) O) [3; 1; 2]).
  - reflexivity.
  - reflexivity.
  - reflexivity.
  - reflexivity.
  - reflexivity.
  - intros i j Hi Hj H. simpl in Hi, Hj.
    destruct i as [| [| [| i]]]; destruct j as [| [| [| j]]];
      try lia; try reflexivity; vm_compute in H; discriminate.
  - lia.
Defined.

End MmrTheory.

(** ** Sampling without replacement *)

Module ChoiceTheory.
Import Np SamplingSpec.






(** *** [zero_at] *)






(** *** [uniq_first] *)




Section Loop.

Variables n size : nat.

Hypothesis size_le : (size <= n)%nat.



End Loop.





End ChoiceTheory.

(** ** The Uncertainty strategy *)

Module UncertaintyTheory.
Import Np AdvancedSensor ChoiceTheory SamplingSpec.

Section Softmax.

Variable exp : Q -> Q.
Hypothesis exp_pos : forall x : Q, 0 < exp x.


Lemma softmax_length (c : SelectionConfig) (sims : list Q) :
  length (softmax exp c sims) = length sims.
Proof. unfold softmax. rewrite !length_map. reflexivity. Qed.


End Softmax.







End UncertaintyTheory.

(** ** All strategies *)

Module StrategyTheory.
Import Np NpTheory FilterTheory AdvancedSensor ChoiceTheory RankingSpec SamplingSpec.

Lemma sorted_lt_length (l : list nat) (n : nat) :
  StronglySorted lt l -> (forall i, In i l -> (i < n)%nat) ->
  (length l <= n)%nat.
Proof.
  intros Hs Hr.
  assert (Hnd : List.NoDup l).
  { induction Hs as [| x l Hs IH Hf]; constructor.
    - intros Hin. rewrite List.Forall_forall in Hf. apply Hf in Hin. lia.
    - apply IH. intros i Hi. apply Hr. right. exact Hi. }
  assert (Hincl : incl l (seq 0 n)).
  { intros i Hi. apply in_seq. specialize (Hr i Hi). lia. }
  apply NoDup_incl_length in Hincl; [| exact Hnd].
  rewrite length_seq in Hincl. exact Hincl.
Qed.

Lemma filtered_ranking_well_formed (s : list Q) (valid : list nat) (b : Z) :
  StronglySorted lt valid -> (forall i, In i valid -> (i < length s)%nat) ->
  (0 <= b)%Z ->
  well_formed (length s) b (filtered_ranking s valid b)
  /\ length (filtered_ranking s valid b) = Nat.min (Z.to_nat b) (length valid).
Proof.
  intros Hs Hr Hb.
  pose proof (filtered_ranking_length s valid b Hb) as Hlen.
  pose proof (sorted_lt_length valid (length s) Hs Hr) as Hle.
  split; [| exact Hlen].
  split; [apply filtered_ranking_NoDup, Hs |]. split.
  - intros i Hi. apply Hr. eapply filtered_ranking_In, Hi.
  - rewrite Hlen. lia.
Qed.



Lemma percentile_ok (s : list Q) (p : Q) :
  s <> [] -> 0 <= p <= 1 -> exists t, percentile s (p * 100) = Ok t.
Proof.
  intros Hne Hp. unfold percentile.
  assert (H1 : Qltb (p * 100) 0 = false) by (apply Qltb_ge; lra).
  assert (H2 : Qltb 100 (p * 100) = false) by (apply Qltb_ge; lra).
  rewrite H1, H2. simpl. destruct s; [contradiction |]. eexists. reflexivity.
Qed.




Section Select.

Variable exp : Q -> Q.
Hypothesis exp_pos : forall x : Q, 0 < exp x.




End Select.




End StrategyTheory.

(** ** sensor.py and retriever.py: the stable descending sort *)

Module StableSortTheory.
Import Np StableSpec.

Lemma slice_to_length_gen {A : Type} (b : Z) (l : list A) :
  length (slice_to b l) = slice_length b (length l).
Proof.
  unfold slice_to, slice_length.
  destruct (b <? 0)%Z; rewrite List.length_firstn; lia.
Qed.

Lemma slice_to_map {A B : Type} (f : A -> B) (b : Z) (l : list A) :
  slice_to b (map f l) = map f (slice_to b l).
Proof.
  unfold slice_to. rewrite List.length_map.
  destruct (b <? 0)%Z; apply List.firstn_map.
Qed.

Section Stable.
Context {A : Type}.
Variable key : A -> Q.
Variable pos : A -> nat.

Lemma insert_desc_sorted (x : A) (l : list A) :
  StronglySorted (ahead key pos) l ->
  List.Forall (fun y => (pos y < pos x)%nat) l ->
  StronglySorted (ahead key pos) (Sensor.insert_desc key x l).
Proof.
  induction l as [| y l IH]; intros Hs Hp; simpl.
  - constructor; constructor.
  - apply StronglySorted_inv in Hs as [Hs Hy].
    apply List.Forall_cons_iff in Hp as [Hyx Hp].
    destruct (Qltb (key y) (key x)) eqn:E.
    + apply Qltb_lt in E.
      constructor; [constructor; assumption |].
      constructor; [left; exact E |].
      rewrite List.Forall_forall in Hy |- *. intros z Hz.
      destruct (Hy z Hz) as [H | [H _]]; left; lra.
    + apply Qltb_ge in E.
      constructor; [apply IH; assumption |].
      rewrite List.Forall_forall in Hy |- *. intros z Hz.
      apply (Permutation_in _ (RefragTheory.insert_desc_perm key x l)) in Hz.
      destruct Hz as [<- | Hz]; [| apply Hy; exact Hz].
      destruct (Qlt_le_dec (key x) (key y)) as [H | H]; [left; exact H |].
      right. split; [lra | exact Hyx].
Qed.

Lemma sorted_reverse_fold (l : list A) :
  forall acc : list A,
    StronglySorted (ahead key pos) acc ->
    StronglySorted (fun x y => (pos x < pos y)%nat) l ->
    (forall a x, In a acc -> In x l -> (pos a < pos x)%nat) ->
    StronglySorted (ahead key pos)
      (fold_left (fun acc x => Sensor.insert_desc key x acc) l acc).
Proof.
  induction l as [| x l IH]; intros acc Hacc Hl Hlt; simpl; [exact Hacc |].
  apply StronglySorted_inv in Hl as [Hl Hx].
  rewrite List.Forall_forall in Hx.
  apply IH; [| exact Hl |].
  - apply insert_desc_sorted; [exact Hacc |].
    rewrite List.Forall_forall. intros a Ha. apply Hlt; [exact Ha | left; reflexivity].
  - intros a z Ha Hz.
    apply (Permutation_in _ (RefragTheory.insert_desc_perm key x acc)) in Ha.
    destruct Ha as [<- | Ha]; [apply Hx; exact Hz |].
    apply Hlt; [exact Ha | right; exact Hz].
Qed.

Lemma sorted_reverse_sorted (l : list A) :
  StronglySorted (fun x y => (pos x < pos y)%nat) l ->
  StronglySorted (ahead key pos) (Sensor.sorted_reverse key l).
Proof.
  intros Hl. unfold Sensor.sorted_reverse.
  apply sorted_reverse_fold; [constructor | exact Hl |].
  intros a x [].
Qed.

End Stable.

Lemma sorted_lt_NoDup (l : list nat) : StronglySorted lt l -> List.NoDup l.
Proof.
  induction 1 as [| x l Hs IH Hx]; constructor; [| exact IH].
  intros Hin. rewrite List.Forall_forall in Hx. specialize (Hx x Hin). lia.
Qed.

(** The ranking both [Sensor.select] and [SimpleRetriever.retrieve]
    compute. *)
Lemma sorted_reverse_top_ranked (s : list Q) (cands : list nat) (b : Z) :
  StronglySorted lt cands ->
  top_ranked s cands b (slice_to b (Sensor.sorted_reverse (at_ s) cands)).
Proof.
  intros Hc.
  pose proof (RefragTheory.sorted_reverse_perm (at_ s) cands) as Hperm.
  pose proof (sorted_reverse_sorted (at_ s) (fun i => i) cands Hc) as Hs.
  destruct (NpTheory.slice_to_prefix b (Sensor.sorted_reverse (at_ s) cands))
    as [rest Hrest].
  assert (Hnd : List.NoDup (Sensor.sorted_reverse (at_ s) cands)).
  { apply (Permutation_NoDup (Permutation_sym Hperm)), sorted_lt_NoDup, Hc. }
  repeat split.
  - apply NpTheory.slice_to_NoDup, Hnd.
  - intros i Hi. apply (Permutation_in _ Hperm).
    apply (NpTheory.slice_to_incl b), Hi.
  - rewrite slice_to_length_gen. f_equal. apply Permutation_length, Hperm.
  - rewrite Hrest in Hs.
    apply NpTheory.StronglySorted_app_elim in Hs as [Hs _]. exact Hs.
  - intros i j Hi Hj Hjc.
    rewrite Hrest in Hs.
    apply NpTheory.StronglySorted_app_elim in Hs as (_ & _ & Hs).
    apply Hs; [exact Hi |].
    apply (Permutation_in _ (Permutation_sym Hperm)) in Hjc.
    rewrite Hrest in Hjc. apply in_app_or in Hjc as [Hjc | Hjc];
      [contradiction | exact Hjc].
Qed.

End StableSortTheory.

(** ** sensor.py: what [Sensor.select] returns *)

Module SensorRankingTheory.
Import Np StableSpec.

Lemma combine_seq_from (l : list Q) :
  forall a : nat,
    combine (seq a (length l)) l
    = map (fun i => (i, nth (i - a) l 0)) (seq a (length l)).
Proof.
  induction l as [| x l IH]; intros a; simpl; [reflexivity |].
  rewrite Nat.sub_diag. f_equal. rewrite IH.
  apply map_ext_in. intros i Hi. apply in_seq in Hi.
  replace (i - a)%nat with (S (i - S a)) by lia. reflexivity.
Qed.

Lemma combine_seq (s : list Q) :
  combine (seq 0 (length s)) s = map (fun i => (i, at_ s i)) (seq 0 (length s)).
Proof.
  rewrite combine_seq_from. apply map_ext. intros i.
  rewrite Nat.sub_0_r. reflexivity.
Qed.

Lemma filter_map_comm {A B : Type} (f : B -> bool) (g : A -> B) (l : list A) :
  List.filter f (map g l) = map g (List.filter (fun x => f (g x)) l).
Proof.
  induction l as [| x l IH]; simpl; [reflexivity |].
  destruct (f (g x)); simpl; rewrite IH; reflexivity.
Qed.

Lemma insert_desc_map {A B : Type} (key : B -> Q) (g : A -> B) (x : A)
    (l : list A) :
  Sensor.insert_desc key (g x) (map g l)
  = map g (Sensor.insert_desc (fun a => key (g a)) x l).
Proof.
  induction l as [| y l IH]; simpl; [reflexivity |].
  destruct (Qltb (key (g y)) (key (g x))); simpl; [reflexivity |].
  rewrite IH. reflexivity.
Qed.

Lemma sorted_reverse_map {A B : Type} (key : B -> Q) (g : A -> B) (l : list A) :
  Sensor.sorted_reverse key (map g l)
  = map g (Sensor.sorted_reverse (fun a => key (g a)) l).
Proof.
  unfold Sensor.sorted_reverse.
  change (@nil B) with (map g []). generalize (@nil A) as acc.
  induction l as [| x l IH]; intros acc; simpl; [reflexivity |].
  rewrite insert_desc_map. apply IH.
Qed.

(** With a threshold, the pairs the source filters and sorts carry the
    indices that reach the threshold. *)
Lemma threshold_ranking (scores : list Q) (th : Q) (budget : Z) :
  map fst
    (slice_to budget
       (Sensor.sorted_reverse snd
          (List.filter (fun x : nat * Q => Qle_bool th (snd x))
             (combine (seq 0 (length scores)) scores))))
  = slice_to budget (Sensor.sorted_reverse (at_ scores) (where_ge scores th)).
Proof.
  rewrite combine_seq, filter_map_comm, sorted_reverse_map, StableSortTheory.slice_to_map.
  rewrite map_map. simpl. rewrite map_id. reflexivity.
Qed.

Lemma insert_desc_last {A : Type} (key : A -> Q) (x : A) (l : list A) :
  (forall y, In y l -> key x <= key y) ->
  Sensor.insert_desc key x l = l ++ [x].
Proof.
  induction l as [| y l IH]; intros H; simpl; [reflexivity |].
  destruct (Qltb (key y) (key x)) eqn:E.
  - apply Qltb_lt in E. specialize (H y (or_introl eq_refl)). lra.
  - rewrite IH; [reflexivity |]. intros z Hz. apply H. right. exact Hz.
Qed.

Lemma sorted_reverse_id {A : Type} (key : A -> Q) (l : list A) :
  StronglySorted (fun x y => key y <= key x) l ->
  Sensor.sorted_reverse key l = l.
Proof.
  unfold Sensor.sorted_reverse.
  assert (H : forall l acc,
             StronglySorted (fun x y => key y <= key x) (acc ++ l) ->
             fold_left (fun acc x => Sensor.insert_desc key x acc) l acc
             = acc ++ l).
  { clear l. induction l as [| x l IH]; intros acc Hs; simpl.
    - rewrite app_nil_r. reflexivity.
    - rewrite insert_desc_last.
      + rewrite IH; rewrite <- app_assoc; [reflexivity | exact Hs].
      + intros y Hy.
        apply NpTheory.StronglySorted_app_elim in Hs as (_ & _ & Hs).
        apply Hs; [exact Hy | left; reflexivity]. }
  intros Hs. apply (H l []). exact Hs.
Qed.

Lemma seq_sorted_by (R : nat -> nat -> Prop) (n : nat) :
  forall a : nat,
    (forall i j, (a <= i)%nat -> (i < j)%nat -> (j < a + n)%nat -> R i j) ->
    StronglySorted R (seq a n).
Proof.
  induction n as [| n IH]; intros a H; simpl; constructor.
  - apply IH. intros i j Hi Hij Hj. apply H; lia.
  - rewrite List.Forall_forall. intros j Hj. apply in_seq in Hj.
    apply H; lia.
Qed.

End SensorRankingTheory.

Module SensorSelectTheory.
Import Np StableSpec.

Lemma scores_of (f : list Q -> result Q) (cvs : list (list Q)) :
  List.Forall (fun cv => exists y, f cv = Ok y) cvs ->
  exists scores : list Q,
    traverse f cvs = Ok scores /\ length scores = length cvs.
Proof.
  intros H. destruct (ScoreTheory.traverse_ok f cvs H) as [scores Hs].
  exists scores. split; [exact Hs |].
  apply (ScoreTheory.traverse_length f), Hs.
Qed.

Lemma heuristic_scores (q : list Q) (cvs : list (list Q)) :
  List.Forall (fun cv => length cv = length q) cvs ->
  exists scores : list Q,
    traverse (dot q) cvs = Ok scores /\ length scores = length cvs.
Proof.
  intros H. apply scores_of.
  rewrite List.Forall_forall in H |- *. intros cv Hcv.
  apply ScoreTheory.dot_ok. symmetry. apply H, Hcv.
Qed.

(** X1.  The heuristic sensor without a threshold, on candidates of the
    query's dimension, returns the indices of the best-scoring
    candidates, cut like the slice [ranked[:budget]]: no index twice,
    every index in range, scores in non-increasing order with equal
    scores in ascending index order, and every candidate left out
    ranked behind every candidate returned.  The length is that of the
    slice: min(budget, N) for a budget of zero or more, and N - |budget|
    for a negative budget, which drops candidates from the end instead
    of raising. *)
Theorem heuristic_select_top_ranked :
  forall (depth : nat) (w : option (list Q)) (query_vec : list Q)
         (chunk_vecs : list (list Q)) (budget : Z),
    List.Forall (fun cv => length cv = length query_vec) chunk_vecs ->
    exists (scores : list Q) (r : list nat),
      traverse (dot query_vec) chunk_vecs = Ok scores
      /\ Sensor.select (S depth) (Sensor.mk "heuristic" None w)
           query_vec chunk_vecs budget = Ok r
      /\ top_ranked scores (seq 0 (length chunk_vecs)) budget r.
Proof.
  intros depth w q cvs b Hdim.
  destruct (heuristic_scores q cvs Hdim) as (scores & Hs & Hlen).
  exists scores. eexists. split; [exact Hs |].
  cbn. rewrite Hs. cbn. split; [reflexivity |].
  rewrite Hlen. apply StableSortTheory.sorted_reverse_top_ranked.
  apply FilterTheory.seq_sorted.
Qed.

Lemma heuristic_select_top_ranked_witness :
  exists (scores : list Q) (r : list nat),
    traverse (dot [1]) [[3]; [1]; [2]] = Ok scores
    /\ Sensor.select 1 (Sensor.mk "heuristic" None None) [1] [[3]; [1]; [2]] 2
       = Ok r
    /\ top_ranked scores (seq 0 3) 2 r.
Proof.
  apply (heuristic_select_top_ranked 0 None [1] [[3]; [1]; [2]] 2).
  repeat constructor.
Defined.

(** X2.  With a threshold the heuristic sensor ranks only the
    candidates whose score reaches the threshold: every returned index
    scores at least the threshold, the list is the top of the stable
    descending ranking of those candidates cut at the budget, and when
    no candidate reaches the threshold the result is the empty list (there is no
    fallback to the best candidate). *)
Theorem threshold_select_top_ranked :
  forall (depth : nat) (w : option (list Q)) (th : Q) (query_vec : list Q)
         (chunk_vecs : list (list Q)) (budget : Z),
    List.Forall (fun cv => length cv = length query_vec) chunk_vecs ->
    exists (scores : list Q) (r : list nat),
      traverse (dot query_vec) chunk_vecs = Ok scores
      /\ Sensor.select (S depth) (Sensor.mk "heuristic" (Some th) w)
           query_vec chunk_vecs budget = Ok r
      /\ top_ranked scores (where_ge scores th) budget r
      /\ (forall i, In i r -> (i < length chunk_vecs)%nat /\ th <= at_ scores i)
      /\ ((forall i, (i < length chunk_vecs)%nat -> at_ scores i < th) -> r = []).
Proof.
  intros depth w th q cvs b Hdim.
  destruct (heuristic_scores q cvs Hdim) as (scores & Hs & Hlen).
  exists scores. eexists. split; [exact Hs |].
  cbn. rewrite Hs. cbn. split; [reflexivity |].
  rewrite SensorRankingTheory.threshold_ranking.
  pose proof (StableSortTheory.sorted_reverse_top_ranked scores
                (where_ge scores th) b (FilterTheory.where_ge_sorted scores th))
    as Htop.
  split; [exact Htop |].
  destruct Htop as (_ & Hin & Hl & _).
  split.
  - intros i Hi. apply Hin, FilterTheory.where_ge_In in Hi.
    rewrite <- Hlen. exact Hi.
  - intros Hlow.
    assert (E : where_ge scores th = []).
    { destruct (where_ge scores th) as [| i l] eqn:E; [reflexivity |].
      assert (Hi : In i (where_ge scores th)) by (rewrite E; left; reflexivity).
      apply FilterTheory.where_ge_In in Hi as [Hi Hge].
      rewrite Hlen in Hi. specialize (Hlow i Hi). lra. }
    rewrite E. unfold slice_to, Sensor.sorted_reverse. cbn [fold_left].
    destruct (b <? 0)%Z; apply List.firstn_nil.
Qed.

Lemma threshold_select_top_ranked_witness :
  exists (scores : list Q) (r : list nat),
    traverse (dot [1]) [[3]; [1]; [2]] = Ok scores
    /\ Sensor.select 1 (Sensor.mk "heuristic" (Some 2) None) [1] [[3]; [1]; [2]] 5
       = Ok r
    /\ top_ranked scores (where_ge scores 2) 5 r
    /\ (forall i, In i r -> (i < 3)%nat /\ 2 <= at_ scores i)
    /\ ((forall i, (i < 3)%nat -> at_ scores i < 2) -> r = []).
Proof.
  apply (threshold_select_top_ranked 0 None 2 [1] [[3]; [1]; [2]] 5).
  repeat constructor.
Defined.

(** X3.  In learned mode with weights the sensor scores candidate [cv]
    by [dot(learned_weights, concatenate(query_vec, cv))] and returns the
    top of the stable descending ranking of all candidates; the
    threshold the sensor was built with plays no part.  It needs
    weights as long as the query and a candidate together. *)
Theorem learned_select_top_ranked :
  forall (depth : nat) (th : option Q) (w query_vec : list Q)
         (chunk_vecs : list (list Q)) (budget : Z),
    List.Forall (fun cv => length w = (length query_vec + length cv)%nat)
                chunk_vecs ->
    exists (scores : list Q) (r : list nat),
      traverse (fun cv => dot w (query_vec ++ cv)) chunk_vecs = Ok scores
      /\ Sensor.select (S depth) (Sensor.mk "learned" th (Some w))
           query_vec chunk_vecs budget = Ok r
      /\ top_ranked scores (seq 0 (length chunk_vecs)) budget r.
Proof.
  intros depth th w q cvs b Hdim.
  destruct (scores_of (fun cv => dot w (q ++ cv)) cvs) as (scores & Hs & Hlen).
  { rewrite List.Forall_forall in Hdim |- *. intros cv Hcv.
    apply ScoreTheory.dot_ok. rewrite List.length_app. apply Hdim, Hcv. }
  exists scores. eexists. split; [exact Hs |].
  cbn. rewrite Hs. cbn. split; [reflexivity |].
  rewrite Hlen. apply StableSortTheory.sorted_reverse_top_ranked.
  apply FilterTheory.seq_sorted.
Qed.

Lemma learned_select_top_ranked_witness :
  exists (scores : list Q) (r : list nat),
    traverse (fun cv => dot [1; 2] ([1] ++ cv)) [[3]; [1]; [2]] = Ok scores
    /\ Sensor.select 1 (Sensor.mk "learned" (Some 100) (Some [1; 2]))
         [1] [[3]; [1]; [2]] 2 = Ok r
    /\ top_ranked scores (seq 0 3) 2 r.
Proof.
  apply (learned_select_top_ranked 0 (Some 100) [1; 2] [1] [[3]; [1]; [2]] 2).
  repeat constructor.
Defined.

(** X4.  When the candidates arrive in non-increasing order of score,
    as a ranked retrieval hands them over, the heuristic sensor without
    a threshold selects the leading candidates in their order: the
    indices 0, 1, ... up to the budget. *)
Theorem heuristic_select_on_ranked_input :
  forall (depth : nat) (w : option (list Q)) (query_vec : list Q)
         (chunk_vecs : list (list Q)) (budget : Z) (scores : list Q),
    traverse (dot query_vec) chunk_vecs = Ok scores ->
    StronglySorted (fun x y => y <= x) scores ->
    (0 <= budget)%Z ->
    Sensor.select (S depth) (Sensor.mk "heuristic" None w)
      query_vec chunk_vecs budget
    = Ok (seq 0 (Nat.min (Z.to_nat budget) (length chunk_vecs))).
Proof.
  intros depth w q cvs b scores Hs Hsorted Hb.
  pose proof (ScoreTheory.traverse_length _ _ _ Hs) as Hlen.
  cbn. rewrite Hs. cbn. f_equal.
  rewrite SensorRankingTheory.sorted_reverse_id.
  - unfold slice_to. destruct (b <? 0)%Z eqn:E; [lia |].
    rewrite Hlen. clear.
    generalize (Z.to_nat b) as k. generalize 0%nat as a.
    induction (length cvs) as [| n IH]; intros a k.
    + rewrite Nat.min_0_r. destruct k; reflexivity.
    + destruct k; [reflexivity |]. cbn. f_equal. apply IH.
  - apply SensorRankingTheory.seq_sorted_by. intros i j _ Hij Hj.
    apply (NpTheory.StronglySorted_nth _ scores 0 Hsorted i j). lia.
Qed.

Lemma heuristic_select_on_ranked_input_witness :
  Sensor.select 1 (Sensor.mk "heuristic" None None) [1] [[3]; [2]; [2]; [1]] 2
  = Ok (seq 0 (Nat.min (Z.to_nat 2) 4)).
Proof.
  apply (heuristic_select_on_ranked_input 0 None [1] [[3]; [2]; [2]; [1]] 2
           [3 * 1 + 0; 2 * 1 + 0; 2 * 1 + 0; 1 * 1 + 0]).
  - reflexivity.
  - repeat constructor; discriminate.
  - lia.
Defined.

End SensorSelectTheory.

(** ** Scores of candidates of the wrong dimension *)

Module DimensionTheory.
Import Np.

Lemma dot_mismatch (a b : list Q) :
  length a <> length b -> dot a b = Raise (ValueError "shapes not aligned").
Proof.
  revert b. induction a as [| x a IH]; intros [| y b] H; simpl in *;
    try reflexivity; try congruence.
  rewrite IH; [reflexivity | congruence].
Qed.

Lemma traverse_raise {A B : Type} (f : A -> result B) (e : exn) (xs : list A) :
  (forall x, In x xs -> f x = Raise e \/ exists y, f x = Ok y) ->
  List.Exists (fun x => f x = Raise e) xs ->
  traverse f xs = Raise e.
Proof.
  induction xs as [| x xs IH]; intros Hall Hex; [inversion Hex |].
  simpl. destruct (Hall x (or_introl eq_refl)) as [Hx | [y Hx]]; rewrite Hx;
    [reflexivity |].
  simpl. rewrite IH; [reflexivity | |].
  - intros z Hz. apply Hall. right. exact Hz.
  - inversion Hex as [? ? H | ? ? H]; subst; [congruence | exact H].
Qed.

Lemma scores_mismatch {A : Type} (f : A -> list Q * list Q) (xs : list A) :
  List.Exists (fun x => length (fst (f x)) <> length (snd (f x))) xs ->
  traverse (fun x => dot (fst (f x)) (snd (f x))) xs
  = Raise (ValueError "shapes not aligned").
Proof.
  intros Hex. apply traverse_raise.
  - intros x _.
    destruct (Nat.eq_dec (length (fst (f x))) (length (snd (f x)))) as [E | E].
    + right. apply ScoreTheory.dot_ok, E.
    + left. apply dot_mismatch, E.
  - apply List.Exists_exists. apply List.Exists_exists in Hex as (x & Hx & Hne).
    exists x. split; [exact Hx | apply dot_mismatch, Hne].
Qed.

End DimensionTheory.

(** ** retriever.py *)

Module RetrieverTheory.
Import Np Refrag StableSpec.

Lemma omap_lookup {A : Type} (l : list A) (idxs : list nat) :
  (forall i, In i idxs -> (i < length l)%nat) ->
  Forall2 (fun i x => l !! i = Some x) idxs (omap (fun i => l !! i) idxs).
Proof.
  induction idxs as [| i idxs IH]; intros H; [constructor |].
  destruct (lookup_lt_is_Some_2 l i (H i (or_introl eq_refl))) as [x Hx].
  cbn. rewrite Hx. constructor; [exact Hx |].
  apply IH. intros j Hj. apply H. right. exact Hj.
Qed.

(** X5.  [SimpleRetriever.retrieve] on a corpus whose vectors have the
    dimension of the embedded query returns the passages at the
    best-scoring corpus positions: no position twice, in non-increasing
    order of dot-product score with equal scores in corpus order, every
    passage left out ranked behind every passage returned, and as many
    passages as the slice [[:k]] of the corpus has (min(k, N) for k of
    zero or more). *)
Theorem retrieve_top_k :
  forall (self : SimpleRetriever.t) (query : string) (k : Z) (qv : list Q),
    SimpleRetriever.embedder self query = Ok qv ->
    List.Forall (fun p => length (vector p) = length qv)
                (SimpleRetriever._corpus self) ->
    exists (scores : list Q) (idxs : list nat) (ps : list Passage),
      traverse (fun p => dot (vector p) qv) (SimpleRetriever._corpus self)
      = Ok scores
      /\ SimpleRetriever.retrieve self query k = Ok ps
      /\ Forall2 (fun i p => SimpleRetriever._corpus self !! i = Some p) idxs ps
      /\ top_ranked scores (seq 0 (length (SimpleRetriever._corpus self))) k idxs.
Proof.
  intros self query k qv Hq Hdim.
  destruct (ScoreTheory.traverse_ok (fun p => dot (vector p) qv)
              (SimpleRetriever._corpus self)) as [scores Hs].
  { rewrite List.Forall_forall in Hdim |- *. intros p Hp.
    apply ScoreTheory.dot_ok, Hdim, Hp. }
  pose proof (ScoreTheory.traverse_length _ _ _ Hs) as Hlen.
  pose proof (StableSortTheory.sorted_reverse_top_ranked scores
                (seq 0 (length scores)) k (FilterTheory.seq_sorted _ _)) as Htop.
  exists scores. eexists. eexists. split; [exact Hs |].
  unfold SimpleRetriever.retrieve, SimpleRetriever.embed_query.
  rewrite Hq. cbn [rbind]. rewrite Hs. cbn [rbind].
  split; [reflexivity |]. split.
  - apply omap_lookup. intros i Hi.
    destruct Htop as (_ & Hin & _). apply Hin, in_seq in Hi. lia.
  - rewrite <- Hlen. exact Htop.
Qed.

Lemma retrieve_top_k_witness :
  exists (scores : list Q) (idxs : list nat) (ps : list Passage),
    traverse (fun p => dot (vector p) [1; 1]) PipelineSpec.three_passages
    = Ok scores
    /\ SimpleRetriever.retrieve
         (SimpleRetriever.mk PipelineSpec.three_passages (fun _ => Ok [1; 1]))
         "Tell me about dogs" 2 = Ok ps
    /\ Forall2 (fun i p => PipelineSpec.three_passages !! i = Some p) idxs ps
    /\ top_ranked scores (seq 0 3) 2 idxs.
Proof.
  apply (retrieve_top_k
           (SimpleRetriever.mk PipelineSpec.three_passages (fun _ => Ok [1; 1]))
           "Tell me about dogs" 2 [1; 1]).
  - reflexivity.
  - repeat constructor.
Defined.

(** X6.  A single corpus passage whose vector has another dimension
    than the embedded query makes [retrieve] raise the [ValueError] of
    [np.dot], whatever [k] is; no shorter result is returned. *)
Theorem retrieve_dimension_mismatch :
  forall (self : SimpleRetriever.t) (query : string) (k : Z) (qv : list Q),
    SimpleRetriever.embedder self query = Ok qv ->
    List.Exists (fun p => length (vector p) <> length qv)
                (SimpleRetriever._corpus self) ->
    exists msg : string,
      SimpleRetriever.retrieve self query k = Raise (ValueError msg).
Proof.
  intros self query k qv Hq Hex.
  unfold SimpleRetriever.retrieve, SimpleRetriever.embed_query.
  rewrite Hq. cbn [rbind].
  pose proof (DimensionTheory.scores_mismatch (fun p => (vector p, qv))
                (SimpleRetriever._corpus self) Hex) as E.
  cbn [fst snd] in E. rewrite E.
  eexists. reflexivity.
Qed.

Lemma retrieve_dimension_mismatch_witness :
  exists msg : string,
    SimpleRetriever.retrieve
      (SimpleRetriever.mk PipelineSpec.three_passages (fun _ => Ok [1]))
      "q" 0 = Raise (ValueError msg).
Proof.
  apply (retrieve_dimension_mismatch
           (SimpleRetriever.mk PipelineSpec.three_passages (fun _ => Ok [1]))
           "q" 0 [1]).
  - reflexivity.
  - constructor. cbn. lia.
Defined.

End RetrieverTheory.

(** ** sensor_advanced.py: scores, the first MMR pick, the adaptive threshold *)

Module AdvancedScoresTheory.
Import Np AdvancedSensor RankingSpec.

Lemma traverse_lookup {A B : Type} (f : A -> result B) (d : B) (xs : list A) :
  forall (ys : list B) (i : nat) (x : A),
    traverse f xs = Ok ys -> xs !! i = Some x -> f x = Ok (nth i ys d).
Proof.
  induction xs as [| x0 xs IH]; intros ys i x Hys Hi; [discriminate |].
  simpl in Hys. destruct (f x0) as [y0 |] eqn:E0; [| discriminate].
  simpl in Hys. destruct (traverse f xs) as [ys' |] eqn:E; [| discriminate].
  simpl in Hys. injection Hys as <-.
  destruct i as [| i]; simpl in *.
  - injection Hi as <-. exact E0.
  - apply (IH ys' i x eq_refl Hi).
Qed.

(** X7.  [get_scores] returns one dot product per candidate, in order,
    exactly when every candidate has the dimension of the query; one
    candidate of another dimension makes the whole call raise the
    [ValueError] of [np.dot].  An empty candidate list gives an empty
    array. *)
Theorem get_scores_spec :
  forall (query_vec : list Q) (chunk_vecs : list (list Q)),
    match get_scores query_vec chunk_vecs with
    | Ok scores =>
        List.Forall (fun cv => length cv = length query_vec) chunk_vecs
        /\ length scores = length chunk_vecs
        /\ (forall (i : nat) (cv : list Q),
              chunk_vecs !! i = Some cv -> dot query_vec cv = Ok (at_ scores i))
    | Raise e =>
        List.Exists (fun cv => length cv <> length query_vec) chunk_vecs
        /\ e = ValueError "shapes not aligned"
    end.
Proof.
  intros q cvs. unfold get_scores.
  destruct (_compute_similarities q cvs) as [scores | e] eqn:E.
  - destruct (MmrTheory.similarities_dims q cvs scores E) as [Hdim Hlen].
    repeat split; [exact Hdim | exact Hlen |].
    intros i cv Hi. apply (traverse_lookup (dot q) 0 cvs scores i cv E Hi).
  - assert (Hex : List.Exists (fun cv => length cv <> length q) cvs).
    { apply List.Exists_exists.
      destruct (List.Forall_Exists_dec (fun cv => length cv = length q)
                  (fun cv => Nat.eq_dec (length cv) (length q)) cvs) as [H | H].
      - destruct (ScoreTheory.similarities_ok q cvs H) as (s & Hs & _).
        congruence.
      - apply List.Exists_exists in H. exact H. }
    split; [exact Hex |].
    assert (Hex' : List.Exists (fun cv => length (fst (q, cv)) <> length (snd (q, cv))) cvs).
    { apply List.Exists_exists. apply List.Exists_exists in Hex as (cv & Hcv & Hne).
      exists cv. split; [exact Hcv |]. cbn [fst snd]. intros Eq. apply Hne.
      symmetry. exact Eq. }
    pose proof (DimensionTheory.scores_mismatch (fun cv => (q, cv)) cvs Hex') as R.
    cbn [fst snd] in R. unfold _compute_similarities in E.
    pose proof (eq_trans (eq_sym E) R) as X. injection X as ->. reflexivity.
Qed.

Lemma mmr_loop_prefix (sims : list Q) (pw : list (list Q)) (lam : Q) :
  forall (rounds : nat) (sel rem r : list nat),
    mmr_loop rounds sims pw lam sel rem = Ok r ->
    exists rest : list nat, r = sel ++ rest.
Proof.
  induction rounds as [| n IH]; intros sel rem r H.
  - injection H as <-. exists []. rewrite app_nil_r. reflexivity.
  - cbn [mmr_loop] in H. destruct rem as [| r0 rem'].
    + injection H as <-. exists []. rewrite app_nil_r. reflexivity.
    + destruct (argmax (mmr_scores sims pw lam sel (r0 :: rem'))) as [k |];
        [| discriminate].
      cbn [rbind] in H. apply IH in H as [rest ->].
      exists (nth k (r0 :: rem') O :: rest). rewrite <- app_assoc. reflexivity.
Qed.

(** X8.  Whatever the diversity weight, also zero, the first index MMR
    returns is the candidate most similar to the query, the lowest index
    among equally similar ones: diversity only bears on the picks after
    the first. *)
Theorem mmr_first_pick_is_most_similar :
  forall (c : SelectionConfig) (query_vec : list Q)
         (chunk_vecs : list (list Q)) (budget : Z),
    chunk_vecs <> [] ->
    List.Forall (fun cv => length cv = length query_vec) chunk_vecs ->
    (0 < budget)%Z ->
    exists (scores : list Q) (top : nat) (rest : list nat),
      get_scores query_vec chunk_vecs = Ok scores
      /\ _select_mmr c query_vec chunk_vecs budget = Ok (top :: rest)
      /\ (top < length chunk_vecs)%nat
      /\ (forall j, (j < length chunk_vecs)%nat -> at_ scores j <= at_ scores top)
      /\ (forall j, (j < top)%nat -> at_ scores j < at_ scores top).
Proof.
  intros c q cvs b Hne Hdim Hb.
  destruct (ScoreTheory.similarities_ok q cvs Hdim) as (scores & Hs & Hlen).
  destruct (ScoreTheory.gram_ok q cvs Hdim) as [pw Hpw].
  assert (Hsne : scores <> []).
  { destruct scores; [| discriminate]. destruct cvs; [contradiction | discriminate]. }
  destruct (MmrTheory.argmax_spec scores Hsne) as (k & Hk & Hlt & Hmax & Hfirst).
  exists scores, k.
  unfold _select_mmr, get_scores. rewrite Hs. cbn [rbind]. rewrite Hpw. cbn [rbind].
  destruct (Z.to_nat b) as [| n] eqn:En; [lia |].
  rewrite <- Hlen.
  assert (Hrem : seq 0 (length scores) <> []).
  { destruct scores; [contradiction | discriminate]. }
  cbn [mmr_loop]. destruct (seq 0 (length scores)) as [| r0 rem'] eqn:Eseq;
    [contradiction |].
  rewrite <- Eseq. cbn [mmr_scores]. rewrite SimilarityTheory.take_at_seq, Hk.
  cbn [rbind]. rewrite seq_nth by exact Hlt. cbn [Nat.add app].
  destruct (MmrTheory.mmr_loop_spec scores pw (diversity_lambda c) n [k]
              (remove_first k (seq 0 (length scores)))) as (r & Hr & _).
  { change ([k] ++ remove_first k (seq 0 (length scores)))
      with (k :: remove_first k (seq 0 (length scores))).
    apply (Permutation_NoDup
             (Permutation_sym (MmrTheory.remove_first_perm k _
                                 (proj2 (in_seq _ _ _) (conj (Nat.le_0_l k) Hlt))))).
    apply seq_NoDup. }
  destruct (mmr_loop_prefix _ _ _ _ _ _ _ Hr) as [rest ->].
  exists rest. repeat split; [exact Hr | exact Hlt | exact Hmax | exact Hfirst].
Qed.

Lemma mmr_first_pick_is_most_similar_witness :
  exists (scores : list Q) (top : nat) (rest : list nat),
    get_scores [1; 0] [[1; 1]; [3; 0]; [3; 0]] = Ok scores
    /\ _select_mmr (mkSelectionConfig MMR 0 1 None (3 # 4) None) [1; 0]
         [[1; 1]; [3; 0]; [3; 0]] 2 = Ok (top :: rest)
    /\ (top < 3)%nat
    /\ (forall j, (j < 3)%nat -> at_ scores j <= at_ scores top)
    /\ (forall j, (j < top)%nat -> at_ scores j < at_ scores top).
Proof.
  apply (mmr_first_pick_is_most_similar (mkSelectionConfig MMR 0 1 None (3 # 4) None)
           [1; 0] [[1; 1]; [3; 0]; [3; 0]] 2).
  - discriminate.
  - repeat constructor.
  - lia.
Defined.

End AdvancedScoresTheory.

(** ** sensor_advanced.py: the adaptive threshold *)

Module AdaptiveTheory.
Import Np AdvancedSensor RankingSpec.

Lemma insert_val_perm (x : Q) (l : list Q) :
  Permutation (insert_val x l) (x :: l).
Proof.
  induction l as [| y l IH]; simpl; [reflexivity |].
  destruct (Qltb x y); [reflexivity |].
  rewrite IH. apply perm_swap.
Qed.

Lemma sort_perm (s : list Q) : Permutation (sort s) s.
Proof.
  unfold sort.
  assert (H : forall acc,
             Permutation (fold_left (fun acc x => insert_val x acc) s acc)
                         (acc ++ s)).
  { induction s as [| x s IH]; intros acc; simpl.
    - rewrite app_nil_r. reflexivity.
    - rewrite IH, insert_val_perm.
      change (x :: acc ++ s) with ((x :: acc) ++ s).
      rewrite (Permutation_cons_append acc x), <- app_assoc. reflexivity. }
  apply (H []).
Qed.

Lemma sorted_entry (s : list Q) (k : nat) :
  (k < length s)%nat ->
  exists i : nat, (i < length s)%nat /\ at_ s i = at_ (sort s) k.
Proof.
  intros Hk.
  assert (Hin : In (at_ (sort s) k) s).
  { apply (Permutation_in _ (sort_perm s)). apply nth_In.
    rewrite (Permutation_length (sort_perm s)). exact Hk. }
  destruct (In_nth s _ 0 Hin) as (i & Hi & E). exists i. split; assumption.
Qed.

(** The interpolated percentile never exceeds every score. *)
Lemma percentile_reached (s : list Q) (p t : Q) :
  0 <= p <= 1 -> percentile s (p * 100) = Ok t ->
  exists i : nat, (i < length s)%nat /\ t <= at_ s i.
Proof.
  intros Hp Ht. unfold percentile in Ht.
  assert (H1 : Qltb (p * 100) 0 = false) by (apply Qltb_ge; lra).
  assert (H2 : Qltb 100 (p * 100) = false) by (apply Qltb_ge; lra).
  rewrite H1, H2 in Ht. change (false || false) with false in Ht.
  destruct s as [| x s']; [discriminate |].
  remember (x :: s') as s eqn:Es.
  assert (Hn : (0 < length s)%nat) by (rewrite Es; simpl; lia).
  apply (f_equal (fun r => match r with Ok v => v | Raise _ => 0 end)) in Ht.
  set (N := inject_Z (Z.of_nat (length s - 1))) in *.
  set (vi := p * 100 / 100 * N) in *.
  assert (HN : 0 <= N).
  { unfold N. change 0 with (inject_Z 0). rewrite <- Zle_Qle. lia. }
  assert (EP : p * 100 / 100 == p) by (field).
  assert (Evi : vi == p * N) by (unfold vi; rewrite EP; reflexivity).
  assert (Hvi0 : 0 <= vi).
  { rewrite Evi. apply Qmult_le_0_compat; [apply Hp | exact HN]. }
  assert (HviN : vi <= N).
  { assert (p * N <= 1 * N) by (apply Qmult_le_compat_r; [apply Hp | exact HN]).
    lra. }
  assert (Hf0 : (0 <= Qfloor vi)%Z).
  { change 0%Z with (Qfloor 0). apply Qfloor_resp_le, Hvi0. }
  assert (HfN : (Qfloor vi <= Z.of_nat (length s - 1))%Z).
  { rewrite <- (Qfloor_Z (Z.of_nat (length s - 1))).
    apply Qfloor_resp_le, HviN. }
  set (lo := Z.to_nat (Qfloor vi)) in *.
  assert (Elo : inject_Z (Z.of_nat lo) = inject_Z (Qfloor vi)).
  { unfold lo. rewrite Z2Nat.id by exact Hf0. reflexivity. }
  rewrite Elo in Ht.
  pose proof (Qfloor_le vi) as Hg0.
  pose proof (Qlt_floor vi) as Hg1.
  rewrite inject_Z_plus in Hg1. change (inject_Z 1) with 1 in Hg1.
  assert (Hlo : (lo < length s)%nat) by (unfold lo; lia).
  assert (Hhi : (Nat.min (S lo) (length s - 1) < length s)%nat) by lia.
  destruct (sorted_entry s lo Hlo) as (i & Hi & Ei).
  destruct (sorted_entry s _ Hhi) as (j & Hj & Ej).
  set (g := vi - inject_Z (Qfloor vi)) in *.
  assert (Hg : 0 <= g /\ g <= 1) by (unfold g; lra).
  rewrite <- Ei, <- Ej in Ht.
  destruct (Qlt_le_dec (at_ s j) (at_ s i)) as [Hlt | Hle].
  - exists i. split; [exact Hi |]. rewrite <- Ht.
    assert (Hm : 0 <= (at_ s i - at_ s j) * g)
      by (apply Qmult_le_0_compat; lra).
    lra.
  - exists j. split; [exact Hj |]. rewrite <- Ht.
    assert (Hm : 0 <= (at_ s j - at_ s i) * (1 - g))
      by (apply Qmult_le_0_compat; lra).
    lra.
Qed.

(** X9.  On a non-empty candidate list the adaptive strategy computes a
    threshold that at least one candidate reaches, so that its top-1
    fallback branch is never taken; it returns min(budget, M) indices,
    M being the number of candidates that reach the threshold, each of
    them in range and scoring at least the threshold, hence at least
    one index for a positive budget. *)
Theorem adaptive_selects_at_or_above_percentile :
  forall (c : SelectionConfig) (query_vec : list Q)
         (chunk_vecs : list (list Q)) (budget : Z),
    chunk_vecs <> [] ->
    List.Forall (fun cv => length cv = length query_vec) chunk_vecs ->
    0 <= adaptive_percentile c <= 1 ->
    (0 < budget)%Z ->
    exists (scores : list Q) (t : Q) (r : list nat),
      get_scores query_vec chunk_vecs = Ok scores
      /\ percentile scores (adaptive_percentile c * 100) = Ok t
      /\ _select_adaptive c query_vec chunk_vecs budget = Ok r
      /\ where_ge scores t <> []
      /\ length r = Nat.min (Z.to_nat budget) (length (where_ge scores t))
      /\ r <> []
      /\ List.NoDup r
      /\ (forall i, In i r -> (i < length chunk_vecs)%nat /\ t <= at_ scores i).
Proof.
  intros c q cvs b Hne Hdim Hp Hb.
  destruct (ScoreTheory.similarities_ok q cvs Hdim) as (scores & Hs & Hlen).
  assert (Hsne : scores <> []).
  { destruct scores; [| discriminate]. destruct cvs; [contradiction | discriminate]. }
  destruct (StrategyTheory.percentile_ok scores (adaptive_percentile c) Hsne Hp)
    as [t Ht].
  destruct (percentile_reached scores (adaptive_percentile c) t Hp Ht)
    as (i0 & Hi0 & Hge0).
  assert (Hv : In i0 (where_ge scores t))
    by (apply FilterTheory.where_ge_In; split; assumption).
  exists scores, t.
  unfold _select_adaptive, get_scores. rewrite Hs. cbn [rbind]. rewrite Ht.
  cbn [rbind].
  destruct (StrategyTheory.filtered_ranking_well_formed scores
              (where_ge scores t) b (FilterTheory.where_ge_sorted scores t))
    as [(Hnd & Hin & _) Hl].
  { intros i Hi. apply FilterTheory.where_ge_In in Hi. apply Hi. }
  { lia. }
  destruct (where_ge scores t) as [| v valid] eqn:Ev; [destruct Hv |].
  rewrite <- Ev in *.
  exists (filtered_ranking scores (where_ge scores t) b).
  split; [reflexivity |]. split; [reflexivity |]. split; [reflexivity |].
  split; [rewrite Ev; discriminate |].
  split; [exact Hl |].
  split.
  { intros E. rewrite E in Hl. rewrite Ev in Hl. simpl in Hl. lia. }
  split; [exact Hnd |].
  intros i Hi. apply FilterTheory.filtered_ranking_In in Hi.
  apply FilterTheory.where_ge_In in Hi. rewrite <- Hlen. exact Hi.
Qed.

Lemma adaptive_selects_at_or_above_percentile_witness :
  exists (scores : list Q) (t : Q) (r : list nat),
    get_scores [1] [[1]; [2]; [3]] = Ok scores
    /\ percentile scores (adaptive_percentile (default_config ADAPTIVE) * 100)
       = Ok t
    /\ _select_adaptive (default_config ADAPTIVE) [1] [[1]; [2]; [3]] 2 = Ok r
    /\ where_ge scores t <> []
    /\ length r = Nat.min (Z.to_nat 2) (length (where_ge scores t))
    /\ r <> []
    /\ List.NoDup r
    /\ (forall i, In i r -> (i < 3)%nat /\ t <= at_ scores i).
Proof.
  apply (adaptive_selects_at_or_above_percentile (default_config ADAPTIVE)
           [1] [[1]; [2]; [3]] 2).
  - discriminate.
  - repeat constructor.
  - split; discriminate.
  - lia.
Defined.

End AdaptiveTheory.

(** ** refrag.py: failures during a pipeline run *)

Module RefragErrorTheory.
Import Refrag PipelineSpec.

Lemma passage_lines_ok (str_other : pyval -> string)
    (ds : list (gmap string pyval)) :
  List.Forall (fun d => is_Some (d !! "text")) ds ->
  forall i : nat, exists lines, passage_lines str_other i ds = Ok lines.
Proof.
  induction 1 as [| d ds [t Ht] _ IH]; intros i; simpl.
  - eexists. reflexivity.
  - unfold passage_line. rewrite Ht. cbn [rbind].
    destruct (IH (S i)) as [lines ->]. eexists. reflexivity.
Qed.

Lemma passage_lines_raise (str_other : pyval -> string)
    (ds : list (gmap string pyval)) :
  List.Exists (fun d => d !! "text" = None) ds ->
  forall i : nat, passage_lines str_other i ds = Raise (KeyError "text").
Proof.
  induction ds as [| d ds IH]; intros Hex i; [inversion Hex |].
  simpl. unfold passage_line.
  destruct (d !! "text") as [t |] eqn:Ht; [| reflexivity].
  cbn [rbind]. rewrite IH; [reflexivity |].
  inversion Hex as [? ? H | ? ? H]; subst; [congruence | exact H].
Qed.

(** The dictionaries a run hands back, read through its heap: the copy
    for candidate [j] holds what the candidate's own dictionary held,
    with the [selected] entry set by default. *)
Lemma annotated_copies (sel : list nat) (passages : list Passage) (h : heap)
    (ls : list loc) (h' : heap) :
  List.Forall (fun p => is_Some (h !! metadata p)) passages ->
  attach sel O (map metadata passages) h = Ok (ls, h') ->
  length ls = length passages
  /\ forall (j : nat) (p : Passage),
       passages !! j = Some p ->
       exists d : gmap string pyval,
         h !! metadata p = Some d
         /\ deref h' ls !! j = Some (annotated d (chosen sel j)).
Proof.
  intros Hall Ha.
  destruct (RefragTheory.attach_spec sel (map metadata passages) O h)
    as (ls0 & h0 & Ha0 & Hlen & _ & _ & _ & Hpos).
  { rewrite List.Forall_forall in Hall |- *. intros m Hm.
    apply in_map_iff in Hm as (p & <- & Hp). apply Hall, Hp. }
  rewrite Ha in Ha0. injection Ha0 as <- <-.
  rewrite List.length_map in Hlen. split; [exact Hlen |].
  intros j p Hj.
  destruct (Hpos j (metadata p)) as (d & l & Hd & Hl & Hh').
  { rewrite list_lookup_fmap, Hj. reflexivity. }
  exists d. split; [exact Hd |].
  unfold deref. change (map ?f ls) with (f <$> ls).
  rewrite list_lookup_fmap, Hl. simpl. rewrite Hh'. reflexivity.
Qed.

Lemma deref_In (sel : list nat) (passages : list Passage) (h : heap)
    (ls : list loc) (h' : heap) (d' : gmap string pyval) :
  List.Forall (fun p => is_Some (h !! metadata p)) passages ->
  attach sel O (map metadata passages) h = Ok (ls, h') ->
  In d' (deref h' ls) ->
  exists (j : nat) (p : Passage) (d : gmap string pyval),
    passages !! j = Some p /\ h !! metadata p = Some d
    /\ d' = annotated d (chosen sel j).
Proof.
  intros Hall Ha Hin.
  destruct (annotated_copies sel passages h ls h' Hall Ha) as [Hlen Hpos].
  apply list_elem_of_In, list_elem_of_lookup in Hin as [j Hj].
  assert (Hlt : (j < length passages)%nat).
  { apply lookup_lt_Some in Hj. unfold deref in Hj.
    rewrite List.length_map in Hj. lia. }
  destruct (lookup_lt_is_Some_2 passages j Hlt) as [p Hp].
  destruct (Hpos j p Hp) as (d & Hd & Hj').
  exists j, p, d. repeat split; [exact Hp | exact Hd | congruence].
Qed.

(** X10.  A language model call that raises does not make the run fail:
    when retrieval, embedding and selection succeed and every candidate's
    metadata holds a [text] entry, [forward] returns a context whose
    answer is the text "Error calling LM: " followed by the message of
    the exception, with the vectors and one metadata copy per candidate
    as in a run that succeeds. *)
Theorem forward_reports_lm_failure :
  forall (str_other : pyval -> string) (self : REFRAGModule) (query : string)
         (h : heap) (passages : list Passage) (qv : list Q) (sel : list nat)
         (call : string -> result response) (e : exn),
    retrieve self query (k self) = Ok passages ->
    embed_query self query = Ok qv ->
    sensor_select self qv (map vector passages) (budget self) = Ok sel ->
    List.Forall (fun p => exists d, h !! metadata p = Some d
                                    /\ is_Some (d !! "text")) passages ->
    lm self = Some call ->
    (forall prompt : string, call prompt = Raise e) ->
    exists (ctx : REFRAGContext) (h' : heap),
      forward str_other self query h = Ok (ctx, h')
      /\ answer ctx = Some ("Error calling LM: " ++ exn_message e)%string
      /\ Refrag.query ctx = query
      /\ chunk_vectors ctx = map vector passages
      /\ length (chunk_metadata ctx) = length passages.
Proof.
  intros str_other self query h passages qv sel call e Hr He Hs Hall Hlm Hcall.
  assert (Hall' : List.Forall (fun p => is_Some (h !! metadata p)) passages).
  { eapply List.Forall_impl; [| exact Hall]. intros p (d & Hd & _).
    exists d. exact Hd. }
  destruct (RefragTheory.forward_shape str_other self query h passages qv sel
              Hr He Hs Hall') as (ls & h' & Ha & Hfw).
  rewrite Hlm in Hfw.
  destruct (annotated_copies sel passages h ls h' Hall' Ha) as [Hlen _].
  destruct (passage_lines_ok str_other (deref h' ls)) with (i := O)
    as [lines Hlines].
  { rewrite List.Forall_forall. intros d' Hd'.
    destruct (deref_In sel passages h ls h' d' Hall' Ha Hd')
      as (j & p & d & Hp & Hd & ->).
    rewrite List.Forall_forall in Hall.
    destruct (Hall p) as (d0 & Hd0 & Ht).
    { apply list_elem_of_In, list_elem_of_lookup. exists j. exact Hp. }
    assert (d0 = d) by congruence. subst d0.
    rewrite RefragTheory.annotated_other by discriminate. exact Ht. }
  unfold context_str in Hfw. rewrite Hlines in Hfw. cbn [rbind] in Hfw.
  rewrite Hcall in Hfw.
  eexists. eexists. split; [exact Hfw |].
  cbn. repeat split. exact Hlen.
Qed.

Lemma forward_reports_lm_failure_witness :
  exists (ctx : REFRAGContext) (h' : heap),
    forward (fun _ => "")
      (example_module (Some (fun _ => Raise (RuntimeError "rate limit"))))
      "q" two_heap = Ok (ctx, h')
    /\ answer ctx
       = Some ("Error calling LM: " ++ exn_message (RuntimeError "rate limit"))%string
    /\ Refrag.query ctx = "q"
    /\ chunk_vectors ctx = map vector example_passages
    /\ length (chunk_metadata ctx) = length example_passages.
Proof.
  apply (forward_reports_lm_failure (fun _ => "")
           (example_module (Some (fun _ => Raise (RuntimeError "rate limit"))))
           "q" two_heap example_passages [1] [1%nat]
           (fun _ => Raise (RuntimeError "rate limit"))
           (RuntimeError "rate limit")).
  - reflexivity.
  - reflexivity.
  - reflexivity.
  - repeat constructor.
    + exists {["text" := PStr "alpha"]}. split.
      * unfold two_heap. apply lookup_insert_eq.
      * exists (PStr "alpha"). apply lookup_singleton_eq.
    + exists {["text" := PStr "beta"]}. split.
      * unfold two_heap. rewrite lookup_insert_ne by discriminate.
        apply lookup_insert_eq.
      * exists (PStr "beta"). apply lookup_singleton_eq.
  - reflexivity.
  - reflexivity.
Defined.

(** X11.  With a language model configured, a retrieved candidate whose
    metadata has no [text] entry makes [forward] raise [KeyError('text')]:
    the context block is built outside the guarded model call.  The same
    run without a language model succeeds. *)
Theorem forward_needs_text_entries :
  forall (str_other : pyval -> string) (self : REFRAGModule) (query : string)
         (h : heap) (passages : list Passage) (qv : list Q) (sel : list nat)
         (call : string -> result response),
    retrieve self query (k self) = Ok passages ->
    embed_query self query = Ok qv ->
    sensor_select self qv (map vector passages) (budget self) = Ok sel ->
    List.Forall (fun p => is_Some (h !! metadata p)) passages ->
    List.Exists (fun p => exists d, h !! metadata p = Some d
                                    /\ d !! "text" = None) passages ->
    lm self = Some call ->
    forward str_other self query h = Raise (KeyError "text")
    /\ exists (ctx : REFRAGContext) (h' : heap),
         forward str_other
           (mkModule (retrieve self) (embed_query self) (sensor_select self)
                     None (k self) (budget self))
           query h = Ok (ctx, h')
         /\ answer ctx = None.
Proof.
  intros str_other self query h passages qv sel call Hr He Hs Hall Hex Hlm.
  destruct (RefragTheory.forward_shape str_other self query h passages qv sel
              Hr He Hs Hall) as (ls & h' & Ha & Hfw).
  split.
  - rewrite Hlm in Hfw.
    destruct (annotated_copies sel passages h ls h' Hall Ha) as [Hlen Hpos].
    unfold context_str in Hfw.
    rewrite (passage_lines_raise str_other (deref h' ls)) in Hfw;
      [exact Hfw |].
    apply List.Exists_exists in Hex as (p & Hp & d & Hd & Ht).
    apply list_elem_of_In, list_elem_of_lookup in Hp as [j Hj].
    destruct (Hpos j p Hj) as (d0 & Hd0 & Hj').
    assert (d0 = d) by congruence. subst d0.
    apply List.Exists_exists. exists (annotated d (chosen sel j)). split.
    + apply list_elem_of_In, list_elem_of_lookup. exists j. exact Hj'.
    + rewrite RefragTheory.annotated_other by discriminate. exact Ht.
  - destruct (RefragTheory.forward_shape str_other
                (mkModule (retrieve self) (embed_query self)
                          (sensor_select self) None (k self) (budget self))
                query h passages qv sel Hr He Hs Hall) as (ls2 & h2 & _ & Hfw2).
    cbn [lm] in Hfw2. eexists. eexists. split; [exact Hfw2 | reflexivity].
Qed.

Lemma forward_needs_text_entries_witness :
  forward (fun _ => "")
    (mkModule (fun _ _ => Ok three_passages) (fun _ => Ok [1; 1])
              (Sensor.select 1 Sensor.default) (Some echo) 3 1)
    "q" three_heap = Raise (KeyError "text")
  /\ exists (ctx : REFRAGContext) (h' : heap),
       forward (fun _ => "")
         (mkModule (fun _ _ => Ok three_passages) (fun _ => Ok [1; 1])
                   (Sensor.select 1 Sensor.default) None 3 1)
         "q" three_heap = Ok (ctx, h')
       /\ answer ctx = None.
Proof.
  apply (forward_needs_text_entries (fun _ => "")
           (mkModule (fun _ _ => Ok three_passages) (fun _ => Ok [1; 1])
                     (Sensor.select 1 Sensor.default) (Some echo) 3 1)
           "q" three_heap three_passages [1; 1] [2%nat] echo).
  - reflexivity.
  - reflexivity.
  - reflexivity.
  - repeat constructor.
    + exists {["id" := PStr "a"]}. unfold three_heap. apply lookup_insert_eq.
    + exists {["id" := PStr "b"]}. unfold three_heap.
      rewrite lookup_insert_ne by discriminate. apply lookup_insert_eq.
    + exists {["id" := PStr "c"]}. unfold three_heap.
      rewrite lookup_insert_ne by discriminate.
      rewrite lookup_insert_ne by discriminate. apply lookup_insert_eq.
  - constructor. exists {["id" := PStr "a"]}. split.
    + unfold three_heap. apply lookup_insert_eq.
    + apply lookup_singleton_ne. discriminate.
  - reflexivity.
Defined.

End RefragErrorTheory.

(** ** The codecs on batches, and what decoding guarantees *)

Module CodecBatchTheory.
Import Serializer CodecSpec.





Lemma ints_fit_floats (e : list Q) : forallb ints_fit (map PFloat e) = true.
Proof. induction e; simpl; [reflexivity | assumption]. Qed.

Lemma ints_fit_to_dict (f : Fragment) :
  ints_fit (to_dict f) = ints_fit (PDict (metadata f)).
Proof.
  unfold to_dict, dict_of.
  change (ints_fit (PList (map PFloat (embedding f)))
          && (ints_fit (PDict (metadata f))
              && (ints_fit (opt_str (parent_doc_id f)) && true))
          = ints_fit (PDict (metadata f))).
  change (ints_fit (PList (map PFloat (embedding f))))
    with (forallb ints_fit (map PFloat (embedding f))).
  rewrite ints_fit_floats.
  destruct (parent_doc_id f); simpl; rewrite !andb_true_r; reflexivity.
Qed.

Lemma ints_fit_batch (fs : list Fragment) :
  ints_fit (PList (map to_dict fs))
  = forallb (fun f => ints_fit (PDict (metadata f))) fs.
Proof.
  change (ints_fit (PList (map to_dict fs)))
    with (forallb ints_fit (map to_dict fs)).
  induction fs as [| f fs IH]; [reflexivity |].
  cbn [map forallb]. rewrite IH, ints_fit_to_dict. reflexivity.
Qed.









(** X14.  MessagePack encodes a batch as one value: a single fragment
    whose metadata holds an integer outside the 64-bit range makes
    [serialize_fragments] raise [OverflowError] for the whole batch. *)
Theorem msgpack_batch_overflow :
  forall fragments : list Fragment,
    List.Exists (fun f => ints_fit (PDict (metadata f)) = false) fragments ->
    MsgPackSerializer.serialize_fragments fragments
    = Raise (OverflowError "Integer value out of range").
Proof.
  intros fs Hex.
  unfold MsgPackSerializer.serialize_fragments, Msgpack.packb.
  rewrite ints_fit_batch.
  destruct (forallb _ fs) eqn:E; [| reflexivity].
  rewrite forallb_forall in E.
  apply List.Exists_exists in Hex as (f & Hf & Hfit).
  rewrite (E f Hf) in Hfit. discriminate.
Qed.

Lemma msgpack_batch_overflow_witness :
  MsgPackSerializer.serialize_fragments [sample_fragment; BatchSpec.wide_fragment]
  = Raise (OverflowError "Integer value out of range").
Proof.
  apply (msgpack_batch_overflow [sample_fragment; BatchSpec.wide_fragment]).
  apply List.Exists_cons_tl. apply List.Exists_cons_hd. reflexivity.
Defined.

End CodecBatchTheory.

(** ** serializer_unified.py and serializer_vector.py *)

Module UnifiedTheory.
Import Serializer CodecSpec BatchSpec.

Lemma init_inv (avail : bool) (df : string) (self : UnifiedSerializer.t) :
  UnifiedSerializer.__init__ avail df = Ok self ->
  avail = true /\ In df UnifiedSerializer.SUPPORTED_FORMATS
  /\ self = UnifiedSerializer.mk df JSONFragmentSerializer.default (Some tt).
Proof.
  unfold UnifiedSerializer.__init__.
  destruct (existsb (String.eqb df) UnifiedSerializer.SUPPORTED_FORMATS) eqn:E;
    [| discriminate].
  cbn [negb UnifiedSerializer._HAS_MSGPACK]. unfold MsgPackSerializer.new.
  destruct avail; [| discriminate]. cbn [rbind]. intros H. injection H as <-.
  split; [reflexivity |]. split; [| reflexivity].
  apply existsb_exists in E as (x & Hx & Heq).
  apply String.eqb_eq in Heq. subst x. exact Hx.
Qed.

(** X15.  Without the [msgpack] package no [UnifiedSerializer] can be
    built, not even one for JSON or pickle: the constructor builds a
    [MsgPackSerializer] whenever serializer_msgpack.py was imported,
    which it always is, and that constructor raises [RuntimeError].
    [VectorAwareSerializer], which every [REFRAGModule] builds, fails
    with it.  Hence a serializer that was built holds a MessagePack
    codec, and the [msgpack not available] branches of [serialize] and
    [deserialize] are not reached through the constructor. *)
Theorem unified_serializer_needs_msgpack :
  forall default_format : string,
    (forall self, UnifiedSerializer.__init__ false default_format <> Ok self)
    /\ (forall self,
          VectorAwareSerializer.__init__ false default_format <> Ok self)
    /\ (In default_format UnifiedSerializer.SUPPORTED_FORMATS ->
        UnifiedSerializer.__init__ false default_format
        = Raise (RuntimeError "msgpack not available. Install with: uv add msgpack"))
    /\ (forall (MSGPACK_AVAILABLE : bool) (self : UnifiedSerializer.t),
          UnifiedSerializer.__init__ MSGPACK_AVAILABLE default_format = Ok self ->
          MSGPACK_AVAILABLE = true
          /\ UnifiedSerializer.msgpack_ser self = Some tt
          /\ UnifiedSerializer.default_format self = default_format
          /\ In default_format UnifiedSerializer.SUPPORTED_FORMATS).
Proof.
  intros df. split; [| split; [| split]].
  - intros self H. apply init_inv in H as [H _]. discriminate.
  - intros self H. unfold VectorAwareSerializer.__init__ in H.
    destruct (UnifiedSerializer.__init__ false df) as [u |] eqn:E;
      [| discriminate].
    apply init_inv in E as [E _]. discriminate.
  - intros Hin. unfold UnifiedSerializer.__init__.
    assert (E : existsb (String.eqb df) UnifiedSerializer.SUPPORTED_FORMATS = true).
    { apply existsb_exists. exists df. split; [exact Hin | apply String.eqb_refl]. }
    rewrite E. reflexivity.
  - intros avail self H. apply init_inv in H as (-> & Hin & ->).
    repeat split. exact Hin.
Qed.







End UnifiedTheory.

(** ** fragment.py: dictionaries, dimensions and the subclass *)

Module FragmentTheory.
Import Serializer CodecSpec FragmentSpec.

(** X18.  [validate_embedding_dim] never returns [False]: it returns
    [True] or raises.  It returns [True] exactly when no dimension is
    expected, when the expected dimension is 0 (which is falsy, so that
    no comparison is made although no fragment has an empty embedding),
    or when the embedding has the expected length; otherwise it raises
    a [ValueError] that names both numbers. *)
Theorem validate_embedding_dim_spec :
  forall (f : Fragment) (expected_dim : option Z),
    match validate_embedding_dim f expected_dim with
    | Ok b =>
        b = true
        /\ (expected_dim = None \/ expected_dim = Some 0%Z
            \/ expected_dim = Some (Z.of_nat (length (embedding f))))
    | Raise e =>
        exists d : Z,
          expected_dim = Some d /\ d <> 0%Z
          /\ d <> Z.of_nat (length (embedding f))
          /\ e = ValueError ("Embedding dim " ++ pretty (length (embedding f))
                               ++ " != expected " ++ pretty d)
    end.
Proof.
  intros f [d |]; unfold validate_embedding_dim; [| split; [| left]; reflexivity].
  destruct (d =? 0)%Z eqn:E0; cbn [negb andb].
  - apply Z.eqb_eq in E0. subst d. split; [| right; left]; reflexivity.
  - destruct (Z.of_nat (length (embedding f)) =? d)%Z eqn:E1; cbn [negb].
    + apply Z.eqb_eq in E1. subst d. split; [| right; right]; reflexivity.
    + apply Z.eqb_neq in E0, E1. exists d. repeat split; congruence.
Qed.

(** X19.  [Fragment.from_dict] against [to_dict].  Reading back the
    dictionary of a fragment gives what the constructor gives on its
    fields: the fragment itself when it is valid, the constructor's
    [ValueError] when it was made invalid after construction.  A
    dictionary that lacks one of the four fields without default, or
    holds a key that is no field, is refused with a [TypeError]; one
    that lacks [parent_doc_id] is read with [None] in its place. *)
Theorem from_dict_against_to_dict :
  forall f : Fragment,
    from_dict (to_dict f) = __post_init__ f
    /\ (forall key, In key required_fields ->
          exists msg, from_dict (PDict (without key (entries f)))
                      = Raise (TypeError msg))
    /\ from_dict (PDict (without "parent_doc_id" (entries f)))
       = __post_init__ (mkFragment (text f) (embedding f) (metadata f)
                                   (fragment_id f) None)
    /\ (forall key v, ~ In key fields ->
          exists msg, from_dict (PDict (entries f ++ [(key, v)]))
                      = Raise (TypeError msg)).
Proof.
  intros f. split; [| split; [| split]].
  - unfold to_dict. rewrite SerializerTheory.from_dict_dict_of.
    destruct f; reflexivity.
  - intros key Hkey. unfold required_fields in Hkey.
    destruct Hkey as [<- | [<- | [<- | [<- | []]]]]; eexists; reflexivity.
  - unfold from_dict, entries, to_dict, dict_of, without.
    cbn [List.filter fst String.eqb Ascii.eqb Bool.eqb negb forallb existsb
         fields orb andb required get rbind].
    rewrite SerializerTheory.traverse_as_float. reflexivity.
  - intros key v Hkey. unfold from_dict.
    assert (E : forallb (fun kv : string * pyval =>
                           existsb (String.eqb (fst kv)) fields)
                        (entries f ++ [(key, v)]) = false).
    { rewrite forallb_app. apply andb_false_iff. right.
      cbn [forallb fst]. rewrite andb_true_r.
      destruct (existsb (String.eqb key) fields) eqn:E; [| reflexivity].
      apply existsb_exists in E as (x & Hx & Heq).
      apply String.eqb_eq in Heq. subst x. contradiction. }
    rewrite E. eexists. reflexivity.
Qed.

(** X20.  A [CustomFragment] cannot pass through the JSON or the
    MessagePack codec: its dictionary carries the key [custom_field],
    and the decoders call [Fragment.from_dict], whose constructor has no
    such parameter, so that decoding what was encoded raises
    [TypeError], whatever the fragment.  Read with the subclass's own
    [from_dict] the dictionary gives the fragment back. *)
Theorem custom_fragment_not_decodable :
  forall (sqrt : Q -> Q) (self : JSONFragmentSerializer.t)
         (f : CustomFragment.t),
    (exists msg,
        JSONFragmentSerializer.deserialize_fragment
          (CustomFragment.json_serialize_fragment sqrt self f)
        = Raise (TypeError msg))
    /\ (forall data,
          CustomFragment.msgpack_serialize_fragment f = Ok data ->
          exists msg,
            MsgPackSerializer.deserialize_fragment data = Raise (TypeError msg))
    /\ (CustomFragment.__post_init__ f = Ok f ->
        CustomFragment.from_dict (CustomFragment.to_dict f) = Ok f).
Proof.
  intros sqrt self f. split; [| split].
  - unfold CustomFragment.json_serialize_fragment,
      JSONFragmentSerializer.deserialize_fragment, Json.loads, Json.dumps.
    destruct (JSONFragmentSerializer.normalize_vectors self);
      destruct (embedding (CustomFragment.base f)); eexists; reflexivity.
  - intros data H. unfold CustomFragment.msgpack_serialize_fragment,
      Msgpack.packb in H.
    destruct (ints_fit (CustomFragment.to_dict f)); [| discriminate].
    injection H as <-. eexists. reflexivity.
  - intros Hv. destruct f as [[t e m i p] c].
    unfold CustomFragment.from_dict, CustomFragment.to_dict,
      CustomFragment.dict_of.
    cbn [CustomFragment.base CustomFragment.custom_field text embedding
         metadata fragment_id parent_doc_id].
    cbn [forallb existsb fst String.eqb Ascii.eqb Bool.eqb negb orb andb
         CustomFragment.fields Serializer.fields app required get rbind].
    rewrite SerializerTheory.traverse_as_float. cbn [rbind].
    destruct p, c; cbn [opt_str rbind]; exact Hv.
Qed.

Lemma custom_fragment_not_decodable_witness :
  (exists msg,
      JSONFragmentSerializer.deserialize_fragment
        (CustomFragment.json_serialize_fragment (fun _ => 5)
           JSONFragmentSerializer.default
           (CustomFragment.mk sample_fragment (Some "note")))
      = Raise (TypeError msg))
  /\ CustomFragment.from_dict
       (CustomFragment.to_dict (CustomFragment.mk sample_fragment (Some "note")))
     = Ok (CustomFragment.mk sample_fragment (Some "note")).
Proof.
  destruct (custom_fragment_not_decodable (fun _ => 5)
              JSONFragmentSerializer.default
              (CustomFragment.mk sample_fragment (Some "note")))
    as (Hj & _ & Hc).
  split; [exact Hj | apply Hc; reflexivity].
Defined.

End FragmentTheory.

(** ** serializer_payload.py and serializer_protobuf.py *)

Module EnvelopeTheory.
Import Serializer EnvelopeSpec StableSpec.

(** X21.  [create_payload] describes one and the same prefix of the
    fragments in its three views: the fragment dictionaries, the
    embeddings and [num_fragments] agree in number and order.  The
    prefix has min(max_fragments, N) fragments for a positive
    [max_fragments]; for [None] and also for [0], which is falsy, it is
    the whole list; a negative [max_fragments] drops fragments from the
    end. *)
Theorem create_payload_views_agree :
  forall (query : string) (fragments : list Fragment) (max_fragments : option Z),
    exists kept rest : list Fragment,
      fragments = kept ++ rest
      /\ DSPyPayloadSerializer.create_payload query fragments max_fragments
         = PDict [("query", PStr query);
                  ("fragments", PList (map DSPyPayloadSerializer.entry kept));
                  ("embeddings",
                   PList (map (fun f => PList (map PFloat (embedding f))) kept));
                  ("num_fragments", PInt (Z.of_nat (length kept)))]
      /\ length kept
         = match max_fragments with
           | None => length fragments
           | Some m => if (m =? 0)%Z then length fragments
                       else slice_length m (length fragments)
           end
      /\ (max_fragments = Some 0%Z -> kept = fragments).
Proof.
  intros query fs [m |]; unfold DSPyPayloadSerializer.create_payload.
  - destruct (m =? 0)%Z eqn:E.
    + exists fs, []. rewrite app_nil_r. repeat split.
    + destruct (NpTheory.slice_to_prefix m fs) as [rest Hrest].
      exists (Np.slice_to m fs), rest.
      split; [exact Hrest |]. split; [reflexivity |].
      split; [apply StableSortTheory.slice_to_length_gen |].
      intros H. injection H as ->. discriminate.
  - exists fs, []. rewrite app_nil_r. repeat split; discriminate.
Qed.

Lemma results_plain (scores : option (list Q)) (fragments : list Fragment) :
  ProtobufStyleSerializer.truthy scores = false ->
  forall i : nat,
    ProtobufStyleSerializer.results i fragments scores
    = Some (enumerate_from plain_entry i fragments).
Proof.
  intros Hs. induction fragments as [| f fs IH]; intros i; [reflexivity |].
  cbn [ProtobufStyleSerializer.results]. rewrite Hs, IH. reflexivity.
Qed.

Lemma lookup_at (sc : list Q) :
  forall i : nat, (i < length sc)%nat -> sc !! i = Some (Np.at_ sc i).
Proof.
  induction sc as [| s sc IH]; intros i Hi; simpl in Hi; [lia |].
  destruct i as [| i]; [reflexivity |]. apply IH. lia.
Qed.

Lemma results_scored (sc : list Q) (fragments : list Fragment) :
  sc <> [] ->
  forall i : nat,
    (i + length fragments <= length sc)%nat ->
    ProtobufStyleSerializer.results i fragments (Some sc)
    = Some (enumerate_from (scored_entry sc) i fragments).
Proof.
  intros Hne. induction fragments as [| f fs IH]; intros i Hi; [reflexivity |].
  cbn [ProtobufStyleSerializer.results].
  assert (Ht : ProtobufStyleSerializer.truthy (Some sc) = true)
    by (destruct sc; [contradiction | reflexivity]).
  rewrite Ht. change (default [] (Some sc)) with sc. cbn [length] in Hi.
  rewrite lookup_at by lia. rewrite IH by lia. reflexivity.
Qed.

Lemma results_short (sc : list Q) (fragments : list Fragment) :
  sc <> [] -> fragments <> [] ->
  forall i : nat,
    (length sc < i + length fragments)%nat ->
    ProtobufStyleSerializer.results i fragments (Some sc) = None.
Proof.
  intros Hne. induction fragments as [| f fs IH]; intros Hf i Hi;
    [contradiction |].
  cbn [ProtobufStyleSerializer.results].
  assert (Ht : ProtobufStyleSerializer.truthy (Some sc) = true)
    by (destruct sc; [contradiction | reflexivity]).
  rewrite Ht. change (default [] (Some sc)) with sc. cbn [length] in Hi.
  destruct (sc !! i) as [s |] eqn:Es; [| reflexivity].
  apply lookup_lt_Some in Es.
  rewrite IH; [reflexivity | | lia].
  destruct fs; [simpl in Hi; lia | discriminate].
Qed.

(** X22.  [serialize_retrieval_result] and its optional scores.  With
    at least as many scores as fragments, entry [i] carries rank [i + 1]
    and [scores[i]]; scores beyond the fragments are dropped silently.
    With fewer scores than fragments, but at least one, the call raises
    [IndexError] and returns nothing.  With an empty score list, which
    is falsy, the result is that of a call without scores: no entry
    carries a score.  [total_count] is the number of fragments. *)
Theorem retrieval_result_scores :
  forall (query : string) (fragments : list Fragment) (scores : list Q),
    (scores <> [] -> (length fragments <= length scores)%nat ->
     ProtobufStyleSerializer.serialize_retrieval_result query fragments
       (Some scores)
     = Some (retrieval_envelope query
               (enumerate_from (scored_entry scores) O fragments)
               (length fragments)))
    /\ (scores <> [] -> (length scores < length fragments)%nat ->
        ProtobufStyleSerializer.serialize_retrieval_result query fragments
          (Some scores) = None)
    /\ ProtobufStyleSerializer.serialize_retrieval_result query fragments
         (Some [])
       = ProtobufStyleSerializer.serialize_retrieval_result query fragments None
    /\ ProtobufStyleSerializer.serialize_retrieval_result query fragments None
       = Some (retrieval_envelope query
                 (enumerate_from plain_entry O fragments) (length fragments)).
Proof.
  intros query fs sc.
  unfold ProtobufStyleSerializer.serialize_retrieval_result.
  split; [| split; [| split]].
  - intros Hne Hlen. rewrite results_scored by (assumption || lia). reflexivity.
  - intros Hne Hlen. rewrite results_short; [reflexivity | exact Hne | | lia].
    destruct fs; [simpl in Hlen; lia | discriminate].
  - rewrite !results_plain by reflexivity. reflexivity.
  - rewrite results_plain by reflexivity. reflexivity.
Qed.

Lemma retrieval_result_scores_witness :
  ProtobufStyleSerializer.serialize_retrieval_result "q"
    [CodecSpec.sample_fragment; CodecSpec.tuple_fragment] (Some [1 # 2; 1 # 4; 1 # 8])
  = Some (retrieval_envelope "q"
            (enumerate_from (scored_entry [1 # 2; 1 # 4; 1 # 8]) O
               [CodecSpec.sample_fragment; CodecSpec.tuple_fragment])
            (length [CodecSpec.sample_fragment; CodecSpec.tuple_fragment]))
  /\ ProtobufStyleSerializer.serialize_retrieval_result "q"
       [CodecSpec.sample_fragment; CodecSpec.tuple_fragment] (Some [1 # 2])
     = None.
Proof.
  split.
  - apply (proj1 (retrieval_result_scores "q"
                    [CodecSpec.sample_fragment; CodecSpec.tuple_fragment]
                    [1 # 2; 1 # 4; 1 # 8])); [discriminate | simpl; lia].
  - apply (proj1 (proj2 (retrieval_result_scores "q"
                           [CodecSpec.sample_fragment; CodecSpec.tuple_fragment]
                           [1 # 2]))); [discriminate | simpl; lia].
Defined.

Lemma read_back (fs : list Fragment) :
  List.Forall CodecSpec.valid fs ->
  Np.traverse from_dict (map to_dict fs) = Ok fs.
Proof.
  induction 1 as [| f fs Hv _ IH]; [reflexivity |].
  cbn [map Np.traverse]. unfold to_dict at 1.
  rewrite SerializerTheory.from_dict_dict_of.
  rewrite (SerializerTheory.make_valid f Hv). cbn [rbind].
  rewrite IH. reflexivity.
Qed.

(** X29.  The fragments inside a batch envelope and inside a training
    example can be read back: for fragments the constructor accepts,
    [Fragment.from_dict] on the dictionaries under [fragments] gives the
    fragments in order, tuples in the metadata included since nothing is
    encoded, and the envelope's [count] is their number. *)
Theorem envelopes_carry_the_fragments :
  forall (fragments : list Fragment) (batch_id question answer : string),
    List.Forall CodecSpec.valid fragments ->
    (exists (data : pyval) (items : list pyval),
        field "data"
          (ProtobufStyleSerializer.serialize_fragment_batch fragments batch_id)
        = Some data
        /\ field "count" data = Some (PInt (Z.of_nat (length fragments)))
        /\ field "batch_id" data = Some (PStr batch_id)
        /\ field "fragments" data = Some (PList items)
        /\ Np.traverse from_dict items = Ok fragments)
    /\ (exists items : list pyval,
          field "fragments"
            (DSPyPayloadSerializer.create_training_example question answer
               fragments)
          = Some (PList items)
          /\ Np.traverse from_dict items = Ok fragments).
Proof.
  intros fs batch_id question answer Hv. split.
  - exists (PDict [("batch_id", PStr batch_id);
                   ("count", PInt (Z.of_nat (length fs)));
                   ("fragments", PList (map to_dict fs))]),
      (map to_dict fs).
    repeat split. apply read_back, Hv.
  - exists (map to_dict fs). split; [reflexivity |]. apply read_back, Hv.
Qed.

Lemma envelopes_carry_the_fragments_witness :
  (exists (data : pyval) (items : list pyval),
      field "data"
        (ProtobufStyleSerializer.serialize_fragment_batch
           [CodecSpec.sample_fragment; CodecSpec.tuple_fragment] "b1")
      = Some data
      /\ field "count" data
         = Some (PInt (Z.of_nat
                         (length [CodecSpec.sample_fragment;
                                  CodecSpec.tuple_fragment])))
      /\ field "batch_id" data = Some (PStr "b1")
      /\ field "fragments" data = Some (PList items)
      /\ Np.traverse from_dict items
         = Ok [CodecSpec.sample_fragment; CodecSpec.tuple_fragment])
  /\ (exists items : list pyval,
        field "fragments"
          (DSPyPayloadSerializer.create_training_example "q" "a"
             [CodecSpec.sample_fragment; CodecSpec.tuple_fragment])
        = Some (PList items)
        /\ Np.traverse from_dict items
           = Ok [CodecSpec.sample_fragment; CodecSpec.tuple_fragment]).
Proof.
  apply (envelopes_carry_the_fragments
           [CodecSpec.sample_fragment; CodecSpec.tuple_fragment] "b1" "q" "a").
  repeat constructor.
Defined.

End EnvelopeTheory.

(** ** data_ingest.py: chunking *)

Module ChunkTheory.
Import DataIngest.

Section WithIsspace.

Variable isspace : Ascii.ascii -> bool.

Lemma lstrip_length (s : list Ascii.ascii) :
  (length (lstrip isspace s) <= length s)%nat.
Proof.
  induction s as [| c s IH]; simpl; [lia |].
  destruct (isspace c); simpl; lia.
Qed.

Lemma strip_length (s : list Ascii.ascii) :
  (length (strip isspace s) <= length s)%nat.
Proof.
  unfold strip. rewrite List.length_rev.
  etransitivity; [apply lstrip_length |].
  rewrite List.length_rev. apply lstrip_length.
Qed.

Lemma lstrip_head (s : list Ascii.ascii) (c : Ascii.ascii)
    (r : list Ascii.ascii) :
  lstrip isspace s = c :: r -> isspace c = false.
Proof.
  induction s as [| c0 s IH]; simpl; [discriminate |].
  destruct (isspace c0) eqn:E; [exact IH |].
  intros H. injection H as <- _. exact E.
Qed.

Lemma lstrip_fixed (c : Ascii.ascii) (r : list Ascii.ascii) :
  isspace c = false -> lstrip isspace (c :: r) = c :: r.
Proof. intros H. simpl. rewrite H. reflexivity. Qed.

Lemma lstrip_idem (s : list Ascii.ascii) :
  lstrip isspace (lstrip isspace s) = lstrip isspace s.
Proof.
  destruct (lstrip isspace s) as [| c r] eqn:E; [reflexivity |].
  apply lstrip_fixed, (lstrip_head s c r E).
Qed.

(** Stripping from the left keeps a last character that is no space. *)
Lemma lstrip_keeps_last (s : list Ascii.ascii) (c : Ascii.ascii) :
  isspace c = false ->
  exists x : list Ascii.ascii, lstrip isspace (s ++ [c]) = x ++ [c].
Proof.
  intros Hc. induction s as [| c0 s IH]; simpl.
  - rewrite Hc. exists []. reflexivity.
  - destruct (isspace c0); [exact IH |]. exists (c0 :: s). reflexivity.
Qed.

(** A stripped text has nothing left to strip. *)
Lemma strip_idem (s : list Ascii.ascii) :
  strip isspace (strip isspace s) = strip isspace s.
Proof.
  unfold strip.
  destruct (lstrip isspace s) as [| c r] eqn:E; [reflexivity |].
  pose proof (lstrip_head s c r E) as Hc.
  change (rev (c :: r)) with (rev r ++ [c]).
  destruct (lstrip_keeps_last (rev r) c Hc) as [x Hx].
  rewrite Hx. rewrite List.rev_app_distr. cbn [rev app].
  rewrite (lstrip_fixed c (rev x) Hc).
  cbn [rev]. rewrite List.rev_involutive, <- Hx, lstrip_idem.
  rewrite Hx, List.rev_app_distr. reflexivity.
Qed.

Lemma slice_length (text : list Ascii.ascii) (i j : Z) :
  (Z.of_nat (length (slice text i j)) <= Z.max 0 (j - i))%Z.
Proof.
  unfold slice. rewrite List.length_firstn. lia.
Qed.

Lemma chunk_loop_finishes (text : list Ascii.ascii) (max_chars overlap : Z) :
  (0 < max_chars)%Z -> (overlap < max_chars)%Z ->
  forall (fuel : nat) (i : Z) (chunks : list (list Ascii.ascii)),
    (0 <= i)%Z ->
    (Z.of_nat (length text) - i <= Z.of_nat fuel)%Z ->
    List.Forall (ChunkSpec.well_cut isspace max_chars) chunks ->
    exists r : list (list Ascii.ascii),
      chunk_loop isspace fuel text max_chars overlap i chunks = Some r
      /\ List.Forall (ChunkSpec.well_cut isspace max_chars) r.
Proof.
  intros Hm Ho. induction fuel as [| fuel IH]; intros i chunks Hi Hfuel Hc.
  - cbn [chunk_loop]. destruct (i <? Z.of_nat (length text))%Z eqn:E.
    + apply Z.ltb_lt in E. lia.
    + exists chunks. split; [reflexivity | exact Hc].
  - cbn [chunk_loop]. destruct (i <? Z.of_nat (length text))%Z eqn:E.
    2: { exists chunks. split; [reflexivity | exact Hc]. }
    apply Z.ltb_lt in E.
    set (n := Z.of_nat (length text)) in *.
    set (j := Z.min n (i + max_chars)).
    apply IH.
    + destruct (j <? n)%Z eqn:Ej.
      * apply Z.ltb_lt in Ej. destruct (j - overlap <? 0)%Z; lia.
      * destruct (j <? 0)%Z eqn:Ej0; [lia |]. apply Z.ltb_ge in Ej0. lia.
    + destruct (j <? n)%Z eqn:Ej.
      * apply Z.ltb_lt in Ej.
        destruct (j - overlap <? 0)%Z eqn:E0; [apply Z.ltb_lt in E0 |]; lia.
      * apply Z.ltb_ge in Ej.
        destruct (j <? 0)%Z eqn:E0; [apply Z.ltb_lt in E0 |]; lia.
    + destruct (strip isspace (slice text i j)) as [| c r] eqn:Es; [exact Hc |].
      rewrite <- Es. apply List.Forall_app. split; [exact Hc |].
      constructor; [| constructor].
      split; [rewrite Es; discriminate |].
      split; [apply strip_idem |].
      pose proof (strip_length (slice text i j)) as H1.
      pose proof (slice_length text i j) as H2. lia.
Qed.

(** X23.  With [0 < max_chars] and [overlap < max_chars] (the overlap
    may also be negative) [chunk_text] terminates, after at most
    [len(text)] rounds of its loop, and every chunk it returns is not
    empty, has no white space left at either end and has at most
    [max_chars] characters. *)
Theorem chunk_text_terminates :
  forall (text : list Ascii.ascii) (max_chars overlap : Z),
    (0 < max_chars)%Z -> (overlap < max_chars)%Z ->
    exists chunks : list (list Ascii.ascii),
      chunk_text isspace (length text) text max_chars overlap = Some chunks
      /\ List.Forall (ChunkSpec.well_cut isspace max_chars) chunks.
Proof.
  intros text m o Hm Ho. unfold chunk_text.
  destruct (m <=? 0)%Z eqn:E; [apply Z.leb_le in E; lia |].
  apply chunk_loop_finishes; try assumption; [lia | lia | constructor].
Qed.

Lemma chunk_loop_stuck (text : list Ascii.ascii) (max_chars overlap : Z) :
  (0 < max_chars)%Z -> (max_chars <= overlap)%Z ->
  (max_chars < Z.of_nat (length text))%Z ->
  forall (fuel : nat) (chunks : list (list Ascii.ascii)),
    chunk_loop isspace fuel text max_chars overlap 0 chunks = None.
Proof.
  intros Hm Ho Hn. induction fuel as [| fuel IH]; intros chunks.
  - cbn [chunk_loop].
    destruct (0 <? Z.of_nat (length text))%Z eqn:E; [reflexivity |].
    apply Z.ltb_ge in E. lia.
  - cbn [chunk_loop].
    destruct (0 <? Z.of_nat (length text))%Z eqn:E;
      [| apply Z.ltb_ge in E; lia].
    set (n := Z.of_nat (length text)) in *.
    replace (Z.min n (0 + max_chars)) with max_chars by lia.
    destruct (max_chars <? n)%Z eqn:Ej; [| apply Z.ltb_ge in Ej; lia].
    assert (E0 : (if (max_chars - overlap <? 0)%Z then 0%Z
                  else (max_chars - overlap)%Z) = 0%Z).
    { destruct (max_chars - overlap <? 0)%Z eqn:E0; [reflexivity |].
      apply Z.ltb_ge in E0. lia. }
    rewrite E0. apply IH.
Qed.

(** X24.  With [0 < max_chars <= overlap] and a text longer than
    [max_chars], [chunk_text] never returns: every round of its loop
    starts again at position 0, however many rounds are run. *)
Theorem chunk_text_loops_forever :
  forall (text : list Ascii.ascii) (max_chars overlap : Z) (fuel : nat),
    (0 < max_chars)%Z -> (max_chars <= overlap)%Z ->
    (max_chars < Z.of_nat (length text))%Z ->
    chunk_text isspace fuel text max_chars overlap = None.
Proof.
  intros text m o fuel Hm Ho Hn. unfold chunk_text.
  destruct (m <=? 0)%Z eqn:E; [apply Z.leb_le in E; lia |].
  apply chunk_loop_stuck; assumption.
Qed.

End WithIsspace.

Lemma chunk_text_terminates_witness :
  exists chunks : list (list Ascii.ascii),
    chunk_text Serializer.isspace (length ChunkSpec.twelve) ChunkSpec.twelve 5 2
    = Some chunks
    /\ List.Forall (ChunkSpec.well_cut Serializer.isspace 5) chunks.
Proof.
  apply (chunk_text_terminates Serializer.isspace ChunkSpec.twelve 5 2); lia.
Defined.

Lemma chunk_text_loops_forever_witness :
  chunk_text Serializer.isspace 1000 ChunkSpec.twelve 5 5 = None.
Proof.
  apply (chunk_text_loops_forever Serializer.isspace ChunkSpec.twelve 5 5 1000);
    [lia | lia | simpl; lia].
Defined.

End ChunkTheory.

(** ** sensor_advanced.py: a budget of zero *)

Module ZeroBudgetTheory.
Import Np AdvancedSensor RankingSpec.

Lemma slice_to_zero {A : Type} (l : list A) : slice_to 0 l = [].
Proof. reflexivity. Qed.

Section WithExp.

Variable exp : Q -> Q.

Lemma select_with_zero
    (ens : SelectionConfig -> list Q -> list (list Q) -> Z -> M (list nat))
    (c : SelectionConfig) (q : list Q) (cvs : list (list Q))
    (st : RandomState) (scores : list Q) :
  strategy c <> ENSEMBLE ->
  0 <= adaptive_percentile c <= 1 ->
  cvs <> [] -> _compute_similarities q cvs = Ok scores ->
  select_with exp ens c q cvs 0 st = (Ok [], st).
Proof.
  intros Hne Hp Hcvs Hs.
  destruct (MmrTheory.similarities_dims q cvs scores Hs) as [Hdim Hlen].
  unfold select_with. destruct cvs as [| cv cvs']; [contradiction |].
  remember (cv :: cvs') as cvs eqn:Ecvs.
  replace (Z.min 0 (Z.of_nat (length cvs))) with 0%Z by lia.
  destruct (strategy c) eqn:Es; try contradiction; unfold pure.
  - unfold _select_similarity. rewrite Hs. cbn [rbind].
    destruct (min_score c); [| reflexivity].
    destruct (where_ge scores q0); reflexivity.
  - unfold _select_mmr. rewrite Hs. cbn [rbind].
    destruct (ScoreTheory.gram_ok q cvs Hdim) as [pw ->]. reflexivity.
  - unfold _select_uncertainty. rewrite Hs. unfold choice.
    rewrite UncertaintyTheory.softmax_length, Hlen, Nat.eqb_refl.
    cbn [negb].
    destruct (Z.of_nat (length cvs) <? 0)%Z eqn:E1;
      [apply Z.ltb_lt in E1; lia |].
    destruct (Z.of_nat (length (List.filter (Qltb 0) (softmax exp c scores)))
              <? 0)%Z eqn:E2; [apply Z.ltb_lt in E2; lia |].
    reflexivity.
  - assert (Hsne : scores <> []).
    { intros ->. rewrite Ecvs in Hlen. discriminate. }
    destruct (StrategyTheory.percentile_ok scores (adaptive_percentile c)
                Hsne Hp) as [t Ht].
    destruct (AdaptiveTheory.percentile_reached scores (adaptive_percentile c)
                t Hp Ht) as (i & Hi & Hge).
    unfold _select_adaptive. rewrite Hs. cbn [rbind]. rewrite Ht. cbn [rbind].
    destruct (where_ge scores t) as [| v valid] eqn:Ev; [| reflexivity].
    assert (Hin : In i (where_ge scores t))
      by (apply FilterTheory.where_ge_In; split; assumption).
    rewrite Ev in Hin. destruct Hin.
Qed.

Lemma all_selections_zero (strategies : list SelectionStrategy) (q : list Q)
    (cvs : list (list Q)) (st : RandomState) (scores : list Q) :
  List.Forall (fun s => s <> ENSEMBLE) strategies ->
  cvs <> [] -> _compute_similarities q cvs = Ok scores ->
  all_selections exp strategies q cvs 0 st
  = (Ok (map (fun _ => []) strategies), st).
Proof.
  intros Hall Hcvs Hs. induction Hall as [| s strategies Hne _ IH];
    [reflexivity |].
  cbn [all_selections map].
  assert (Hnew : new (Some (default_config s)) = Ok (default_config s))
    by (destruct s; reflexivity).
  rewrite Hnew. unfold select_member. change (0 * 2)%Z with 0%Z.
  rewrite (select_with_zero _ (default_config s) q cvs st scores);
    [| exact Hne | split; discriminate | exact Hcvs | exact Hs].
  rewrite IH. reflexivity.
Qed.

(** X25.  With a budget of zero every strategy of a validly configured
    sensor returns the empty list on candidates of the query's
    dimension, and leaves the global random generator as it found it:
    also the sampling strategies draw nothing. *)
Theorem select_nothing_for_zero_budget :
  forall (c : SelectionConfig) (query_vec : list Q)
         (chunk_vecs : list (list Q)) (st : RandomState),
    new (Some c) = Ok c ->
    List.Forall (fun cv => length cv = length query_vec) chunk_vecs ->
    select exp c query_vec chunk_vecs 0 st = (Ok [], st).
Proof.
  intros c q cvs st Hc Hdim.
  destruct cvs as [| cv cvs']; [reflexivity |].
  remember (cv :: cvs') as cvs eqn:Ecvs.
  assert (Hcvs : cvs <> []) by (rewrite Ecvs; discriminate).
  destruct (ScoreTheory.similarities_ok q cvs Hdim) as (scores & Hs & Hlen).
  apply ConfigTheory.new_ok_iff in Hc as (_ & _ & Hp).
  destruct (strategy c) eqn:Es.
  1-3, 5: apply (select_with_zero _ c q cvs st scores);
    [rewrite Es; discriminate | exact Hp | exact Hcvs | exact Hs].
  unfold select, select_with. rewrite Ecvs, <- Ecvs, Es.
  replace (Z.min 0 (Z.of_nat (length cvs))) with 0%Z by lia.
  unfold _select_ensemble.
  destruct (ensemble_weights c) as [w |].
  - rewrite (all_selections_zero [SIMILARITY; MMR; UNCERTAINTY] q cvs st scores);
      [reflexivity | repeat constructor; discriminate | exact Hcvs | exact Hs].
  - rewrite (all_selections_zero [SIMILARITY; MMR] q cvs st scores);
      [reflexivity | repeat constructor; discriminate | exact Hcvs | exact Hs].
Qed.

End WithExp.

Lemma select_nothing_for_zero_budget_witness :
  select SamplingSpec.exp_approx SamplingSpec.weighted_ensemble [1; 0]
    [[9 # 10; 1 # 10]; [1 # 10; 9 # 10]; [7 # 10; 3 # 10]] 0
    SamplingSpec.low_draws
  = (Ok [], SamplingSpec.low_draws).
Proof.
  apply (select_nothing_for_zero_budget SamplingSpec.exp_approx
           SamplingSpec.weighted_ensemble [1; 0]
           [[9 # 10; 1 # 10]; [1 # 10; 9 # 10]; [7 # 10; 3 # 10]]
           SamplingSpec.low_draws).
  - reflexivity.
  - repeat constructor.
Defined.

End ZeroBudgetTheory.

(** ** sensor_advanced.py: an ensemble with two weights *)

Module EnsembleTheory.
Import Np AdvancedSensor RankingSpec SamplingSpec.

Section WithExp.

Variable exp : Q -> Q.
Hypothesis exp_pos : forall x : Q, 0 < exp x.




End WithExp.


End EnsembleTheory.

(** ** refrag.py: the environment and the language model of a new module *)

Module SetupTheory.
Import RefragSetup.

Lemma setdefault_lookup (key value : string) (env : environ) (k : string) :
  setdefault key value env !! k
  = if String.eqb k key then Some (default value (env !! key)) else env !! k.
Proof.
  unfold setdefault. destruct (String.eqb k key) eqn:E.
  - apply String.eqb_eq in E. subst k.
    destruct (env !! key) as [v |] eqn:Ev; simpl; [exact Ev |].
    apply lookup_insert_eq.
  - apply String.eqb_neq in E.
    destruct (env !! key) as [v |] eqn:Ev; [reflexivity |].
    apply lookup_insert_ne. congruence.
Qed.

Lemma setdefault_present (key value v : string) (env : environ) :
  env !! key = Some v -> setdefault key value env = env.
Proof. intros H. unfold setdefault. rewrite H. reflexivity. Qed.

Lemma not_configured (env : environ) :
  truthy (env !! "OPENROUTER_API_KEY") = None ->
  maybe_configure_openrouter_env env = (None, env).
Proof.
  intros H. unfold maybe_configure_openrouter_env. rewrite H. reflexivity.
Qed.

Lemma configured (env : environ) (k : string) :
  truthy (env !! "OPENROUTER_API_KEY") = Some k ->
  fst (maybe_configure_openrouter_env env)
  = Some (default "openrouter/auto" (env !! "OPENROUTER_MODEL"))
  /\ forall key,
       snd (maybe_configure_openrouter_env env) !! key
       = if String.eqb key "OPENAI_API_BASE"
         then Some (default "https://openrouter.ai/api/v1"
                            (env !! "OPENAI_API_BASE"))
         else if String.eqb key "OPENAI_API_KEY"
              then Some (default k (env !! "OPENAI_API_KEY"))
              else env !! key.
Proof.
  intros H. unfold maybe_configure_openrouter_env. rewrite H. cbn [fst snd].
  assert (Hl : forall key,
             setdefault "OPENAI_API_BASE" "https://openrouter.ai/api/v1"
               (setdefault "OPENAI_API_KEY" k env) !! key
             = if String.eqb key "OPENAI_API_BASE"
               then Some (default "https://openrouter.ai/api/v1"
                                  (env !! "OPENAI_API_BASE"))
               else if String.eqb key "OPENAI_API_KEY"
                    then Some (default k (env !! "OPENAI_API_KEY"))
                    else env !! key).
  { intros key. rewrite !setdefault_lookup.
    destruct (String.eqb key "OPENAI_API_BASE"); reflexivity. }
  split; [rewrite Hl; reflexivity | exact Hl].
Qed.

(** X27.  [maybe_configure_openrouter_env] only ever adds to the
    environment: a variable that is set keeps its value, in particular
    an [OPENAI_API_KEY] or [OPENAI_API_BASE] the user has set, and no
    variable other than these two is created.  Without a non-empty
    [OPENROUTER_API_KEY] it returns [None] and leaves the environment as
    it is; with one it returns [OPENROUTER_MODEL], or ["openrouter/auto"]
    when that is not set, and afterwards both variables are set.
    Calling it again changes nothing. *)
Theorem openrouter_env_only_adds :
  forall env : environ,
    let model := fst (maybe_configure_openrouter_env env) in
    let env' := snd (maybe_configure_openrouter_env env) in
    (forall key v, env !! key = Some v -> env' !! key = Some v)
    /\ (forall key, key <> "OPENAI_API_KEY" -> key <> "OPENAI_API_BASE" ->
                    env' !! key = env !! key)
    /\ (truthy (env !! "OPENROUTER_API_KEY") = None ->
        model = None /\ env' = env)
    /\ (forall k, truthy (env !! "OPENROUTER_API_KEY") = Some k ->
          model = Some (default "openrouter/auto" (env !! "OPENROUTER_MODEL"))
          /\ env' !! "OPENAI_API_KEY"
             = Some (default k (env !! "OPENAI_API_KEY"))
          /\ env' !! "OPENAI_API_BASE"
             = Some (default "https://openrouter.ai/api/v1"
                             (env !! "OPENAI_API_BASE")))
    /\ maybe_configure_openrouter_env env' = (model, env').
Proof.
  intros env. cbv zeta. unfold maybe_configure_openrouter_env.
  destruct (truthy (env !! "OPENROUTER_API_KEY")) as [k |] eqn:Ek; cbn [fst snd].
  2: { split; [intros key v H; exact H |]. split; [reflexivity |].
       split; [split; reflexivity |]. split; [discriminate |].
       rewrite Ek. reflexivity. }
  set (env1 := setdefault "OPENAI_API_KEY" k env).
  set (env2 := setdefault "OPENAI_API_BASE" "https://openrouter.ai/api/v1" env1).
  assert (Hl : forall key,
             env2 !! key
             = if String.eqb key "OPENAI_API_BASE"
               then Some (default "https://openrouter.ai/api/v1"
                                  (env !! "OPENAI_API_BASE"))
               else if String.eqb key "OPENAI_API_KEY"
                    then Some (default k (env !! "OPENAI_API_KEY"))
                    else env !! key).
  { destruct (configured env k Ek) as [_ H].
    unfold maybe_configure_openrouter_env in H. rewrite Ek in H. exact H. }
  split; [| split; [| split; [| split]]].
  - intros key v Hv. rewrite Hl.
    destruct (String.eqb key "OPENAI_API_BASE") eqn:E1.
    { apply String.eqb_eq in E1. subst key. rewrite Hv. reflexivity. }
    destruct (String.eqb key "OPENAI_API_KEY") eqn:E2; [| exact Hv].
    apply String.eqb_eq in E2. subst key. rewrite Hv. reflexivity.
  - intros key H1 H2. rewrite Hl.
    apply String.eqb_neq in H1, H2. rewrite H1, H2. reflexivity.
  - discriminate.
  - intros k0 Hk0. injection Hk0 as <-.
    rewrite !Hl. repeat split.
  - assert (E : truthy (env2 !! "OPENROUTER_API_KEY") = Some k).
    { rewrite Hl. exact Ek. }
    rewrite E.
    assert (E1 : setdefault "OPENAI_API_KEY" k env2 = env2).
    { apply (setdefault_present _ _ (default k (env !! "OPENAI_API_KEY"))).
      rewrite Hl. reflexivity. }
    rewrite E1.
    assert (E2 : setdefault "OPENAI_API_BASE" "https://openrouter.ai/api/v1" env2
                 = env2).
    { apply (setdefault_present _ _
               (default "https://openrouter.ai/api/v1" (env !! "OPENAI_API_BASE"))).
      rewrite Hl. reflexivity. }
    rewrite E2, !Hl. reflexivity.
Qed.

Lemma init_with_msgpack (lm : bool) (lm_model : string)
    (api_key : option string) (env : environ) :
  __init__ true lm lm_model api_key env
  = let model := fst (maybe_configure_openrouter_env env) in
    let env' := snd (maybe_configure_openrouter_env env) in
    if lm then (Ok Custom, env')
    else match truthy match truthy api_key with
                      | Some k => Some k
                      | None => env' !! "OPENAI_API_KEY"
                      end with
         | Some key => (Ok (LM (default lm_model (truthy model)) key), env')
         | None => (Ok NoLM, env')
         end.
Proof.
  unfold __init__.
  change (VectorAwareSerializer.__init__ true "json")
    with (Ok (VectorAwareSerializer.mk
                (Serializer.UnifiedSerializer.mk "json"
                   Serializer.JSONFragmentSerializer.default (Some tt))
                (Serializer.JSONFragmentSerializer.mk true))).
  cbv zeta. destruct (maybe_configure_openrouter_env env) as [model env'].
  reflexivity.
Qed.

Lemma truthy_idem (o : option string) (k : string) :
  truthy o = Some k -> truthy (Some k) = Some k.
Proof.
  destruct o as [s |]; [| discriminate]. simpl.
  destruct (String.eqb s "") eqn:E; [discriminate |].
  intros H. injection H as <-. rewrite E. reflexivity.
Qed.

(** X28.  Which language model a new [REFRAGModule] gets.  Without the
    [msgpack] package construction fails with [RuntimeError] before the
    environment is touched.  Otherwise: a given [lm] is kept; without
    one, a non-empty [api_key] is the key of the model that is built;
    without either, a non-empty [OPENROUTER_API_KEY] is used as key when
    [OPENAI_API_KEY] is not set, with the model [OPENROUTER_MODEL], or
    ["openrouter/auto"] when that is not set, the [lm_model] argument
    counting only when [OPENROUTER_MODEL] is set to the empty string;
    but an [OPENAI_API_KEY] set to the empty string leaves the module
    without a language model even when [OPENROUTER_API_KEY] is set; and
    with no key anywhere the module has no language model and the
    environment is as before. *)
Theorem new_module_language_model :
  forall (lm_model : string) (api_key : option string) (env : environ),
    (forall lm : bool,
        __init__ false lm lm_model api_key env
        = (Raise (RuntimeError "msgpack not available. Install with: uv add msgpack"),
           env))
    /\ fst (__init__ true true lm_model api_key env) = Ok Custom
    /\ (forall k, truthy api_key = Some k ->
          exists model,
            fst (__init__ true false lm_model api_key env) = Ok (LM model k))
    /\ (forall k, truthy api_key = None ->
          truthy (env !! "OPENROUTER_API_KEY") = Some k ->
          env !! "OPENAI_API_KEY" = None ->
          fst (__init__ true false lm_model api_key env)
          = Ok (LM match env !! "OPENROUTER_MODEL" with
                   | None => "openrouter/auto"
                   | Some m => if String.eqb m "" then lm_model else m
                   end k))
    /\ (truthy api_key = None -> env !! "OPENAI_API_KEY" = Some ""%string ->
        fst (__init__ true false lm_model api_key env) = Ok NoLM)
    /\ (truthy api_key = None ->
        truthy (env !! "OPENROUTER_API_KEY") = None ->
        truthy (env !! "OPENAI_API_KEY") = None ->
        __init__ true false lm_model api_key env = (Ok NoLM, env)).
Proof.
  intros lm_model api_key env.
  split; [intros lm; reflexivity |].
  split; [rewrite init_with_msgpack; reflexivity |].
  split; [| split; [| split]].
  - intros k Hk. rewrite init_with_msgpack. cbv zeta. rewrite Hk.
    rewrite (truthy_idem api_key k Hk). eexists. reflexivity.
  - intros k Hk Hr Ho. rewrite init_with_msgpack. cbv zeta. rewrite Hk.
    destruct (configured env k Hr) as (Hm & Hl).
    rewrite Hm, Hl, Ho. cbn [String.eqb Ascii.eqb Bool.eqb].
    cbn [default from_option id].
    rewrite (truthy_idem _ k Hr). cbn [fst].
    destruct (env !! "OPENROUTER_MODEL") as [m |]; [| reflexivity].
    cbn [default from_option id truthy].
    destruct (String.eqb m ""); reflexivity.
  - intros Hk Ho. rewrite init_with_msgpack. cbv zeta. rewrite Hk.
    destruct (truthy (env !! "OPENROUTER_API_KEY")) as [k |] eqn:Hr.
    + destruct (configured env k Hr) as (_ & Hl).
      rewrite Hl, Ho. reflexivity.
    + rewrite (not_configured env Hr). cbn [snd]. rewrite Ho. reflexivity.
  - intros Hk Hr Ho. rewrite init_with_msgpack. cbv zeta. rewrite Hk.
    rewrite (not_configured env Hr). cbn [fst snd]. rewrite Ho. reflexivity.
Qed.

End SetupTheory.
